(** * The gradient-descent planner of mujoco_mpc: model and verification

    A shallow embedding of [mjpc/planners/gradient/planner.cc]
    ([GradientPlanner]) together with the properties its specification
    states about it.

    - C++ [double] is the kernel's binary64 float ([PrimFloat.float]), so
      every comparison below is the IEEE-754 comparison the compiled
      program performs (a comparison with a NaN is false).
    - C++ [int] is [Z]; signed overflow is undefined behaviour in the
      source and is not modelled.
    - Fixed-capacity arrays ([trajectory], [candidate_policy],
      [improvement_step], the scratch vectors) are lists updated in
      place with stdpp's [<[i:=x]>]; an access outside the array is
      undefined behaviour in the source and reads the type's inhabitant
      (or writes nothing) here.
    - Everything the planner calls but does not define (the simulator
      rollout, the derivative kernels, the gradient solver, the spline
      kernels, the clock and the thread pool's assignment of tasks to
      workers) is a field of the record [Collaborators]. *)

From Stdlib Require Import ZArith List Bool Lia Uint63 Floats.
From stdpp Require Import base list relations.
Import ListNotations.

Set Warnings "-inexact-float".
Open Scope Z_scope.

(** ** Scalars *)

(** Conversion of a C++ [int] to [double] (exact below 2^53). *)
Definition of_int (z : Z) : float :=
  if z <? 0 then PrimFloat.opp (PrimFloat.of_uint63 (Uint63.of_Z (- z)))
  else PrimFloat.of_uint63 (Uint63.of_Z z).

(** MuJoCo's [mju_max]: [a >= b ? a : b]. *)
Definition mju_max (a b : float) : float :=
  if (b <=? a)%float then a else b.

(** MuJoCo's [mju_min]: [a <= b ? a : b]. *)
Definition mju_min (a b : float) : float :=
  if (a <=? b)%float then a else b.

(** [mju_min] at two [int]s, as in
    [num_trajectory = mju_min(num_trajectory, kMaxTrajectory)]: both are
    promoted to [double], compared, and the result converted back; the
    conversions are exact on 32-bit integers. *)
Definition mju_min_int (a b : Z) : Z := if a <=? b then a else b.

(** MuJoCo's [mju_copy(res, vec, n)]: the first [n] entries of [res]
    become those of [vec]. *)
Definition mju_copy (res vec : list float) (n : Z) : list float :=
  take (Z.to_nat n) vec ++ drop (Z.to_nat n) res.

(** MuJoCo's [mju_addScl(res, vec1, vec2, scl, n)]:
    [res[i] = vec1[i] + scl * vec2[i]] for [i < n]. *)
Definition mju_addScl (res vec1 vec2 : list float) (scl : float) (n : Z)
  : list float :=
  zip_with (fun a b => (a + scl * b)%float)
           (take (Z.to_nat n) vec1) (take (Z.to_nat n) vec2)
  ++ drop (Z.to_nat n) res.

(** Writing the block [vals] into [buf] from offset [off] on, as a callee
    does that is handed [DataAt(buf, off)]. *)
Definition write_block (buf : list float) (off : nat) (vals : list float)
  : list float :=
  take off buf ++ vals ++ drop (off + length vals) buf.

(** ** Data model *)

(** [GradientPolicy]: the members the planner touches. *)
Record Policy := mkPolicy {
  num_parameters : Z;
  num_spline_points : Z;
  representation : Z;
  parameters : list float;
  times : list float;
  parameter_update : list float;
  k : list float;
}.

(** [Trajectory]: the rollout buffer of one candidate. *)
Record Trajectory := mkTrajectory {
  horizon : Z;
  total_return : float;
  states : list float;
  actions : list float;
  residual : list float;
  traj_times : list float;
  trace : list float;
}.

(** [GradientPlannerSettings]. *)
Record Settings := mkSettings {
  max_rollout : Z;
  min_step_size : float;
  fd_tolerance : float;
  fd_mode : Z;
}.

(** The six per-stage timers, in microseconds: the locals of
    [OptimizePolicy] and the members [*_compute_time] have this shape. *)
Record Timers := mkTimers {
  nominal_time : float;
  model_derivative_time : float;
  cost_derivative_time : float;
  rollouts_time : float;
  gradient_time : float;
  policy_update_time : float;
}.

(** [GradientPlanner]: the members [OptimizePolicy] reads or writes.
    [compute_time] groups the six members [nominal_compute_time],
    [model_derivative_compute_time], ...; [gradient_dV0] is
    [gradient.dV[0]]. *)
Record GradientPlanner := mkPlanner {
  state : list float;
  mocap : list float;
  time : float;
  policy : Policy;
  candidate_policy : list Policy;
  trajectory : list Trajectory;
  improvement_step : list float;
  parameters_scratch : list float;
  times_scratch : list float;
  num_trajectory : Z;
  winner : Z;
  step_size : float;
  expected : float;
  improvement : float;
  surprise : float;
  gradient_dV0 : float;
  timestep_power : float;
  settings : Settings;
  compute_time : Timers;
}.

#[global] Instance Policy_inhabited : Inhabited Policy :=
  populate (mkPolicy 0 0 0 [] [] [] []).
#[global] Instance Trajectory_inhabited : Inhabited Trajectory :=
  populate (mkTrajectory 0 0%float [] [] [] [] []).
#[global] Instance float_inhabited : Inhabited float := populate 0%float.

(** Member updates. *)
Definition set_policy (v : Policy) (p : GradientPlanner) : GradientPlanner :=
  mkPlanner p.(state) p.(mocap) p.(time) v p.(candidate_policy)
    p.(trajectory) p.(improvement_step) p.(parameters_scratch)
    p.(times_scratch) p.(num_trajectory) p.(winner) p.(step_size)
    p.(expected) p.(improvement) p.(surprise) p.(gradient_dV0)
    p.(timestep_power) p.(settings) p.(compute_time).

Definition set_candidate_policy (v : list Policy) (p : GradientPlanner)
  : GradientPlanner :=
  mkPlanner p.(state) p.(mocap) p.(time) p.(policy) v
    p.(trajectory) p.(improvement_step) p.(parameters_scratch)
    p.(times_scratch) p.(num_trajectory) p.(winner) p.(step_size)
    p.(expected) p.(improvement) p.(surprise) p.(gradient_dV0)
    p.(timestep_power) p.(settings) p.(compute_time).

Definition set_trajectory (v : list Trajectory) (p : GradientPlanner)
  : GradientPlanner :=
  mkPlanner p.(state) p.(mocap) p.(time) p.(policy) p.(candidate_policy)
    v p.(improvement_step) p.(parameters_scratch)
    p.(times_scratch) p.(num_trajectory) p.(winner) p.(step_size)
    p.(expected) p.(improvement) p.(surprise) p.(gradient_dV0)
    p.(timestep_power) p.(settings) p.(compute_time).

Definition set_improvement_step (v : list float) (p : GradientPlanner)
  : GradientPlanner :=
  mkPlanner p.(state) p.(mocap) p.(time) p.(policy) p.(candidate_policy)
    p.(trajectory) v p.(parameters_scratch)
    p.(times_scratch) p.(num_trajectory) p.(winner) p.(step_size)
    p.(expected) p.(improvement) p.(surprise) p.(gradient_dV0)
    p.(timestep_power) p.(settings) p.(compute_time).

Definition set_scratch (ps ts : list float) (p : GradientPlanner)
  : GradientPlanner :=
  mkPlanner p.(state) p.(mocap) p.(time) p.(policy) p.(candidate_policy)
    p.(trajectory) p.(improvement_step) ps ts
    p.(num_trajectory) p.(winner) p.(step_size)
    p.(expected) p.(improvement) p.(surprise) p.(gradient_dV0)
    p.(timestep_power) p.(settings) p.(compute_time).

Definition set_num_trajectory (v : Z) (p : GradientPlanner)
  : GradientPlanner :=
  mkPlanner p.(state) p.(mocap) p.(time) p.(policy) p.(candidate_policy)
    p.(trajectory) p.(improvement_step) p.(parameters_scratch)
    p.(times_scratch) v p.(winner) p.(step_size)
    p.(expected) p.(improvement) p.(surprise) p.(gradient_dV0)
    p.(timestep_power) p.(settings) p.(compute_time).

Definition set_winner (v : Z) (p : GradientPlanner) : GradientPlanner :=
  mkPlanner p.(state) p.(mocap) p.(time) p.(policy) p.(candidate_policy)
    p.(trajectory) p.(improvement_step) p.(parameters_scratch)
    p.(times_scratch) p.(num_trajectory) v p.(step_size)
    p.(expected) p.(improvement) p.(surprise) p.(gradient_dV0)
    p.(timestep_power) p.(settings) p.(compute_time).

Definition set_diagnostics (step expd impr surp : float)
    (p : GradientPlanner) : GradientPlanner :=
  mkPlanner p.(state) p.(mocap) p.(time) p.(policy) p.(candidate_policy)
    p.(trajectory) p.(improvement_step) p.(parameters_scratch)
    p.(times_scratch) p.(num_trajectory) p.(winner) step
    expd impr surp p.(gradient_dV0)
    p.(timestep_power) p.(settings) p.(compute_time).

Definition set_gradient_dV0 (v : float) (p : GradientPlanner)
  : GradientPlanner :=
  mkPlanner p.(state) p.(mocap) p.(time) p.(policy) p.(candidate_policy)
    p.(trajectory) p.(improvement_step) p.(parameters_scratch)
    p.(times_scratch) p.(num_trajectory) p.(winner) p.(step_size)
    p.(expected) p.(improvement) p.(surprise) v
    p.(timestep_power) p.(settings) p.(compute_time).

Definition set_compute_time (v : Timers) (p : GradientPlanner)
  : GradientPlanner :=
  mkPlanner p.(state) p.(mocap) p.(time) p.(policy) p.(candidate_policy)
    p.(trajectory) p.(improvement_step) p.(parameters_scratch)
    p.(times_scratch) p.(num_trajectory) p.(winner) p.(step_size)
    p.(expected) p.(improvement) p.(surprise) p.(gradient_dV0)
    p.(timestep_power) p.(settings) v.

Definition set_num_parameters (v : Z) (q : Policy) : Policy :=
  mkPolicy v q.(num_spline_points) q.(representation) q.(parameters)
    q.(times) q.(parameter_update) q.(k).

Definition set_parameters (v : list float) (q : Policy) : Policy :=
  mkPolicy q.(num_parameters) q.(num_spline_points) q.(representation) v
    q.(times) q.(parameter_update) q.(k).

Definition set_times (v : list float) (q : Policy) : Policy :=
  mkPolicy q.(num_parameters) q.(num_spline_points) q.(representation)
    q.(parameters) v q.(parameter_update) q.(k).

Definition set_parameter_update (v : list float) (q : Policy) : Policy :=
  mkPolicy q.(num_parameters) q.(num_spline_points) q.(representation)
    q.(parameters) q.(times) v q.(k).

Definition set_k (v : list float) (q : Policy) : Policy :=
  mkPolicy q.(num_parameters) q.(num_spline_points) q.(representation)
    q.(parameters) q.(times) q.(parameter_update) v.

(** Array access at a C++ [int] index. *)
Definition get {A} `{Inhabited A} (l : list A) (i : Z) : A :=
  if i <? 0 then inhabitant else l !!! Z.to_nat i.

Definition put {A} (l : list A) (i : Z) (x : A) : list A :=
  if i <? 0 then l else <[Z.to_nat i := x]> l.

(** ** Collaborators *)

(** The stage a stopwatch of [OptimizePolicy] measures. *)
Inductive Stage :=
| NominalStage
| ModelDerivativeStage
| CostDerivativeStage
| GradientStage
| RolloutsStage
| PolicyUpdateStage.

(** What [planner.cc] uses and does not define.

    - [kMaxTrajectory], [nu] ([model->nu]) and [timestep]
      ([model->opt.timestep]) are constants of the build and the model.
    - [Action q t] is [q.Action(action, nullptr, t)]: the [nu] controls
      the spline policy [q] yields at time [t].
    - [Rollout q state time mocap horizon worker] is
      [Trajectory::Rollout] run with policy [q] on the scratch buffer
      [data_[worker]]: the trajectory it fills in.
    - [model_derivative_Compute], [cost_derivative_Compute],
      [gradient_Compute] (status, per-timestep direction [k], [dV[0]]),
      [mapping_Compute] with [mju_mulMatTVec] are the derivative
      kernels, the gradient solver and the spline mapping.
    - [PowerSequence t t_step t1 t2 p N] is the utility of that name.
    - [mju_exp] and [mju_log] are MuJoCo's.
    - [stage_micros s i] is what the stopwatch of stage [s] reads in
      iteration [i] of the improvement loop, in microseconds.
    - [WorkerId i j] is the pool worker that ran rollout task [j] in
      iteration [i] ([ThreadPool::WorkerId()] inside the task). *)
Record Collaborators := mkCollaborators {
  kMaxTrajectory : Z;
  nu : Z;
  timestep : float;
  ModelDerivatives : Type;
  CostDerivatives : Type;
  Action : Policy -> float -> list float;
  Rollout : Policy -> list float -> float -> list float -> Z -> Z -> Trajectory;
  model_derivative_Compute : Trajectory -> Z -> Settings -> ModelDerivatives;
  cost_derivative_Compute :
    Trajectory -> ModelDerivatives -> Z -> CostDerivatives;
  gradient_Compute :
    Policy -> ModelDerivatives -> CostDerivatives -> Z ->
    Z * list float * float;
  mapping_Compute :
    Z -> list float -> list float -> Z -> list float -> Z -> list float;
  mju_mulMatTVec : list float -> list float -> Z -> Z -> list float;
  PowerSequence :
    list float -> float -> float -> float -> float -> Z -> list float;
  mju_exp : float -> float;
  mju_log : float -> float;
  stage_micros : Stage -> Z -> Z;
  WorkerId : Z -> Z -> Z;
}.

(** How [OptimizePolicy] returned: through its last line, or through
    [if (gd_status != 0) return;] in iteration [iteration], in which case
    [locals] are its local timers at that moment. *)
Inductive Exit :=
| Completed
| GradientFailure (iteration : Z) (locals : Timers).

(** ** Helpers of the policy and of [utilities.cc] *)

(** Modelled from the spec: [GradientPolicy::CopyFrom(policy, horizon)]
    of planners/gradient/policy.cc, which is not among the sources. The
    spec has the planner "copy nominal policy into working slot 0"; the
    receiver becomes a copy of the policy handed in. *)
Definition CopyFrom (receiver source : Policy) (h : Z) : Policy :=
  source.

(** Modelled from the spec: [GradientPolicy::CopyParametersFrom
    (src_parameters, src_times)] of planners/gradient/policy.cc, which
    is not among the sources. The spec has the planner "publish the
    final winner's parameters into the nominal policy": the receiver
    takes the parameters and knot times handed in and keeps its other
    members. *)
Definition CopyParametersFrom (receiver : Policy)
    (src_parameters src_times : list float) : Policy :=
  set_times src_times (set_parameters src_parameters receiver).

Section Planner.
Context (E : Collaborators).

(** Modelled from the spec: [LogScale(values, max_value, min_value,
    steps)] of utilities.cc, which is not among the sources. The spec
    has it "generate N step sizes on a logarithmic scale from 1.0 down
    to a configured minimum", "geometric between 1.0 and 0.01": entry
    [i < steps] is [exp (log max - i * (log max - log min) / (steps - 1))],
    the divisor being 1 when there is a single step. *)
Definition LogScale_value (max_value min_value : float) (steps : Z) (i : Z)
  : float :=
  E.(mju_exp)
    (E.(mju_log) max_value
     - of_int i * ((E.(mju_log) max_value - E.(mju_log) min_value)
                   / of_int (Z.max (steps - 1) 1)))%float.

Definition LogScale (values : list float) (max_value min_value : float)
    (steps : Z) : list float :=
  fold_left
    (fun vs i => <[i := LogScale_value max_value min_value steps (Z.of_nat i)]> vs)
    (seq 0 (Z.to_nat steps)) values.

(** *** [GradientPlanner::ResamplePolicy] *)

(** [time_shift] of [ResamplePolicy]. *)
Definition time_shift (h num_spline_points : Z) : float :=
  mju_max (of_int (h - 1) * E.(timestep)
           / of_int (num_spline_points - 1))%float
          1.0e-5%float.

(** The loop [for (int t = 0; t < num_spline_points; t++)]: [n] rounds
    are left, [t] is the loop variable. *)
Fixpoint resample_points (n t : nat) (cp : Policy)
    (nominal_time shift : float) (ps ts : list float)
  : list float * list float :=
  match n with
  | O => (ps, ts)
  | S n' =>
      resample_points n' (S t) cp (nominal_time + shift)%float shift
        (write_block ps (Z.to_nat (Z.of_nat t * E.(nu)))
                     (E.(Action) cp nominal_time))
        (<[t := nominal_time]> ts)
  end.

Definition ResamplePolicy (h : Z) (p : GradientPlanner)
  : GradientPlanner :=
  let cp := get p.(candidate_policy) 0 in
  let num_parameters := cp.(num_parameters) in
  let num_spline_points := cp.(num_spline_points) in
  let shift := time_shift h num_spline_points in
  let '(ps, ts) :=
    resample_points (Z.to_nat num_spline_points) 0 cp p.(time) shift
      p.(parameters_scratch) p.(times_scratch) in
  let cp1 := set_parameters (mju_copy cp.(parameters) ps num_parameters) cp in
  let cp2 := set_times (mju_copy cp1.(times) ts num_spline_points) cp1 in
  let cp3 :=
    set_times
      (E.(PowerSequence) cp2.(times) shift (get cp2.(times) 0)
         (get cp2.(times) (num_spline_points - 1)) p.(timestep_power)
         num_spline_points) cp2 in
  set_candidate_policy (put p.(candidate_policy) 0 cp3) (set_scratch ps ts p).

(** *** [GradientPlanner::NominalTrajectory] *)

Definition NominalTrajectory (h : Z) (p : GradientPlanner)
  : GradientPlanner :=
  set_trajectory
    (put p.(trajectory) 0
       (E.(Rollout) (get p.(candidate_policy) 0) p.(state) p.(time)
          p.(mocap) h 0)) p.

(** *** [GradientPlanner::Rollouts] *)

(** The task scheduled for candidate [j], run by pool worker [worker]:
    scale the improvement, then roll the candidate out on the worker's
    buffer [data[ThreadPool::WorkerId()]]. Task [j] writes
    [candidate_policy[j]] and [trajectory[j]] only. *)
Definition rollout_task (h : Z) (worker : Z) (j : nat) (p : GradientPlanner)
  : GradientPlanner :=
  let cp := p.(candidate_policy) !!! j in
  let cp' :=
    set_parameters
      (mju_addScl cp.(parameters) cp.(parameters) cp.(parameter_update)
         (p.(improvement_step) !!! j) (E.(nu) * cp.(num_spline_points))) cp in
  let tr := E.(Rollout) cp' p.(state) p.(time) p.(mocap) h worker in
  set_trajectory (<[j := tr]> p.(trajectory))
    (set_candidate_policy (<[j := cp']> p.(candidate_policy)) p).

(** [Rollouts] once the barrier [pool.WaitCount] has let it through:
    every task [0 .. num_trajectory - 1] has run, task [j] on worker
    [assign j]. *)
Definition Rollouts_on (assign : Z -> Z) (h : Z) (p : GradientPlanner)
  : GradientPlanner :=
  fold_left (fun q j => rollout_task h (assign (Z.of_nat j)) j q)
            (seq 0 (Z.to_nat p.(num_trajectory))) p.

(** [Rollouts] in iteration [i] of the improvement loop. *)
Definition Rollouts (h i : Z) (p : GradientPlanner) : GradientPlanner :=
  Rollouts_on (E.(WorkerId) i) h p.

(** *** [GradientPlanner::OptimizePolicy] *)

(** Adding a stopwatch reading to a local timer:
    [timer += duration_cast<microseconds>(...).count()]. *)
Definition add_micros (timer : float) (micros : Z) : float :=
  (timer + of_int micros)%float.

(** Lines 157-186: clamp the candidate count, copy the nominal policy into
    slot 0, resample it, roll the nominal trajectory out. The result
    carries [c_prev] and the local timers. *)
Definition nominal_stage (h : Z) (p : GradientPlanner)
  : float * Timers * GradientPlanner :=
  let p1 :=
    set_num_trajectory
      (mju_min_int p.(num_trajectory) E.(kMaxTrajectory)) p in
  let p2 :=
    set_policy
      (set_num_parameters (E.(nu) * p1.(policy).(num_spline_points))
         p1.(policy)) p1 in
  let p3 :=
    set_candidate_policy
      (put p2.(candidate_policy) 0
         (CopyFrom (get p2.(candidate_policy) 0) p2.(policy)
            p2.(policy).(num_spline_points))) p2 in
  let p4 := ResamplePolicy h p3 in
  let p5 := NominalTrajectory h p4 in
  let c_prev := (get p5.(trajectory) 0).(total_return) in
  let t :=
    mkTimers (of_int (E.(stage_micros) NominalStage 0)) 0 0 0 0 0 in
  (c_prev, t, p5).

(** Lines 188-250 of iteration [i]: model derivatives, cost derivatives,
    gradient solve, spline mapping and total derivative. The result
    carries [gd_status]. *)
Definition gradient_stage (h i : Z) (t : Timers) (p : GradientPlanner)
  : Z * Timers * GradientPlanner :=
  let tr0 := get p.(trajectory) 0 in
  let md := E.(model_derivative_Compute) tr0 h p.(settings) in
  let cd := E.(cost_derivative_Compute) tr0 md h in
  let cp0 := get p.(candidate_policy) 0 in
  let '(gd_status, k', dV0) := E.(gradient_Compute) cp0 md cd h in
  let cp0a := set_k k' cp0 in
  let mapping :=
    E.(mapping_Compute) p.(policy).(representation) cp0a.(times)
      cp0a.(parameters) cp0a.(num_spline_points) tr0.(traj_times)
      (tr0.(horizon) - 1) in
  let cp0b :=
    set_parameter_update
      (mju_copy cp0a.(parameter_update)
         (E.(mju_mulMatTVec) mapping cp0a.(k)
            (E.(nu) * (tr0.(horizon) - 1))
            (E.(nu) * cp0a.(num_spline_points)))
         (E.(nu) * cp0a.(num_spline_points))) cp0a in
  let t' :=
    mkTimers t.(nominal_time)
      (add_micros t.(model_derivative_time)
         (E.(stage_micros) ModelDerivativeStage i))
      (add_micros t.(cost_derivative_time)
         (E.(stage_micros) CostDerivativeStage i))
      t.(rollouts_time)
      (add_micros t.(gradient_time) (E.(stage_micros) GradientStage i))
      t.(policy_update_time) in
  (gd_status, t',
   set_gradient_dV0 dV0
     (set_candidate_policy (put p.(candidate_policy) 0 cp0b) p)).

(** Lines 268-271: [for (int i = 1; i < num_trajectory; i++)
    candidate_policy[i].CopyFrom(candidate_policy[0], ...)]. *)
Definition copy_candidates (p : GradientPlanner) : GradientPlanner :=
  let cp0 := get p.(candidate_policy) 0 in
  set_candidate_policy
    (fold_left
       (fun cps j => <[j := CopyFrom (cps !!! j) cp0 cp0.(num_spline_points)]> cps)
       (seq 1 (Z.to_nat p.(num_trajectory) - 1)) p.(candidate_policy)) p.

(** Lines 273-276: the improvement step sizes. *)
Definition improvement_steps (p : GradientPlanner) : GradientPlanner :=
  set_improvement_step
    (put
       (LogScale p.(improvement_step) 1.0 p.(settings).(min_step_size)
          (p.(num_trajectory) - 1))
       (p.(num_trajectory) - 1) 0.0%float) p.

(** Lines 283-292: the scan [for (int j = num_trajectory - 1; j >= 0; j--)];
    [n] candidates are left, the next one examined is [n - 1]. *)
Fixpoint evaluate_rollouts (n : nat) (trs : list Trajectory)
    (c_best : float) (winner : Z) : float * Z :=
  match n with
  | O => (c_best, winner)
  | S j =>
      let c_sample := (trs !!! j).(total_return) in
      if (c_sample <? c_best)%float
      then evaluate_rollouts j trs c_sample (Z.of_nat j)
      else evaluate_rollouts j trs c_best winner
  end.

(** Lines 281-292: [winner = num_trajectory - 1] and the scan. *)
Definition select_winner (c_best : float) (p : GradientPlanner)
  : float * Z :=
  evaluate_rollouts (Z.to_nat p.(num_trajectory)) p.(trajectory) c_best
    (p.(num_trajectory) - 1).

(** Lines 294-302: fold the winner into slot 0 and set the diagnostics. *)
Definition adopt_winner (c_prev c_best : float) (w : Z)
    (p : GradientPlanner) : GradientPlanner :=
  let cw := get p.(candidate_policy) w in
  let p1 :=
    set_candidate_policy
      (put p.(candidate_policy) 0
         (CopyParametersFrom (get p.(candidate_policy) 0)
            cw.(parameters) cw.(times))) (set_winner w p) in
  let p2 := set_trajectory (put p1.(trajectory) 0 (get p1.(trajectory) w)) p1 in
  let step := get p2.(improvement_step) w in
  let expd := (- step * p2.(gradient_dV0) - 1.0e-16)%float in
  let impr := (c_prev - c_best)%float in
  let surp := mju_min (mju_max 0 (impr / expd)) 2 in
  set_diagnostics step expd impr surp p2.

(** Lines 264-307 of iteration [i]: what follows a successful gradient
    solve. The result carries the new [c_best]. *)
Definition rollout_stage (h i : Z) (c_prev c_best : float)
    (t : Timers) (p : GradientPlanner) : float * Timers * GradientPlanner :=
  let p1 := Rollouts h i (improvement_steps (copy_candidates p)) in
  let '(c_best', w) := select_winner c_best p1 in
  let p2 := adopt_winner c_prev c_best' w p1 in
  let t' :=
    mkTimers t.(nominal_time) t.(model_derivative_time)
      t.(cost_derivative_time)
      (add_micros t.(rollouts_time) (E.(stage_micros) RolloutsStage i))
      t.(gradient_time) t.(policy_update_time) in
  (c_best', t', p2).

(** How the improvement loop ended. *)
Inductive LoopExit :=
| LoopDone (c_best : float) (t : Timers) (p : GradientPlanner)
| LoopFailed (iteration : Z) (t : Timers) (p : GradientPlanner).

(** Lines 187-308: [for (int i = 0; i < settings.max_rollout; i++)];
    [n] iterations are left, [i] is the loop variable. *)
Fixpoint improvement_loop (n : nat) (h i : Z) (c_prev c_best : float)
    (t : Timers) (p : GradientPlanner) : LoopExit :=
  match n with
  | O => LoopDone c_best t p
  | S n' =>
      let '(gd_status, t1, p1) := gradient_stage h i t p in
      if gd_status =? 0 then
        let '(c_best', t2, p2) := rollout_stage h i c_prev c_best t1 p1 in
        improvement_loop n' h (i + 1) c_prev c_best' t2 p2
      else LoopFailed i t1 p1
  end.

(** Lines 311-336: pick the final winner, publish it into the nominal
    policy, store the timers. *)
Definition publish (c_prev c_best : float) (t : Timers)
    (p : GradientPlanner) : GradientPlanner :=
  let p1 :=
    if (c_prev <=? c_best)%float
    then set_winner (p.(num_trajectory) - 1) p else p in
  let cw := get p1.(candidate_policy) p1.(winner) in
  let p2 :=
    set_policy (CopyParametersFrom p1.(policy) cw.(parameters) cw.(times)) p1 in
  let t' :=
    mkTimers t.(nominal_time) t.(model_derivative_time)
      t.(cost_derivative_time) t.(rollouts_time) t.(gradient_time)
      (add_micros t.(policy_update_time)
         (E.(stage_micros) PolicyUpdateStage 0)) in
  set_compute_time t' p2.

Definition OptimizePolicy (h : Z) (p : GradientPlanner)
  : Exit * GradientPlanner :=
  let '(c_prev, t, p1) := nominal_stage h p in
  match
    improvement_loop (Z.to_nat p1.(settings).(max_rollout)) h 0
      c_prev c_prev t p1
  with
  | LoopDone c_best t' p2 => (Completed, publish c_prev c_best t' p2)
  | LoopFailed i t' p2 => (GradientFailure i t', p2)
  end.

(** [GradientPlanner::BestTrajectory]. *)
Definition BestTrajectory (p : GradientPlanner) : Trajectory :=
  get p.(trajectory) p.(winner).

End Planner.

(** ** Knot times *)

(** The value of [nominal_time] in round [j] of the loop of
    [ResamplePolicy]: [t0] with [shift] added [j] times, each addition
    rounded to [double]. *)
Fixpoint knot_time (t0 shift : float) (j : nat) : float :=
  match j with
  | O => t0
  | S j' => knot_time (t0 + shift)%float shift j'
  end.

(** ** The resampled knot times *)

(** [PowerSequence] with exponent 1.0: the power law is the identity,
    and the sequence written is the one regenerated from the first end
    point [t1] and the step, [t1], [t1 + s], [t1 + s + s], ..., each
    sum rounded to [double]. (A power law through two equal end points
    is not defined: the end points are taken distinct, in the range
    [0 <= t1 < t2 < 2^36].) *)
Definition PowerSequence_linear (E : Collaborators) : Prop :=
  forall ts s t1 t2 n (j : nat),
    (0 <=? t1)%float = true -> (t1 <? t2)%float = true ->
    (t2 <? 68719476736)%float = true ->
    Z.of_nat j < n -> (j < length ts)%nat ->
    get (E.(PowerSequence) ts s t1 t2 1 n) (Z.of_nat j) = knot_time t1 s j.

(** The value of the finite double with mantissa [m] and exponent [e],
    in units of [2^-1074]. *)
Definition scaled (m : positive) (e : Z) : Z := Z.pos m * 2 ^ (e + 1074).

(** ** A small concrete instance

    One control ([nu = 1]) held constant over the horizon; the cost of a
    policy is the squared distance of its knots from the target 3. The
    gradient solver returns the steepest-descent direction and reports
    failure (status 1) when the first knot is negative or above a given
    bound. The instance gives the theorems below inputs on which every
    definition evaluates. *)
Module Toy.

Definition sum_floats (l : list float) : float :=
  fold_left (fun a x => (a + x)%float) l 0%float.

Definition cost (params : list float) : float :=
  sum_floats (map (fun x => ((x - 3) * (x - 3))%float) params).

(** [exp] by argument halving and a Taylor polynomial. *)
Fixpoint taylor_exp (n : nat) (x term acc : float) (i : float) : float :=
  match n with
  | O => acc
  | S n' =>
      let term' := (term * x / i)%float in
      taylor_exp n' x term' (acc + term')%float (i + 1)%float
  end.

Fixpoint square_n (n : nat) (y : float) : float :=
  match n with
  | O => y
  | S n' => square_n n' (y * y)%float
  end.

Definition exp (x : float) : float :=
  square_n 8 (taylor_exp 20 (x / 256)%float 1 1 1).

(** [log] by Newton's iteration on [exp]. *)
Fixpoint newton_log (n : nat) (x y : float) : float :=
  match n with
  | O => y
  | S n' =>
      let e := exp y in
      newton_log n' x (y + 2 * ((x - e) / (x + e)))%float
  end.

Definition log (x : float) : float := newton_log 40 x 0.

Definition rollout (worker_bias : Z -> float) (q : Policy)
    (st : list float) (t : float) (mc : list float) (h worker : Z)
  : Trajectory :=
  let ps := take (Z.to_nat q.(num_parameters)) q.(parameters) in
  mkTrajectory h (cost ps + worker_bias worker)%float st ps [] q.(times) [].

Definition gradient (fail_above : float) (q : Policy) (md cd : unit) (h : Z)
  : Z * list float * float :=
  let ps := take (Z.to_nat q.(num_parameters)) q.(parameters) in
  let dir := map (fun x => (3 - x)%float) ps in
  ((if (get ps 0 <? 0)%float || (fail_above <? get ps 0)%float then 1 else 0),
   dir, (- sum_floats (map (fun d => (2 * d * d)%float) dir))%float).

Definition micros (s : Stage) (i : Z) : Z :=
  match s with
  | NominalStage => 100
  | ModelDerivativeStage => 200 + i
  | CostDerivativeStage => 300 + i
  | GradientStage => 400 + i
  | RolloutsStage => 500 + i
  | PolicyUpdateStage => 600
  end.

(** The collaborators, for a cost that worker [w] perturbs by
    [worker_bias w], a pool that runs task [j] of iteration [i] on
    worker [worker i j], and a gradient solver that fails above
    [fail_above]. *)
Definition collaborators (worker_bias : Z -> float) (worker : Z -> Z -> Z)
    (fail_above : float) : Collaborators :=
  {| kMaxTrajectory := 4;
     nu := 1;
     timestep := 0.1;
     ModelDerivatives := unit;
     CostDerivatives := unit;
     Action := fun q _ => [get q.(parameters) 0];
     Rollout := rollout worker_bias;
     model_derivative_Compute := fun _ _ _ => tt;
     cost_derivative_Compute := fun _ _ _ => tt;
     gradient_Compute := gradient fail_above;
     mapping_Compute := fun _ _ _ _ _ _ => [];
     mju_mulMatTVec := fun _ vec _ nc => take (Z.to_nat nc) vec;
     PowerSequence := fun t _ _ _ _ _ => t;
     mju_exp := exp;
     mju_log := log;
     stage_micros := micros;
     WorkerId := worker |}.

(** A single-worker pool, a simulator that ignores the buffer, and a
    solver that fails on a negative knot only. *)
Definition E : Collaborators :=
  collaborators (fun _ => 0%float) (fun _ _ => 0) infinity.

(** The same with a solver that also fails once the first knot is
    above 2. *)
Definition E_fail : Collaborators :=
  collaborators (fun _ => 0%float) (fun _ _ => 0) 2.


Definition zeros (n : nat) : list float := replicate n 0%float.

Definition blank_policy : Policy :=
  mkPolicy 0 0 0 (zeros 4) (zeros 4) (zeros 4) (zeros 4).

Definition blank_trajectory : Trajectory :=
  mkTrajectory 0 0 [] [] [] [] [].

Definition stale_timers : Timers := mkTimers 7 7 7 7 7 7.

(** A planner whose nominal policy holds [knots] knots of value [x0],
    with [n] candidates, [iterations] improvement iterations, at time
    [t0]. *)
Definition planner (x0 t0 : float) (knots n iterations : Z)
  : GradientPlanner :=
  {| state := [0%float];
     mocap := [];
     time := t0;
     policy :=
       mkPolicy knots knots 0 (replicate 4 x0) (zeros 4) (zeros 4) (zeros 4);
     candidate_policy := replicate 4 blank_policy;
     trajectory := replicate 4 blank_trajectory;
     improvement_step := zeros 4;
     parameters_scratch := zeros 4;
     times_scratch := zeros 4;
     num_trajectory := n;
     winner := 0;
     step_size := 0;
     expected := 0;
     improvement := 0;
     surprise := 0;
     gradient_dV0 := 0;
     timestep_power := 1;
     settings := mkSettings iterations 0.01 1.0e-6 0;
     compute_time := stale_timers |}.

(** [p] with the candidates' trajectories replaced by trajectories of
    total returns [cs]. *)
Definition returns (cs : list float) (p : GradientPlanner)
  : GradientPlanner :=
  set_trajectory (map (fun c => mkTrajectory 0 c [] [] [] [] []) cs) p.



(** [PowerSequence] for exponent 1.0: the sequence regenerated from its
    first end point and the step. *)
Definition linear_sequence (ts : list float) (s t1 : float) (n : Z)
  : list float :=
  map (knot_time t1 s) (seq 0 (Z.to_nat n)) ++ drop (Z.to_nat n) ts.

(** [E] with that [PowerSequence]. *)
Definition E_linear : Collaborators :=
  {| kMaxTrajectory := E.(kMaxTrajectory);
     nu := E.(nu);
     timestep := E.(timestep);
     ModelDerivatives := E.(ModelDerivatives);
     CostDerivatives := E.(CostDerivatives);
     Action := E.(Action);
     Rollout := E.(Rollout);
     model_derivative_Compute := E.(model_derivative_Compute);
     cost_derivative_Compute := E.(cost_derivative_Compute);
     gradient_Compute := E.(gradient_Compute);
     mapping_Compute := E.(mapping_Compute);
     mju_mulMatTVec := E.(mju_mulMatTVec);
     PowerSequence := fun ts s t1 _ _ n => linear_sequence ts s t1 n;
     mju_exp := E.(mju_exp);
     mju_log := E.(mju_log);
     stage_micros := E.(stage_micros);
     WorkerId := E.(WorkerId) |}.




End Toy.


(** ** The rollout barrier of [GradientPlanner::Rollouts] *)
Module Barrier.

(** Modelled from the spec: the [ThreadPool] of mjpc/threadpool.cc, which
    is not among the sources. The spec gives it "a fixed-size worker
    pool" with [Schedule(task)], [WaitCount(n)], [GetCount()],
    [ResetCount()], [NumThreads()] and a completion count: scheduled
    tasks wait in a queue, an idle worker takes the oldest one, and a
    worker that finishes a task adds one to the count. A task is named
    by the candidate index it was scheduled for. *)
Record Pool := mkPool {
  queue : list nat;
  running : list (option nat);
  count : Z;
}.

Definition GetCount (pl : Pool) : Z := pl.(count).

Definition Schedule (task : nat) (pl : Pool) : Pool :=
  mkPool (pl.(queue) ++ [task]) pl.(running) pl.(count).

(** [WaitCount(value)] returns once the count has reached [value]. *)
Definition WaitCount_ready (value : Z) (pl : Pool) : bool :=
  value <=? pl.(count).

Definition ResetCount (pl : Pool) : Pool :=
  mkPool pl.(queue) pl.(running) 0.

Definition NumThreads (pl : Pool) : nat := length pl.(running).

(** Where the thread that called [Rollouts] stands: before
    [pool.GetCount()], in the scheduling loop with loop variable [next],
    inside [pool.WaitCount(count_before + num_trajectory)], before
    [pool.ResetCount()], or back in [OptimizePolicy]. *)
Inductive Caller :=
| Entering
| Scheduling (count_before : Z) (next : nat)
| Waiting (count_before : Z)
| Resetting
| Returned.

(** The caller, the pool, the planner the tasks write to, and a record
    of the completions so far, latest first, each with the worker that
    ran it. *)
Record Config := mkConfig {
  caller : Caller;
  pool : Pool;
  planner : GradientPlanner;
  completed : list (nat * nat);
}.

(** One move of the system: the caller's next statement, an idle worker
    taking the oldest queued task, or a worker finishing its task. *)
Inductive Choice :=
| CallerStep
| WorkerStart (w : nat)
| WorkerFinish (w : nat).

Section Rollouts.
Context (E : Collaborators) (h : Z).

(** [exec ch cfg] is the configuration after move [ch], or [None] when
    the move is not enabled ([WaitCount] keeps the caller blocked while
    the count is short). The effect of a task on the planner is
    [rollout_task], which touches the task's own slots only, and takes
    place when the task finishes. *)
Definition exec (ch : Choice) (cfg : Config) : option Config :=
  let n := Z.to_nat cfg.(planner).(num_trajectory) in
  match ch with
  | CallerStep =>
      match cfg.(caller) with
      | Entering =>
          Some (mkConfig (Scheduling (GetCount cfg.(pool)) 0) cfg.(pool)
                  cfg.(planner) cfg.(completed))
      | Scheduling c j =>
          if (j <? n)%nat
          then Some (mkConfig (Scheduling c (S j)) (Schedule j cfg.(pool))
                       cfg.(planner) cfg.(completed))
          else Some (mkConfig (Waiting c) cfg.(pool) cfg.(planner)
                       cfg.(completed))
      | Waiting c =>
          if WaitCount_ready (c + cfg.(planner).(num_trajectory)) cfg.(pool)
          then Some (mkConfig Resetting cfg.(pool) cfg.(planner)
                       cfg.(completed))
          else None
      | Resetting =>
          Some (mkConfig Returned (ResetCount cfg.(pool)) cfg.(planner)
                  cfg.(completed))
      | Returned => None
      end
  | WorkerStart w =>
      match cfg.(pool).(queue), cfg.(pool).(running) !! w with
      | j :: q, Some None =>
          Some (mkConfig cfg.(caller)
                  (mkPool q (<[w := Some j]> cfg.(pool).(running))
                     cfg.(pool).(count))
                  cfg.(planner) cfg.(completed))
      | _, _ => None
      end
  | WorkerFinish w =>
      match cfg.(pool).(running) !! w with
      | Some (Some j) =>
          Some (mkConfig cfg.(caller)
                  (mkPool cfg.(pool).(queue)
                     (<[w := None]> cfg.(pool).(running))
                     (cfg.(pool).(count) + 1))
                  (rollout_task E h (Z.of_nat w) j cfg.(planner))
                  ((j, w) :: cfg.(completed)))
      | _ => None
      end
  end.

(** An execution: the moves of [sched], each enabled when it is taken. *)
Fixpoint run (sched : list Choice) (cfg : Config) : option Config :=
  match sched with
  | [] => Some cfg
  | ch :: rest =>
      match exec ch cfg with
      | Some cfg' => run rest cfg'
      | None => None
      end
  end.

(** [Rollouts] is entered with a pool of [workers] idle workers, nothing
    queued, and any count. *)
Definition initial (workers : nat) (count0 : Z) (p : GradientPlanner)
  : Config :=
  mkConfig Entering (mkPool [] (replicate workers None) count0) p [].

(** The worker that ran task [j], by the record of completions. *)
Definition worker_of (done : list (nat * nat)) (j : Z) : Z :=
  match list_find (fun d => d.1 = Z.to_nat j) done with
  | Some (_, (_, w)) => Z.of_nat w
  | None => 0
  end.

(** The tasks the workers are running. *)
Definition in_flight (r : list (option nat)) : list nat := omap id r.

(** How many moves are left before the caller has returned. *)
Definition remaining (cfg : Config) : nat :=
  let n := Z.to_nat cfg.(planner).(num_trajectory) in
  (match cfg.(caller) with
   | Entering => 3 * n + 4
   | Scheduling _ j => 3 * (n - j) + 3
   | Waiting _ => 2
   | Resetting => 1
   | Returned => 0
   end
   + 2 * length cfg.(pool).(queue)
   + length (in_flight cfg.(pool).(running)))%nat.

(** How many tasks the caller has scheduled. *)
Definition scheduled (cfg : Config) : nat :=
  match cfg.(caller) with
  | Entering => 0
  | Scheduling _ j => j
  | Waiting _ | Resetting | Returned =>
      Z.to_nat cfg.(planner).(num_trajectory)
  end.

(** The effect of a recorded completion on the planner. *)
Definition complete (d : nat * nat) (q : GradientPlanner) : GradientPlanner :=
  rollout_task E h (Z.of_nat d.2) d.1 q.

(** What holds of every configuration an execution from
    [initial workers count0 p0] reaches: the planner is [p0] with the
    completed tasks applied; every scheduled task is completed, running
    or queued, and is so once; the count is the count on entry plus the
    number of completions until it is reset; the caller is past the
    barrier only if every task has completed. *)
Definition invariant (workers : nat) (count0 : Z) (p0 : GradientPlanner)
    (cfg : Config) : Prop :=
  let n := Z.to_nat p0.(num_trajectory) in
  cfg.(planner).(num_trajectory) = p0.(num_trajectory)
  /\ cfg.(planner) = foldr complete p0 cfg.(completed)
  /\ length cfg.(pool).(running) = workers
  /\ Forall (fun d => (d.2 < workers)%nat) cfg.(completed)
  /\ cfg.(completed).*1 ++ in_flight cfg.(pool).(running)
       ++ cfg.(pool).(queue) ≡ₚ seq 0 (scheduled cfg)
  /\ match cfg.(caller) with
     | Entering => cfg.(pool).(count) = count0
     | Scheduling c j =>
         c = count0 /\ (j <= n)%nat
         /\ cfg.(pool).(count) = count0 + Z.of_nat (length cfg.(completed))
     | Waiting c =>
         c = count0
         /\ cfg.(pool).(count) = count0 + Z.of_nat (length cfg.(completed))
     | Resetting => (n <= length cfg.(completed))%nat
     | Returned =>
         cfg.(pool).(count) = 0 /\ (n <= length cfg.(completed))%nat
     end.

End Rollouts.

End Barrier.

(** ** The zero-step candidate along a call *)


(** ** What the zero step relies on *)

(** Two doubles that are the same number: identical, or both a zero
    (of either sign). *)
Definition same_number (a b : float) : Prop :=
  a = b \/ ((a =? 0)%float = true /\ (b =? 0)%float = true).

(** Two policies that describe the same spline: the same counts,
    representation and knot times, and parameters that are the same
    numbers. The update direction [parameter_update] and the
    per-timestep direction [k] are not part of the spline. *)
Definition same_spline (q q' : Policy) : Prop :=
  q.(num_parameters) = q'.(num_parameters)
  /\ q.(num_spline_points) = q'.(num_spline_points)
  /\ q.(representation) = q'.(representation)
  /\ q.(times) = q'.(times)
  /\ Forall2 same_number q.(parameters) q'.(parameters).





(** ** The task's cost *)
Module TaskCost.

(** Division that records a zero divisor instead of producing an
    infinity or a NaN. *)
Definition checked_div (a b : float) : option float :=
  if (b =? 0)%float then None else Some (a / b)%float.

Inductive NormType :=
| kQuadratic
| kOtherNorm (id : Z).

(** The members of [Task] the cost reads. *)
Record Task := mkTask {
  risk : float;
  num_norms : Z;
  dim_norm_residual : list Z;
  norm : list NormType;
  weight : list float;
}.

(** MuJoCo's [mju_dot] and [mju_sum], summing from the left. *)
Definition mju_dot (a b : list float) : float :=
  fold_left (fun acc xy => (acc + xy.1 * xy.2)%float) (zip a b) 0%float.

Definition mju_sum (a : list float) : float :=
  fold_left (fun acc x => (acc + x)%float) a 0%float.

Section Cost.
Context (mju_exp : float -> float) (other_norm : Z -> list float -> float).

(** Modelled from the spec: the norm of one group, of norm.cc, which is
    not among the sources; the quadratic norm is [0.5 * r . r], as the
    test of [Task] computes it. *)
Definition Norm (kind : NormType) (r : list float) : float :=
  match kind with
  | kQuadratic => (0.5 * mju_dot r r)%float
  | kOtherNorm id => other_norm id r
  end.

(** Modelled from the spec: [Task::CostTerms] of task.cc, which is not
    among the sources: "per-norm-group scalar costs", each the group's
    weight times the norm of the group's slice of the residual. *)
Fixpoint cost_terms (kinds : list NormType) (weights : list float)
    (dims : list Z) (r : list float) : list float :=
  match kinds, weights, dims with
  | kind :: kinds', w :: weights', d :: dims' =>
      (w * Norm kind (take (Z.to_nat d) r))%float
      :: cost_terms kinds' weights' dims' (drop (Z.to_nat d) r)
  | _, _, _ => []
  end.

Definition CostTerms (task : Task) (r : list float) : list float :=
  cost_terms (take (Z.to_nat task.(num_norms)) task.(norm)) task.(weight)
    task.(dim_norm_residual) r.

(** Modelled from the spec: [Task::CostValue] of task.cc, which is not
    among the sources: "the risk transform is (exp(risk * sum) - 1) /
    risk for risk <> 0, and reduces to sum when risk == 0 ...; the
    degenerate branch must be explicit". The result is [None] if a
    division by zero is carried out. *)
Definition CostValue (task : Task) (r : list float) : option float :=
  let cost := mju_sum (CostTerms task r) in
  if (task.(risk) =? 0)%float then Some cost
  else checked_div (mju_exp (task.(risk) * cost) - 1)%float task.(risk).

End Cost.

End TaskCost.

(** ** Members the improvement loop does not write *)

(** [q] has the members of [p] that lines 187-308 never assign: the
    state snapshot, the nominal policy, the candidate count, the
    settings, the stored timers and the scratch vectors. *)
Definition same_inputs (p q : GradientPlanner) : Prop :=
  q.(state) = p.(state) /\ q.(mocap) = p.(mocap) /\ q.(time) = p.(time)
  /\ q.(policy) = p.(policy) /\ q.(num_trajectory) = p.(num_trajectory)
  /\ q.(timestep_power) = p.(timestep_power)
  /\ q.(settings) = p.(settings) /\ q.(compute_time) = p.(compute_time)
  /\ q.(parameters_scratch) = p.(parameters_scratch)
  /\ q.(times_scratch) = p.(times_scratch)
  /\ length q.(trajectory) = length p.(trajectory)
  /\ length q.(candidate_policy) = length p.(candidate_policy).

(** ** Two calls with the same inputs *)

(** The collaborators [E] behind a pool with a single worker, on which
    every task runs ([WorkerId() = 0]), and with a clock whose
    stopwatches read [micros]. *)
Definition single_worker (E : Collaborators) (micros : Stage -> Z -> Z)
  : Collaborators :=
  {| kMaxTrajectory := E.(kMaxTrajectory);
     nu := E.(nu);
     timestep := E.(timestep);
     ModelDerivatives := E.(ModelDerivatives);
     CostDerivatives := E.(CostDerivatives);
     Action := E.(Action);
     Rollout := E.(Rollout);
     model_derivative_Compute := E.(model_derivative_Compute);
     cost_derivative_Compute := E.(cost_derivative_Compute);
     gradient_Compute := E.(gradient_Compute);
     mapping_Compute := E.(mapping_Compute);
     mju_mulMatTVec := E.(mju_mulMatTVec);
     PowerSequence := E.(PowerSequence);
     mju_exp := E.(mju_exp);
     mju_log := E.(mju_log);
     stage_micros := micros;
     WorkerId := fun _ _ => 0 |}.

(** Two planners that are handed the same inputs: the same state
    snapshot and time, the same nominal policy, candidate count and
    settings, and arrays of the same capacity. Whatever an earlier call
    left in the candidate slots, the trajectories, the step sizes, the
    scratch vectors, the diagnostics and the timers may differ. *)
Definition same_call_inputs (p q : GradientPlanner) : Prop :=
  q.(state) = p.(state) /\ q.(mocap) = p.(mocap) /\ q.(time) = p.(time)
  /\ q.(policy) = p.(policy) /\ q.(num_trajectory) = p.(num_trajectory)
  /\ q.(timestep_power) = p.(timestep_power)
  /\ q.(settings) = p.(settings)
  /\ length q.(candidate_policy) = length p.(candidate_policy)
  /\ length q.(trajectory) = length p.(trajectory)
  /\ length q.(improvement_step) = length p.(improvement_step)
  /\ length q.(parameters_scratch) = length p.(parameters_scratch)
  /\ length q.(times_scratch) = length p.(times_scratch).

(** Two arrays of the same capacity with the same first [m] entries. *)
Definition agree {A} (m : nat) (l1 l2 : list A) : Prop :=
  length l1 = length l2 /\ take m l1 = take m l2.

(** Two planners with the same inputs whose first [m] candidates and
    trajectories are the same. *)
Definition agree_candidates (m : nat) (p q : GradientPlanner) : Prop :=
  same_call_inputs p q
  /\ agree m p.(candidate_policy) q.(candidate_policy)
  /\ agree m p.(trajectory) q.(trajectory).

(** Two planners after an iteration of the improvement loop on the same
    inputs: the same first [num_trajectory] candidates and trajectories
    and the same winner, one of the candidates. *)
Definition synced (p q : GradientPlanner) : Prop :=
  agree_candidates (Z.to_nat p.(num_trajectory)) p q
  /\ q.(winner) = p.(winner)
  /\ 0 <= p.(winner) < p.(num_trajectory).

(** ** [GradientPlanner::Traces] *)

(** The line geometry that [mjv_initGeom] (type [mjGEOM_LINE], zero
    size, position and frame, white) followed by [mjv_makeConnector]
    sets up: its width and the two points it connects. *)
Record Connector := mkConnector {
  connector_width : float;
  from_x : float;
  from_y : float;
  from_z : float;
  to_x : float;
  to_y : float;
  to_z : float;
}.

#[global] Instance Connector_inhabited : Inhabited Connector :=
  populate (mkConnector 0 0 0 0 0 0 0).

(** [mjvScene]: the geometry buffer [geoms], the number [ngeom] of
    geometries in use and the capacity [maxgeom]. *)
Record Scene := mkScene {
  ngeom : Z;
  maxgeom : Z;
  geoms : list Connector;
}.

(** The connector from trace point [i] to trace point [i + 1] of a
    trajectory ([trace] holds three coordinates per point). *)
Definition trace_segment (width : float) (tr : Trajectory) (i : Z)
  : Connector :=
  mkConnector width
    (get tr.(trace) (3 * i)) (get tr.(trace) (3 * i + 1))
    (get tr.(trace) (3 * i + 2))
    (get tr.(trace) (3 * (i + 1))) (get tr.(trace) (3 * (i + 1) + 1))
    (get tr.(trace) (3 * (i + 1) + 2)).

(** The body of the inner loop: [if (scn->ngeom >= scn->maxgeom)
    continue;], else the geometry is written at [geoms[ngeom]] and
    [ngeom] incremented. *)
Definition add_segment (c : Connector) (scn : Scene) : Scene :=
  if scn.(maxgeom) <=? scn.(ngeom) then scn
  else mkScene (scn.(ngeom) + 1) scn.(maxgeom)
         (put scn.(geoms) scn.(ngeom) c).

(** The inner loop [for (int i = 0; i < best->horizon - 1; i++)]: [n]
    rounds are left, [i] is the loop variable. *)
Fixpoint trace_points (n : nat) (i : Z) (width : float) (tr : Trajectory)
    (scn : Scene) : Scene :=
  match n with
  | O => scn
  | S n' =>
      trace_points n' (i + 1) width tr
        (add_segment (trace_segment width tr i) scn)
  end.

(** [Traces(scn)]; [width] is the number [agent_sample_width] of the
    model, 0.01 by default. *)
Definition Traces (width : float) (p : GradientPlanner) (scn : Scene)
  : Scene :=
  let best := BestTrajectory p in
  fold_left
    (fun s k =>
       trace_points (Z.to_nat (best.(horizon) - 1)) 0 width
         (p.(trajectory) !!! k) s)
    (seq 0 (Z.to_nat p.(num_trajectory))) scn.

(** ** [Initialize], [Allocate] and [Reset] *)

(** What the three set-up functions use and do not define: the sizes of
    the model ([nq], [nv], [na], [nmocap]), the constant
    [kMaxTrajectoryHorizon], the number [gradient_num_trajectory] of the
    model as [GetNumberOrDefault(32, model, ...)] returns it, and what
    the [Allocate] and [Reset] functions of the trajectories, of the
    policies and of the gradient solver leave in the members the planner
    reads ([trajectory_Allocate] stands for [Initialize] followed by
    [Allocate]). *)
Record Lifecycle := mkLifecycle {
  nq : Z;
  nv : Z;
  na : Z;
  nmocap : Z;
  kMaxTrajectoryHorizon : Z;
  gradient_num_trajectory : Z;
  trajectory_Allocate : Trajectory -> Trajectory;
  trajectory_Reset : Z -> Trajectory -> Trajectory;
  policy_Allocate : Policy -> Policy;
  policy_Reset : Z -> Policy -> Policy;
  gradient_Allocate_dV0 : float -> float;
  gradient_Reset_dV0 : Z -> float -> float;
}.

(** [std::vector<double>::resize(n)] for [n >= 0]: the first [n] entries
    stay, new entries are 0.0. *)
Definition resize (l : list float) (n : Z) : list float :=
  take (Z.to_nat n) l ++ replicate (Z.to_nat n - length l) 0%float.

(** [std::fill(v.begin(), v.end(), 0.0)]. *)
Definition fill_zero (l : list float) : list float :=
  replicate (length l) 0%float.

(** [for (int i = 0; i < n; i++) slot[i].f();]. *)
Definition for_slots {A} `{Inhabited A} (n : Z) (f : A -> A) (l : list A)
  : list A :=
  fold_left (fun xs i => <[i := f (xs !!! i)]> xs) (seq 0 (Z.to_nat n)) l.

Section SetUp.
Context (E : Collaborators) (L : Lifecycle).

(** [Initialize], lines 35-60: the members of the planner it sets. The
    dimensions [dim_state], ..., [dim_max] it also computes are handed
    to the collaborators only. *)
Definition Initialize (p : GradientPlanner) : GradientPlanner :=
  mkPlanner p.(state) p.(mocap) p.(time) p.(policy) p.(candidate_policy)
    p.(trajectory) p.(improvement_step) p.(parameters_scratch)
    p.(times_scratch) L.(gradient_num_trajectory) p.(winner) p.(step_size)
    p.(expected) p.(improvement) p.(surprise) p.(gradient_dV0)
    1.0 p.(settings) p.(compute_time).

(** [Allocate], lines 63-100. *)
Definition Allocate (p : GradientPlanner) : GradientPlanner :=
  mkPlanner
    (resize p.(state) (L.(nq) + L.(nv) + L.(na)))
    (resize p.(mocap) (7 * L.(nmocap)))
    p.(time)
    (L.(policy_Allocate) p.(policy))
    (for_slots E.(kMaxTrajectory) L.(policy_Allocate) p.(candidate_policy))
    (for_slots E.(kMaxTrajectory) L.(trajectory_Allocate) p.(trajectory))
    p.(improvement_step)
    (resize p.(parameters_scratch) (E.(nu) * L.(kMaxTrajectoryHorizon)))
    (resize p.(times_scratch) L.(kMaxTrajectoryHorizon))
    p.(num_trajectory) p.(winner) p.(step_size)
    p.(expected) p.(improvement) p.(surprise)
    (L.(gradient_Allocate_dV0) p.(gradient_dV0))
    p.(timestep_power) p.(settings) p.(compute_time).

(** [Reset(horizon)], lines 103-139. *)
Definition Reset (h : Z) (p : GradientPlanner) : GradientPlanner :=
  mkPlanner
    (fill_zero p.(state))
    (fill_zero p.(mocap))
    0
    (L.(policy_Reset) h p.(policy))
    (for_slots E.(kMaxTrajectory) (L.(policy_Reset) h) p.(candidate_policy))
    (for_slots E.(kMaxTrajectory) (L.(trajectory_Reset) h) p.(trajectory))
    p.(improvement_step)
    (fill_zero p.(parameters_scratch))
    (fill_zero p.(times_scratch))
    p.(num_trajectory) p.(winner) 0 0 0 0
    (L.(gradient_Reset_dV0) h p.(gradient_dV0))
    p.(timestep_power) p.(settings) p.(compute_time).

(** The planner's vectors have the sizes [Allocate] gives them. *)
Definition allocated (p : GradientPlanner) : Prop :=
  length p.(state) = Z.to_nat (L.(nq) + L.(nv) + L.(na))
  /\ length p.(mocap) = Z.to_nat (7 * L.(nmocap))
  /\ length p.(parameters_scratch)
     = Z.to_nat (E.(nu) * L.(kMaxTrajectoryHorizon))
  /\ length p.(times_scratch) = Z.to_nat L.(kMaxTrajectoryHorizon).

End SetUp.

(** ** [GradientPlanner::ActionFromPolicy] *)

(** [ActionFromPolicy(action, state, time)], lines 353-357: the action
    of the nominal policy. The policy's [Action] does not read the
    state it is handed ([ResamplePolicy] hands it [nullptr]). *)
Definition ActionFromPolicy (E : Collaborators) (p : GradientPlanner)
    (st : list float) (t : float) : list float :=
  E.(Action) p.(policy) t.

(** * Verification *)

(** ** The order of binary64

    [<?] and [<=?] on [float] are specified by [SFcompare] on the
    decoded floats ([ltb_spec], [leb_spec]); the facts below are read
    off that function. None needs its arguments to be numbers: with a
    NaN the hypotheses are false. *)

Ltac float_cmp_cases :=
  repeat match goal with
  | H : context [ Pos.compare_cont Eq ?a ?b ] |- _ =>
      change (Pos.compare_cont Eq a b) with (Pos.compare a b) in H
  | |- context [ Pos.compare_cont Eq ?a ?b ] =>
      change (Pos.compare_cont Eq a b) with (Pos.compare a b)
  end;
  repeat match goal with
  | H : context [ Z.compare ?a ?b ] |- _ =>
      destruct (Z.compare_spec a b); simpl in H
  | |- context [ Z.compare ?a ?b ] =>
      destruct (Z.compare_spec a b); simpl
  | H : context [ Pos.compare ?a ?b ] |- _ =>
      destruct (Pos.compare_spec a b); simpl in H
  | |- context [ Pos.compare ?a ?b ] =>
      destruct (Pos.compare_spec a b); simpl
  end.

Ltac float_spec :=
  unfold PrimFloat.is_nan in *;
  rewrite ?FloatAxioms.ltb_spec, ?FloatAxioms.leb_spec,
    ?FloatAxioms.eqb_spec in *;
  unfold SFltb, SFleb, SFeqb in *.

Lemma SFcompare_Lt_trans a b c :
  SFcompare a b = Some Lt -> SFcompare b c = Some Lt ->
  SFcompare a c = Some Lt.
Proof.
  destruct a as [[]|[]| |[] ma ea], b as [[]|[]| |[] mb eb],
    c as [[]|[]| |[] mc ec];
    simpl; try congruence; intros H1 H2; f_equal; float_cmp_cases;
    try congruence; try lia.
Qed.

Lemma SFcompare_Eq_Lt_trans a b c :
  SFcompare a b = Some Eq -> SFcompare b c = Some Lt ->
  SFcompare a c = Some Lt.
Proof.
  destruct a as [[]|[]| |[] ma ea], b as [[]|[]| |[] mb eb],
    c as [[]|[]| |[] mc ec];
    simpl; try congruence; intros H1 H2; f_equal; float_cmp_cases;
    try congruence; try lia.
Qed.

Lemma SFcompare_Lt_Eq_trans a b c :
  SFcompare a b = Some Lt -> SFcompare b c = Some Eq ->
  SFcompare a c = Some Lt.
Proof.
  destruct a as [[]|[]| |[] ma ea], b as [[]|[]| |[] mb eb],
    c as [[]|[]| |[] mc ec];
    simpl; try congruence; intros H1 H2; f_equal; float_cmp_cases;
    try congruence; try lia.
Qed.

Lemma SFcompare_Lt_swap a b :
  SFcompare a b = Some Lt -> SFcompare b a = Some Gt.
Proof.
  destruct a as [[]|[]| |[] ma ea], b as [[]|[]| |[] mb eb];
    simpl; try congruence; intros H1; f_equal; float_cmp_cases;
    try congruence; try lia.
Qed.

Lemma SFcompare_refl a : a <> S754_nan -> SFcompare a a = Some Eq.
Proof.
  destruct a as [[]|[]| |[] ma ea]; simpl; try congruence; intros _;
    rewrite Z.compare_refl, Pos.compare_cont_refl; reflexivity.
Qed.

Lemma float_ltb_trans (x y z : float) :
  (x <? y)%float = true -> (y <? z)%float = true -> (x <? z)%float = true.
Proof.
  float_spec. intros H1 H2.
  destruct (SFcompare (Prim2SF x) (Prim2SF y)) as [[]|] eqn:E1; try discriminate.
  destruct (SFcompare (Prim2SF y) (Prim2SF z)) as [[]|] eqn:E2; try discriminate.
  rewrite (SFcompare_Lt_trans _ _ _ E1 E2). reflexivity.
Qed.

Lemma float_ltb_irrefl (x : float) : (x <? x)%float = false.
Proof.
  float_spec.
  destruct (SFcompare (Prim2SF x) (Prim2SF x)) as [[]|] eqn:E1; try reflexivity.
  pose proof (SFcompare_Lt_swap _ _ E1). congruence.
Qed.


Lemma float_ltb_not_leb (x y : float) :
  (x <? y)%float = true -> (y <=? x)%float = false.
Proof.
  float_spec. intros H.
  destruct (SFcompare (Prim2SF x) (Prim2SF y)) as [[]|] eqn:E1; try discriminate.
  rewrite (SFcompare_Lt_swap _ _ E1). reflexivity.
Qed.

Lemma float_ltb_asym (x y : float) :
  (x <? y)%float = true -> (y <? x)%float = false.
Proof.
  float_spec. intros H.
  destruct (SFcompare (Prim2SF x) (Prim2SF y)) as [[]|] eqn:E1; try discriminate.
  rewrite (SFcompare_Lt_swap _ _ E1). reflexivity.
Qed.

Lemma float_leb_ltb_trans (x y z : float) :
  (x <=? y)%float = true -> (y <? z)%float = true -> (x <? z)%float = true.
Proof.
  float_spec. intros H1 H2.
  destruct (SFcompare (Prim2SF y) (Prim2SF z)) as [[]|] eqn:E2; try discriminate.
  destruct (SFcompare (Prim2SF x) (Prim2SF y)) as [[]|] eqn:E1; try discriminate.
  - rewrite (SFcompare_Eq_Lt_trans _ _ _ E1 E2). reflexivity.
  - rewrite (SFcompare_Lt_trans _ _ _ E1 E2). reflexivity.
Qed.

Lemma float_ltb_leb_trans (x y z : float) :
  (x <? y)%float = true -> (y <=? z)%float = true -> (x <? z)%float = true.
Proof.
  float_spec. intros H1 H2.
  destruct (SFcompare (Prim2SF x) (Prim2SF y)) as [[]|] eqn:E1; try discriminate.
  destruct (SFcompare (Prim2SF y) (Prim2SF z)) as [[]|] eqn:E2; try discriminate.
  - rewrite (SFcompare_Lt_Eq_trans _ _ _ E1 E2). reflexivity.
  - rewrite (SFcompare_Lt_trans _ _ _ E1 E2). reflexivity.
Qed.

Lemma float_leb_refl (x : float) :
  PrimFloat.is_nan x = false -> (x <=? x)%float = true.
Proof.
  float_spec.
  destruct (SFcompare (Prim2SF x) (Prim2SF x)) as [[]|]; cbv [negb]; intros; congruence.
Qed.

Lemma float_ltb_not_nan (x y : float) :
  (x <? y)%float = true ->
  PrimFloat.is_nan x = false /\ PrimFloat.is_nan y = false.
Proof.
  float_spec. intros H.
  destruct (SFcompare (Prim2SF x) (Prim2SF y)) as [[]|] eqn:E1; try discriminate.
  assert (Prim2SF x <> S754_nan) by (intros Hn; rewrite Hn in E1; discriminate).
  assert (Prim2SF y <> S754_nan).
  { intros Hn; rewrite Hn in E1. destruct (Prim2SF x); discriminate. }
  rewrite !SFcompare_refl by assumption. auto.
Qed.

(** ** Arrays *)

Lemma get_nat {A} `{Inhabited A} (l : list A) (j : nat) :
  get l (Z.of_nat j) = l !!! j.
Proof.
  unfold get. destruct (Z.ltb_spec (Z.of_nat j) 0); [lia|].
  rewrite Nat2Z.id. reflexivity.
Qed.

Lemma get_to_nat {A} `{Inhabited A} (l : list A) (i : Z) :
  0 <= i -> get l i = l !!! Z.to_nat i.
Proof.
  intros Hi. unfold get. destruct (Z.ltb_spec i 0); [lia|]. reflexivity.
Qed.

Lemma get_put_eq {A} `{Inhabited A} (l : list A) (i : Z) (x : A) :
  0 <= i < Z.of_nat (length l) -> get (put l i x) i = x.
Proof.
  intros Hi. unfold get, put. destruct (Z.ltb_spec i 0); [lia|].
  apply list_lookup_total_insert_eq. lia.
Qed.

Lemma get_put_ne {A} `{Inhabited A} (l : list A) (i j : Z) (x : A) :
  i <> j -> get (put l i x) j = get l j.
Proof.
  intros Hij. unfold get, put.
  destruct (Z.ltb_spec j 0); [reflexivity|].
  destruct (Z.ltb_spec i 0); [reflexivity|].
  apply list_lookup_total_insert_ne. lia.
Qed.

(** Copying entry [w] into slot 0 leaves entry [w] as it was. *)
Lemma get_put_0_self {A} `{Inhabited A} (l : list A) (w : Z) :
  get (put l 0 (get l w)) w = get l w.
Proof.
  destruct (Z.eq_dec w 0) as [->|Hw].
  - unfold get, put. simpl. destruct l; reflexivity.
  - apply get_put_ne. lia.
Qed.

(** ** The scan for the winner (lines 281-292) *)

(** The scan either keeps the best cost and the winner it started from,
    no candidate being strictly below that cost, or ends on a candidate
    whose return is the new, strictly lower best cost. *)
Lemma evaluate_rollouts_outcome (n : nat) (trs : list Trajectory)
    (c : float) (w : Z) (c' : float) (w' : Z) :
  evaluate_rollouts n trs c w = (c', w') ->
  (c' = c /\ w' = w /\
   forall j, (j < n)%nat -> ((trs !!! j).(total_return) <? c)%float = false)
  \/ ((c' <? c)%float = true /\ 0 <= w' < Z.of_nat n /\
      c' = (trs !!! Z.to_nat w').(total_return)).
Proof.
  revert c w. induction n as [|j IH]; intros c w Hev; simpl in Hev.
  - inversion Hev; subst. left. repeat split. intros j Hj. lia.
  - destruct ((trs !!! j).(total_return) <? c)%float eqn:Hlt.
    + right. destruct (IH _ _ Hev) as [(-> & -> & _)|(Hlt' & Hw & Hc)].
      * rewrite Nat2Z.id. repeat split; [assumption|lia|lia].
      * repeat split; [|lia|lia|assumption].
        eapply float_ltb_trans; eassumption.
    + destruct (IH _ _ Hev) as [(-> & -> & Hno)|(Hlt' & Hw & Hc)].
      * left. repeat split. intros j' Hj'.
        destruct (decide (j' = j)) as [->|]; [assumption|apply Hno; lia].
      * right. repeat split; [assumption|lia|lia|assumption].
Qed.

(** No candidate is strictly below the best cost the scan ends with. *)
Lemma evaluate_rollouts_lower_bound (n : nat) (trs : list Trajectory)
    (c : float) (w : Z) (c' : float) (w' : Z) :
  evaluate_rollouts n trs c w = (c', w') ->
  forall j, (j < n)%nat -> ((trs !!! j).(total_return) <? c')%float = false.
Proof.
  revert c w. induction n as [|j IH]; intros c w Hev j' Hj'; [lia|].
  simpl in Hev.
  destruct (decide (j' = j)) as [->|Hne].
  - destruct ((trs !!! j).(total_return) <? c)%float eqn:Hlt.
    + destruct (evaluate_rollouts_outcome _ _ _ _ _ _ Hev)
        as [(-> & _)|(Hlt' & _)].
      * apply float_ltb_irrefl.
      * apply float_ltb_asym. assumption.
    + destruct (evaluate_rollouts_outcome _ _ _ _ _ _ Hev)
        as [(-> & _)|(Hlt' & _)]; [assumption|].
      destruct ((trs !!! j).(total_return) <? c')%float eqn:Hlt''; [|reflexivity].
      rewrite (float_ltb_trans _ _ _ Hlt'' Hlt') in Hlt. discriminate.
  - destruct ((trs !!! j).(total_return) <? c)%float;
      eapply IH; try eassumption; lia.
Qed.

(** When the scan lowers the best cost, every candidate above the winner
    in index is strictly worse than the winner or has a NaN return: it
    is not less than or equal to the winner's return. *)
Lemma evaluate_rollouts_ties (n : nat) (trs : list Trajectory)
    (c : float) (w : Z) (c' : float) (w' : Z) :
  evaluate_rollouts n trs c w = (c', w') ->
  (c' <? c)%float = true ->
  forall j, (Z.to_nat w' < j < n)%nat ->
            ((trs !!! j).(total_return) <=? c')%float = false.
Proof.
  revert c w. induction n as [|j IH]; intros c w Hev Himp j' Hj'; [lia|].
  simpl in Hev.
  destruct ((trs !!! j).(total_return) <? c)%float eqn:Hlt.
  - destruct (evaluate_rollouts_outcome _ _ _ _ _ _ Hev)
      as [(-> & -> & _)|(Hlt' & Hw & _)].
    + rewrite Nat2Z.id in Hj'. lia.
    + destruct (decide (j' = j)) as [->|Hne].
      * apply float_ltb_not_leb. assumption.
      * eapply IH; try eassumption. lia.
  - destruct (evaluate_rollouts_outcome _ _ _ _ _ _ Hev)
      as [(-> & _)|(Hlt' & Hw & _)].
    + rewrite float_ltb_irrefl in Himp. discriminate.
    + destruct (decide (j' = j)) as [->|Hne].
      * destruct ((trs !!! j).(total_return) <=? c')%float eqn:Hle;
          [|reflexivity].
        rewrite (float_leb_ltb_trans _ _ _ Hle Himp) in Hlt. discriminate.
      * eapply IH; try eassumption. lia.
Qed.

(** C3, as amended: in every iteration the scan of lines 281-292 ends in
    one of two ways. Either no candidate is strictly below the running
    best cost, and then the winner is the zero-step candidate
    [num_trajectory - 1] and the best cost is unchanged; or the winner is
    a candidate whose total return is the new best cost, strictly below
    the old one, no candidate has a strictly lower return, and every
    candidate of higher index (larger index, smaller step size) has a
    return that is not less than or equal to the winner's, so that among
    candidates of equal minimal return the highest index wins. In both
    cases no candidate is strictly below the best cost the scan ends
    with. *)
Theorem select_winner_minimum (c_best : float) (p : GradientPlanner) :
  let N := p.(num_trajectory) in
  let cost := fun j : Z => (get p.(trajectory) j).(total_return) in
  let c' := (select_winner c_best p).1 in
  let w := (select_winner c_best p).2 in
  ((w = N - 1 /\ c' = c_best /\
    forall j, 0 <= j < N -> (cost j <? c_best)%float = false)
   \/ (0 <= w < N /\ c' = cost w /\ (c' <? c_best)%float = true /\
       (forall j, 0 <= j < N -> (cost j <? cost w)%float = false) /\
       (forall j, w < j < N -> (cost j <=? cost w)%float = false)))
  /\ (forall j, 0 <= j < N -> (cost j <? c')%float = false).
Proof.
  intros N cost c' w. subst c' w. unfold select_winner. fold N.
  destruct (evaluate_rollouts (Z.to_nat N) p.(trajectory) c_best (N - 1))
    as [c' w] eqn:Hev. simpl.
  assert (Hlow : forall j, 0 <= j < N -> (cost j <? c')%float = false).
  { intros j Hj. subst cost. simpl. rewrite get_to_nat by lia.
    eapply evaluate_rollouts_lower_bound; [eassumption|lia]. }
  split; [|assumption].
  destruct (evaluate_rollouts_outcome _ _ _ _ _ _ Hev)
    as [(-> & -> & Hno)|(Hlt & Hw & Hc)].
  - left. repeat split. intros j Hj. subst cost. simpl.
    rewrite get_to_nat by lia. apply Hno. lia.
  - right. assert (Hcw : c' = cost w).
    { subst cost. simpl. rewrite get_to_nat by lia. assumption. }
    repeat split; try lia; try assumption.
    + intros j Hj. rewrite <- Hcw. apply Hlow. assumption.
    + intros j Hj. rewrite <- Hcw. subst cost. simpl.
      rewrite get_to_nat by lia.
      eapply evaluate_rollouts_ties; [eassumption|assumption|lia].
Qed.

(** C3, as stated, fails: with two candidates of equal minimal return
    below the running best, the scan keeps candidate 1, the first it
    meets coming down from the highest index, and not candidate 0. *)
Lemma select_winner_tie_not_lowest_index :
  let p := Toy.returns [3%float; 3%float] (Toy.planner 0 0 2 2 1) in
  let cost := fun j : Z => (get p.(trajectory) j).(total_return) in
  let w := (select_winner 5 p).2 in
  ~ (forall j, 0 <= j < p.(num_trajectory) ->
               (cost j =? cost w)%float = true -> w <= j).
Proof.
  intros p cost w Hclaim.
  assert (Hw : w = 1) by (vm_compute; reflexivity).
  assert (Hle : w <= 0).
  { apply Hclaim; [vm_compute; split; [discriminate|reflexivity]|].
    vm_compute. reflexivity. }
  lia.
Qed.

(** ** What the stages of the improvement loop leave alone *)

Lemma length_put {A} (l : list A) (i : Z) (x : A) :
  length (put l i x) = length l.
Proof. unfold put. destruct (i <? 0); [reflexivity|apply length_insert]. Qed.

Lemma same_inputs_refl (p : GradientPlanner) : same_inputs p p.
Proof. unfold same_inputs. repeat split; reflexivity. Qed.

Lemma same_inputs_trans (p q r : GradientPlanner) :
  same_inputs p q -> same_inputs q r -> same_inputs p r.
Proof. unfold same_inputs. intuition congruence. Qed.

Lemma fold_left_same_inputs {A} (f : GradientPlanner -> A -> GradientPlanner)
    (l : list A) (p : GradientPlanner) :
  (forall q a, same_inputs q (f q a)) -> same_inputs p (fold_left f l p).
Proof.
  intros Hf. revert p. induction l as [|a l IH]; intros p; simpl.
  - apply same_inputs_refl.
  - eapply same_inputs_trans; [apply Hf|apply IH].
Qed.

Lemma fold_left_insert_length {A} (g : list A -> nat -> A) (l : list nat)
    (xs : list A) :
  length (fold_left (fun ys j => <[j := g ys j]> ys) l xs) = length xs.
Proof.
  revert xs. induction l as [|j l IH]; intros xs; simpl; [reflexivity|].
  rewrite IH. apply length_insert.
Qed.

Ltac frame :=
  unfold same_inputs; simpl;
  rewrite ?length_put, ?length_insert, ?fold_left_insert_length;
  repeat split.

Section Frames.
Context (E : Collaborators).

Lemma gradient_stage_frame h i t p st t' p' :
  gradient_stage E h i t p = (st, t', p') ->
  same_inputs p p' /\ p'.(trajectory) = p.(trajectory)
  /\ p'.(winner) = p.(winner)
  /\ t'.(nominal_time) = t.(nominal_time)
  /\ t'.(rollouts_time) = t.(rollouts_time)
  /\ t'.(policy_update_time) = t.(policy_update_time).
Proof.
  unfold gradient_stage.
  destruct (E.(gradient_Compute) _ _ _ _) as [[gd k'] dV0].
  intros Hg. inversion Hg; subst. frame.
Qed.

Lemma copy_candidates_frame p :
  same_inputs p (copy_candidates p)
  /\ (copy_candidates p).(trajectory) = p.(trajectory)
  /\ (copy_candidates p).(improvement_step) = p.(improvement_step).
Proof. unfold copy_candidates. frame. Qed.

Lemma improvement_steps_frame p :
  same_inputs p (improvement_steps E p)
  /\ (improvement_steps E p).(trajectory) = p.(trajectory)
  /\ (improvement_steps E p).(candidate_policy) = p.(candidate_policy).
Proof. unfold improvement_steps. frame. Qed.

Lemma rollout_task_frame h w j p :
  same_inputs p (rollout_task E h w j p)
  /\ (rollout_task E h w j p).(improvement_step) = p.(improvement_step).
Proof. unfold rollout_task. frame. Qed.

Lemma Rollouts_on_frame a h p :
  same_inputs p (Rollouts_on E a h p)
  /\ (Rollouts_on E a h p).(improvement_step) = p.(improvement_step).
Proof.
  unfold Rollouts_on. split.
  - apply fold_left_same_inputs. intros q j. apply rollout_task_frame.
  - generalize (seq 0 (Z.to_nat p.(num_trajectory))). intros l.
    revert p. induction l as [|j l IH]; intros p; simpl; [reflexivity|].
    rewrite IH. apply rollout_task_frame.
Qed.

Lemma adopt_winner_frame c_prev c_best w p :
  same_inputs p (adopt_winner c_prev c_best w p)
  /\ (adopt_winner c_prev c_best w p).(improvement_step) = p.(improvement_step)
  /\ (adopt_winner c_prev c_best w p).(winner) = w
  /\ (adopt_winner c_prev c_best w p).(trajectory)
     = put p.(trajectory) 0 (get p.(trajectory) w).
Proof. unfold adopt_winner. frame. Qed.

(** The planner as [Rollouts] leaves it in iteration [i]. *)
Lemma rollouts_of_stage_frame h i p :
  same_inputs p (Rollouts E h i (improvement_steps E (copy_candidates p))).
Proof.
  eapply same_inputs_trans; [apply copy_candidates_frame|].
  eapply same_inputs_trans; [apply improvement_steps_frame|].
  apply Rollouts_on_frame.
Qed.

Lemma rollout_stage_frame h i c_prev c_best t p c' t' p' :
  rollout_stage E h i c_prev c_best t p = (c', t', p') ->
  same_inputs p p'
  /\ t'.(nominal_time) = t.(nominal_time)
  /\ t'.(model_derivative_time) = t.(model_derivative_time)
  /\ t'.(cost_derivative_time) = t.(cost_derivative_time)
  /\ t'.(gradient_time) = t.(gradient_time)
  /\ t'.(policy_update_time) = t.(policy_update_time).
Proof.
  unfold rollout_stage.
  destruct (select_winner _ _) as [c1 w]. intros Hr. inversion Hr; subst.
  split; [|repeat split].
  eapply same_inputs_trans; [apply rollouts_of_stage_frame|].
  apply adopt_winner_frame.
Qed.

Lemma improvement_loop_frame n h i c_prev c_best t p :
  match improvement_loop E n h i c_prev c_best t p with
  | LoopDone _ t' p' | LoopFailed _ t' p' =>
      same_inputs p p'
      /\ t'.(nominal_time) = t.(nominal_time)
      /\ t'.(policy_update_time) = t.(policy_update_time)
  end.
Proof.
  revert i c_best t p. induction n as [|n IH]; intros i c_best t p; simpl.
  - split; [apply same_inputs_refl|split; reflexivity].
  - destruct (gradient_stage E h i t p) as [[gd t1] p1] eqn:Hg.
    destruct (gradient_stage_frame _ _ _ _ _ _ _ Hg)
      as (Hs1 & _ & _ & Hn1 & _ & Hp1).
    destruct (gd =? 0).
    + destruct (rollout_stage E h i c_prev c_best t1 p1)
        as [[c' t2] p2] eqn:Hr.
      destruct (rollout_stage_frame _ _ _ _ _ _ _ _ _ Hr)
        as (Hs2 & Hn2 & _ & _ & _ & Hp2).
      specialize (IH (i + 1) c' t2 p2).
      destruct (improvement_loop E n h (i + 1) c_prev c' t2 p2);
        destruct IH as (Hs3 & Hn3 & Hp3);
        (split; [eauto using same_inputs_trans|split; congruence]).
    + split; [assumption|split; assumption].
Qed.

End Frames.

(** ** The running best cost along the improvement loop *)

Section RunningBest.
Context (E : Collaborators).

(** One iteration after a successful gradient solve: the best cost stays
    or drops strictly; the winner is the zero-step candidate unless the
    best cost dropped, and then the winner's rollout returned the new
    best cost; the winner's trajectory is copied to slot 0. *)
Lemma rollout_stage_winner h i c_prev c_best t p c' t' p' :
  rollout_stage E h i c_prev c_best t p = (c', t', p') ->
  let q := Rollouts E h i (improvement_steps E (copy_candidates p)) in
  p'.(trajectory)
  = put q.(trajectory) 0 (get q.(trajectory) p'.(winner))
  /\ ((c' = c_best /\ p'.(winner) = p.(num_trajectory) - 1)
      \/ ((c' <? c_best)%float = true
          /\ 0 <= p'.(winner) < p.(num_trajectory)
          /\ (get q.(trajectory) p'.(winner)).(total_return) = c')).
Proof.
  intros Hr q. unfold rollout_stage in Hr. fold q in Hr.
  destruct (select_winner c_best q) as [c1 w] eqn:Hsel.
  inversion Hr; subst c' t' p'. clear Hr.
  destruct (adopt_winner_frame c_prev c1 w q) as (_ & _ & Hw & Htr).
  rewrite Hw, Htr. split; [reflexivity|].
  assert (HN : q.(num_trajectory) = p.(num_trajectory))
    by apply (rollouts_of_stage_frame E h i p).
  unfold select_winner in Hsel. rewrite HN in Hsel.
  destruct (evaluate_rollouts_outcome _ _ _ _ _ _ Hsel)
    as [(-> & -> & _)|(Hlt & Hwr & Hc)].
  - left. split; reflexivity.
  - right. split; [assumption|]. split; [lia|].
    rewrite get_to_nat by lia. symmetry. assumption.
Qed.

Lemma rollout_stage_winner_return h i c_prev c_best t p c' t' p' :
  rollout_stage E h i c_prev c_best t p = (c', t', p') ->
  (c' = c_best \/ (c' <? c_best)%float = true)
  /\ (p'.(winner) = p'.(num_trajectory) - 1
      \/ ((get p'.(trajectory) p'.(winner)).(total_return) = c'
          /\ (c' <? c_best)%float = true)).
Proof.
  intros Hr.
  destruct (rollout_stage_frame E _ _ _ _ _ _ _ _ _ Hr) as (Hs & _).
  assert (HN : p'.(num_trajectory) = p.(num_trajectory)) by apply Hs.
  destruct (rollout_stage_winner _ _ _ _ _ _ _ _ _ Hr)
    as (Htr & [(-> & Hw)|(Hlt & Hw & Hc)]).
  - split; [left; reflexivity|left; congruence].
  - split; [right; assumption|right].
    rewrite Htr, get_put_0_self. split; assumption.
Qed.

(** The loop over [a + b] iterations is the loop over [a] iterations
    followed, from the best cost, the timers and the planner it ends
    with, by the loop over [b] iterations: nothing is reset between
    iterations. *)
Lemma improvement_loop_app a b h i c_prev c_best t p :
  improvement_loop E (a + b) h i c_prev c_best t p =
  match improvement_loop E a h i c_prev c_best t p with
  | LoopDone c t' p' =>
      improvement_loop E b h (i + Z.of_nat a) c_prev c t' p'
  | LoopFailed j t' p' => LoopFailed j t' p'
  end.
Proof.
  revert i c_best t p. induction a as [|a IH]; intros i c_best t p.
  - simpl. rewrite Z.add_0_r. reflexivity.
  - cbn [Nat.add improvement_loop].
    destruct (gradient_stage E h i t p) as [[gd t1] p1].
    destruct (gd =? 0); [|reflexivity].
    destruct (rollout_stage E h i c_prev c_best t1 p1) as [[c' t2] p2].
    rewrite IH. replace (i + 1 + Z.of_nat a) with (i + Z.of_nat (S a)) by lia.
    reflexivity.
Qed.

Lemma improvement_loop_best n h i c_prev c_best t p c' t' p' :
  improvement_loop E n h i c_prev c_best t p = LoopDone c' t' p' ->
  c' = c_best \/ (c' <? c_best)%float = true.
Proof.
  revert i c_best t p. induction n as [|n IH]; intros i c_best t p; simpl.
  - intros Hl. inversion Hl. left. reflexivity.
  - destruct (gradient_stage E h i t p) as [[gd t1] p1].
    destruct (gd =? 0); [|discriminate].
    destruct (rollout_stage E h i c_prev c_best t1 p1)
      as [[c1 t2] p2] eqn:Hr.
    intros Hl. apply IH in Hl.
    destruct (rollout_stage_winner_return _ _ _ _ _ _ _ _ _ Hr) as [Hc _].
    destruct Hl as [->|Hl], Hc as [->|Hc]; auto.
    right. eapply float_ltb_trans; eassumption.
Qed.

(** The winner left by the last of [S n] iterations. *)
Lemma improvement_loop_last_winner n h i c_prev c_best t p c' t' p' :
  improvement_loop E (S n) h i c_prev c_best t p = LoopDone c' t' p' ->
  p'.(winner) = p'.(num_trajectory) - 1
  \/ ((get p'.(trajectory) p'.(winner)).(total_return) = c'
      /\ (c' <? c_best)%float = true).
Proof.
  replace (S n) with (n + 1)%nat by lia. rewrite improvement_loop_app.
  destruct (improvement_loop E n h i c_prev c_best t p)
    as [c_n t_n p_n|] eqn:Hn; [|discriminate].
  apply improvement_loop_best in Hn. simpl.
  destruct (gradient_stage E h _ t_n p_n) as [[gd t1] p1].
  destruct (gd =? 0); [|discriminate].
  destruct (rollout_stage E h _ c_prev c_n t1 p1) as [[c1 t2] p2] eqn:Hr.
  intros Hl. inversion Hl; subst c' t' p'.
  destruct (rollout_stage_winner_return _ _ _ _ _ _ _ _ _ Hr)
    as [_ [Hw|(Hc & Hlt)]]; [left; assumption|right].
  split; [assumption|].
  destruct Hn as [->|Hn]; [assumption|].
  eapply float_ltb_trans; eassumption.
Qed.

(** C10, as amended: within one call the running best cost starts from
    the value the loop is entered with ([c_prev] in [OptimizePolicy]) and
    is handed from each iteration to the next without being reset: after
    [k <= m] iterations it is equal to or strictly below its initial
    value, and after [m] iterations equal to or strictly below what it
    was after [k]. The winner adopted in iteration [m] is the zero-step
    candidate [num_trajectory - 1], which is adopted by default whatever
    its return, or else a candidate whose total return is the new best
    cost, strictly below the best cost after any smaller number [k] of
    iterations. *)
Theorem running_best_never_increases (k m : nat) h i c_prev c_best t p
    c_m t_m p_m :
  (k <= m)%nat ->
  improvement_loop E m h i c_prev c_best t p = LoopDone c_m t_m p_m ->
  exists c_k t_k p_k,
    improvement_loop E k h i c_prev c_best t p = LoopDone c_k t_k p_k
    /\ improvement_loop E (m - k) h (i + Z.of_nat k) c_prev c_k t_k p_k
       = LoopDone c_m t_m p_m
    /\ (c_k = c_best \/ (c_k <? c_best)%float = true)
    /\ (c_m = c_k \/ (c_m <? c_k)%float = true)
    /\ ((k < m)%nat ->
        p_m.(winner) = p_m.(num_trajectory) - 1
        \/ ((get p_m.(trajectory) p_m.(winner)).(total_return) = c_m
            /\ (c_m <? c_k)%float = true)).
Proof.
  intros Hkm Hm.
  replace m with (k + (m - k))%nat in Hm by lia.
  rewrite improvement_loop_app in Hm.
  destruct (improvement_loop E k h i c_prev c_best t p)
    as [c_k t_k p_k|] eqn:Hk; [|discriminate].
  exists c_k, t_k, p_k. split; [reflexivity|]. split; [assumption|].
  split; [eapply improvement_loop_best; eassumption|].
  split; [eapply improvement_loop_best; eassumption|].
  intros Hlt. destruct (m - k)%nat as [|n] eqn:Hmk; [lia|].
  eapply improvement_loop_last_winner; eassumption.
Qed.

End RunningBest.

(** C10 at a concrete call: two iterations on the toy instance, looked
    at after the first. *)
Lemma running_best_never_increases_witness :
  let r := nominal_stage Toy.E 2 (Toy.planner 0 0 2 4 2) in
  match improvement_loop Toy.E 2 2 0 r.1.1 r.1.1 r.1.2 r.2 with
  | LoopDone c_m t_m p_m =>
      exists c_k t_k p_k,
        improvement_loop Toy.E 1 2 0 r.1.1 r.1.1 r.1.2 r.2
        = LoopDone c_k t_k p_k
        /\ improvement_loop Toy.E (2 - 1) 2 (0 + Z.of_nat 1) r.1.1 c_k t_k p_k
           = LoopDone c_m t_m p_m
        /\ (c_k = r.1.1 \/ (c_k <? r.1.1)%float = true)
        /\ (c_m = c_k \/ (c_m <? c_k)%float = true)
        /\ ((1 < 2)%nat ->
            p_m.(winner) = p_m.(num_trajectory) - 1
            \/ ((get p_m.(trajectory) p_m.(winner)).(total_return) = c_m
                /\ (c_m <? c_k)%float = true))
  | LoopFailed _ _ _ => False
  end.
Proof.
  intros r.
  destruct (improvement_loop Toy.E 2 2 0 r.1.1 r.1.1 r.1.2 r.2)
    as [c_m t_m p_m|j t' p'] eqn:Hm.
  - apply (running_best_never_increases Toy.E 1 2 2 0 r.1.1 r.1.1 r.1.2 r.2
             c_m t_m p_m); [lia|exact Hm].
  - vm_compute in Hm. discriminate Hm.
Defined.

(** C10, as stated, fails: in the second iteration of this call no
    candidate is strictly below the best cost of the first iteration
    (all returns are 0), and the zero-step candidate 3 is adopted as
    winner all the same. *)
Lemma zero_step_adopted_without_improvement :
  let r := nominal_stage Toy.E 2 (Toy.planner 0 0 2 4 2) in
  match improvement_loop Toy.E 1 2 0 r.1.1 r.1.1 r.1.2 r.2 with
  | LoopDone c1 t1 p1 =>
      match improvement_loop Toy.E 1 2 1 r.1.1 c1 t1 p1 with
      | LoopDone c2 t2 p2 =>
          p2.(winner) = 3
          /\ get p2.(trajectory) 0 = get p2.(trajectory) 3
          /\ ((get p2.(trajectory) p2.(winner)).(total_return) <? c1)%float
             = false
      | LoopFailed _ _ _ => False
      end
  | LoopFailed _ _ _ => False
  end.
Proof. vm_compute. repeat split; reflexivity. Qed.

(** ** The published winner *)

Section Published.
Context (E : Collaborators).

Lemma ResamplePolicy_frame h p :
  let q := ResamplePolicy E h p in
  q.(state) = p.(state) /\ q.(mocap) = p.(mocap) /\ q.(time) = p.(time)
  /\ q.(policy) = p.(policy) /\ q.(num_trajectory) = p.(num_trajectory)
  /\ q.(settings) = p.(settings) /\ q.(compute_time) = p.(compute_time)
  /\ q.(trajectory) = p.(trajectory) /\ q.(winner) = p.(winner)
  /\ q.(timestep_power) = p.(timestep_power)
  /\ length q.(candidate_policy) = length p.(candidate_policy).
Proof.
  unfold ResamplePolicy.
  destruct (resample_points E _ _ _ _ _ _ _) as [ps ts]. simpl.
  rewrite length_put. repeat split.
Qed.

(** Lines 157-186 write the nominal policy's [num_parameters] and
    nothing else of it. *)
Lemma nominal_stage_frame h p c_prev t p1 :
  nominal_stage E h p = (c_prev, t, p1) ->
  p1.(policy)
  = set_num_parameters (E.(nu) * p.(policy).(num_spline_points)) p.(policy)
  /\ p1.(num_trajectory) = mju_min_int p.(num_trajectory) E.(kMaxTrajectory)
  /\ p1.(settings) = p.(settings)
  /\ p1.(compute_time) = p.(compute_time)
  /\ p1.(winner) = p.(winner)
  /\ p1.(state) = p.(state) /\ p1.(mocap) = p.(mocap) /\ p1.(time) = p.(time)
  /\ length p1.(trajectory) = length p.(trajectory)
  /\ c_prev = (get p1.(trajectory) 0).(total_return)
  /\ t = mkTimers (of_int (E.(stage_micros) NominalStage 0)) 0 0 0 0 0.
Proof.
  unfold nominal_stage. intros Hn. inversion Hn; subst; clear Hn.
  unfold NominalTrajectory. simpl.
  match goal with
  | |- context [ResamplePolicy E h ?q] =>
      destruct (ResamplePolicy_frame h q)
        as (H1 & H2 & H3 & H4 & H5 & H6 & H7 & H8 & H9 & _)
  end.
  rewrite length_put, H1, H2, H3, H4, H5, H6, H7, H8, H9. simpl.
  repeat split.
Qed.


Lemma publish_frame c_prev c_best t p :
  let p' := publish E c_prev c_best t p in
  p'.(winner)
  = (if (c_prev <=? c_best)%float then p.(num_trajectory) - 1
     else p.(winner))
  /\ p'.(trajectory) = p.(trajectory)
  /\ p'.(candidate_policy) = p.(candidate_policy)
  /\ p'.(num_trajectory) = p.(num_trajectory)
  /\ p'.(policy)
     = CopyParametersFrom p.(policy)
         (get p.(candidate_policy) p'.(winner)).(parameters)
         (get p.(candidate_policy) p'.(winner)).(times).
Proof.
  unfold publish. destruct (c_prev <=? c_best)%float; simpl; repeat split.
Qed.

End Published.


(** ** The failure path *)

Section Failure.
Context (E : Collaborators).

(** C2: if the gradient solver returns a nonzero status in iteration [a]
    (the [a] iterations before it having succeeded), [OptimizePolicy]
    returns there and then: the planner is as the gradient stage of
    iteration [a] left it, with no candidate copied, rolled out or
    adopted in that iteration and nothing published. The nominal policy
    keeps the parameters and knot times it had when the call began, in
    whatever iteration the failure occurs; all that the call has written
    of it is [num_parameters], recomputed on entry (line 165) from
    [model->nu] and [num_spline_points]. *)
Theorem OptimizePolicy_gradient_failure (a : nat) h p c_prev t p1
    c t_a p_a gd t_f p_f :
  nominal_stage E h p = (c_prev, t, p1) ->
  improvement_loop E a h 0 c_prev c_prev t p1 = LoopDone c t_a p_a ->
  Z.of_nat a < p.(settings).(max_rollout) ->
  gradient_stage E h (Z.of_nat a) t_a p_a = (gd, t_f, p_f) ->
  gd <> 0 ->
  OptimizePolicy E h p = (GradientFailure (Z.of_nat a) t_f, p_f)
  /\ p_f.(policy).(parameters) = p.(policy).(parameters)
  /\ p_f.(policy).(times) = p.(policy).(times)
  /\ p_f.(policy)
     = set_num_parameters (E.(nu) * p.(policy).(num_spline_points))
         p.(policy)
  /\ p_f.(trajectory) = p_a.(trajectory)
  /\ p_f.(improvement_step) = p_a.(improvement_step)
  /\ p_f.(winner) = p_a.(winner).
Proof.
  intros Hn Ha Hlt Hg Hgd.
  destruct (nominal_stage_frame E _ _ _ _ _ Hn)
    as (Hpol & _ & Hset & _).
  pose proof (improvement_loop_frame E a h 0 c_prev c_prev t p1) as Hfr.
  rewrite Ha in Hfr. destruct Hfr as (Hs1 & _).
  destruct (gradient_stage_frame E _ _ _ _ _ _ _ Hg) as (Hs2 & Htr & Hw & _).
  assert (Hp : p_f.(policy) = p1.(policy)).
  { transitivity p_a.(policy); [apply Hs2|apply Hs1]. }
  split.
  { unfold OptimizePolicy. rewrite Hn.
    assert (Hset' : p1.(settings) = p.(settings)) by assumption.
    rewrite Hset'.
    replace (Z.to_nat p.(settings).(max_rollout))
      with (a + S (Z.to_nat p.(settings).(max_rollout) - a - 1))%nat by lia.
    rewrite improvement_loop_app, Ha. cbn [improvement_loop].
    rewrite Z.add_0_l, Hg.
    destruct (Z.eqb_spec gd 0); [contradiction|reflexivity]. }
  rewrite Hp, Hpol. repeat split; try assumption.
  unfold gradient_stage in Hg.
  destruct (E.(gradient_Compute) _ _ _ _) as [[g k'] dV0].
  inversion Hg; subst. reflexivity.
Qed.

(** C9, as amended: when [OptimizePolicy] returns through a failed
    gradient solve, the planner's six stored timers are what they were
    before the call, and nothing is published. The timings of the
    stages that had completed exist only in the locals the call
    discards: the nominal stage's reading, and no policy-update time. *)
Theorem OptimizePolicy_failure_keeps_timers h p i locals p' :
  OptimizePolicy E h p = (GradientFailure i locals, p') ->
  p'.(compute_time) = p.(compute_time)
  /\ p'.(policy).(parameters) = p.(policy).(parameters)
  /\ p'.(policy).(times) = p.(policy).(times)
  /\ locals.(nominal_time) = of_int (E.(stage_micros) NominalStage 0)
  /\ locals.(policy_update_time) = 0%float.
Proof.
  unfold OptimizePolicy.
  destruct (nominal_stage E h p) as [[c_prev t] p1] eqn:Hn.
  destruct (nominal_stage_frame E _ _ _ _ _ Hn)
    as (Hpol & _ & _ & Hct & _ & _ & _ & _ & _ & _ & Ht).
  pose proof (improvement_loop_frame E
                (Z.to_nat p1.(settings).(max_rollout)) h 0 c_prev c_prev t p1)
    as Hfr.
  destruct (improvement_loop E _ h 0 c_prev c_prev t p1)
    as [c t' p2|j t' p2]; [discriminate|].
  intros Hex. inversion Hex; subst j locals p'. clear Hex.
  destruct Hfr as (Hs & Hnt & Hput).
  assert (Hp : p2.(policy) = p1.(policy)) by apply Hs.
  assert (Hc : p2.(compute_time) = p1.(compute_time)) by apply Hs.
  rewrite Hp, Hc, Hpol, Hct, Hnt, Hput, Ht. repeat split.
Qed.

End Failure.

(** C2 at a concrete call: the solver fails in the second iteration
    (iteration 1), after the first has moved the working policy to the
    target. *)
Lemma OptimizePolicy_gradient_failure_witness :
  let p := Toy.planner 0 0 2 4 2 in
  let r := nominal_stage Toy.E_fail 2 p in
  match improvement_loop Toy.E_fail 1 2 0 r.1.1 r.1.1 r.1.2 r.2 with
  | LoopDone c t_a p_a =>
      let g := gradient_stage Toy.E_fail 2 1 t_a p_a in
      OptimizePolicy Toy.E_fail 2 p = (GradientFailure 1 g.1.2, g.2)
      /\ g.2.(policy).(parameters) = p.(policy).(parameters)
      /\ g.2.(policy).(times) = p.(policy).(times)
  | LoopFailed _ _ _ => False
  end.
Proof.
  intros p r.
  assert (Hn : nominal_stage Toy.E_fail 2 p = (r.1.1, r.1.2, r.2)).
  { subst r. destruct (nominal_stage Toy.E_fail 2 p) as [[c t] q].
    reflexivity. }
  destruct (improvement_loop Toy.E_fail 1 2 0 r.1.1 r.1.1 r.1.2 r.2)
    as [c t_a p_a|j t' p2] eqn:Hl.
  - intros g.
    assert (Hg : gradient_stage Toy.E_fail 2 (Z.of_nat 1) t_a p_a
                 = (g.1.1, g.1.2, g.2)).
    { subst g. change (Z.of_nat 1) with 1.
      destruct (gradient_stage Toy.E_fail 2 1 t_a p_a) as [[gd t] q].
      reflexivity. }
    assert (Hlt : Z.of_nat 1 < p.(settings).(max_rollout))
      by (vm_compute; reflexivity).
    assert (Hgd : g.1.1 <> 0).
    { subst g. vm_compute in Hl. injection Hl as <- <- <-.
      vm_compute. discriminate. }
    destruct (OptimizePolicy_gradient_failure Toy.E_fail 1 2 p r.1.1 r.1.2
                r.2 c t_a p_a g.1.1 g.1.2 g.2 Hn Hl Hlt Hg Hgd)
      as (H1 & H2 & H3 & _).
    repeat split; assumption.
  - vm_compute in Hl. discriminate Hl.
Defined.

(** C9 at the same call. *)
Lemma OptimizePolicy_failure_keeps_timers_witness :
  let p := Toy.planner 0 0 2 4 2 in
  let r := OptimizePolicy Toy.E_fail 2 p in
  match r.1 with
  | GradientFailure i locals =>
      r.2.(compute_time) = p.(compute_time)
      /\ r.2.(policy).(parameters) = p.(policy).(parameters)
      /\ r.2.(policy).(times) = p.(policy).(times)
      /\ locals.(nominal_time)
         = of_int (Toy.E_fail.(stage_micros) NominalStage 0)
      /\ locals.(policy_update_time) = 0%float
  | Completed => False
  end.
Proof.
  intros p r.
  destruct r.1 as [|i locals] eqn:Hr.
  - vm_compute in Hr. discriminate Hr.
  - apply (OptimizePolicy_failure_keeps_timers Toy.E_fail 2 p i locals r.2).
    subst r. rewrite <- Hr.
    destruct (OptimizePolicy Toy.E_fail 2 p) as [ex q]. reflexivity.
Defined.

(** C9, as stated, fails: the call below is aborted in iteration 1, with
    the nominal stage, a full first iteration and the derivative and
    gradient stages of the second behind it; the locals hold their
    timings, and the planner's six timers still hold the values (7) they
    had before the call, none of them a timing of this call. *)
Lemma OptimizePolicy_failure_timers_not_partially_set :
  let p := Toy.planner 0 0 2 4 2 in
  let r := OptimizePolicy Toy.E_fail 2 p in
  r.1 = GradientFailure 1 (mkTimers 100 401 601 500 801 0)
  /\ p.(compute_time) = mkTimers 7 7 7 7 7 7
  /\ r.2.(compute_time) = mkTimers 7 7 7 7 7 7.
Proof. vm_compute. repeat split; reflexivity. Qed.

(** ** Resampling the policy (lines 360-389) *)

Lemma knot_time_succ (t0 shift : float) (j : nat) :
  knot_time t0 shift (S j) = (knot_time t0 shift j + shift)%float.
Proof.
  revert t0. induction j as [|j IH]; intros t0; [reflexivity|].
  change (knot_time t0 shift (S (S j)))
    with (knot_time (t0 + shift)%float shift (S j)).
  rewrite IH. reflexivity.
Qed.

(** [mju_max] against a number never returns less than that number, and
    never a NaN the number is not. *)
Lemma mju_max_lower_bound (a b : float) :
  PrimFloat.is_nan b = false -> (b <=? mju_max a b)%float = true.
Proof.
  intros Hb. unfold mju_max. destruct (b <=? a)%float eqn:Hle;
    [assumption|apply float_leb_refl; assumption].
Qed.

Section Resample.
Context (E : Collaborators).

(** The knot times the loop of [ResamplePolicy] leaves in
    [times_scratch]. *)
Lemma resample_points_times n t cp x shift ps (ts : list float) j :
  (t + n <= length ts)%nat ->
  (resample_points E n t cp x shift ps ts).2 !! j
  = if decide (t <= j < t + n)%nat
    then Some (knot_time x shift (j - t)) else ts !! j.
Proof.
  revert t x ps ts. induction n as [|n IH]; intros t x ps ts Hlen; simpl.
  - destruct (decide _); [lia|reflexivity].
  - rewrite IH by (rewrite length_insert; lia).
    destruct (decide (S t <= j < S t + n)%nat) as [Hj|Hj].
    + destruct (decide _); [|lia].
      replace (j - t)%nat with (S (j - S t)) by lia. reflexivity.
    + destruct (decide (t <= j < t + S n)%nat) as [Hj'|Hj'].
      * assert (j = t) by lia. subst j.
        rewrite list_lookup_insert_eq by lia.
        replace (t - t)%nat with 0%nat by lia. reflexivity.
      * rewrite list_lookup_insert_ne by lia. reflexivity.
Qed.

Lemma resample_points_length n t cp x shift ps (ts : list float) :
  length (resample_points E n t cp x shift ps ts).2 = length ts.
Proof.
  revert t x ps ts. induction n as [|n IH]; intros t x ps ts; simpl;
    [reflexivity|].
  rewrite IH. apply length_insert.
Qed.

End Resample.

(** ** The improvement step sizes (lines 273-276) *)

Lemma fold_insert_seq_lookup {A} (f : nat -> A) (a n : nat) (l : list A)
    (j : nat) :
  fold_left (fun vs i => <[i := f i]> vs) (seq a n) l !! j
  = if decide ((a <= j < a + n)%nat /\ (j < length l)%nat)
    then Some (f j) else l !! j.
Proof.
  revert a l. induction n as [|n IH]; intros a l; simpl.
  - destruct (decide _) as [[? ?]|]; [lia|reflexivity].
  - rewrite IH, length_insert.
    destruct (decide ((S a <= j < S a + n)%nat /\ (j < length l)%nat))
      as [[? ?]|Hn].
    + destruct (decide _) as [|Hn']; [reflexivity|lia].
    + destruct (decide ((a <= j < a + S n)%nat /\ (j < length l)%nat))
        as [[? ?]|Hn'].
      * assert (j = a) by lia. subst j.
        apply list_lookup_insert_eq. assumption.
      * destruct (decide (j = a)) as [->|Hne].
        -- rewrite list_insert_ge by lia. reflexivity.
        -- apply list_lookup_insert_ne. congruence.
Qed.

Lemma fold_insert_seq_length {A} (f : nat -> A) (a n : nat) (l : list A) :
  length (fold_left (fun vs i => <[i := f i]> vs) (seq a n) l) = length l.
Proof.
  revert a l. induction n as [|n IH]; intros a l; simpl; [reflexivity|].
  rewrite IH. apply length_insert.
Qed.

Section StepSizes.
Context (E : Collaborators).

Lemma LogScale_length values mx mn steps :
  length (LogScale E values mx mn steps) = length values.
Proof. unfold LogScale. apply fold_insert_seq_length. Qed.


(** The step sizes are those of the planner the iteration started from,
    whatever the candidates are. *)
Lemma rollout_stage_improvement_step h i c_prev c_best t p :
  (rollout_stage E h i c_prev c_best t p).2.(improvement_step)
  = (improvement_steps E p).(improvement_step).
Proof.
  unfold rollout_stage.
  destruct (select_winner _ _) as [c' w]. cbv beta iota zeta. unfold snd.
  destruct (adopt_winner_frame c_prev c' w
              (Rollouts E h i (improvement_steps E (copy_candidates p))))
    as (_ & -> & _).
  destruct (Rollouts_on_frame E (E.(WorkerId) i) h
              (improvement_steps E (copy_candidates p))) as (_ & Hr).
  unfold Rollouts. rewrite Hr. reflexivity.
Qed.


End StepSizes.



(** ** The rollout barrier (lines 392-422) *)

Module BarrierProofs.
Import Barrier.

Lemma in_flight_insert_idle (r : list (option nat)) (w j : nat) :
  r !! w = Some None ->
  in_flight (<[w := Some j]> r) ≡ₚ j :: in_flight r.
Proof.
  intros Hw. unfold in_flight.
  rewrite insert_take_drop by (eapply lookup_lt_Some; eassumption).
  rewrite <- (take_drop_middle r w None Hw) at 3.
  rewrite !omap_app. simpl. symmetry. apply Permutation_middle.
Qed.

Lemma in_flight_insert_done (r : list (option nat)) (w j : nat) :
  r !! w = Some (Some j) ->
  in_flight r ≡ₚ j :: in_flight (<[w := None]> r).
Proof.
  intros Hw. unfold in_flight.
  rewrite insert_take_drop by (eapply lookup_lt_Some; eassumption).
  rewrite <- (take_drop_middle r w (Some j) Hw) at 1.
  rewrite !omap_app. simpl. symmetry. apply Permutation_middle.
Qed.

Lemma in_flight_nil_idle (r : list (option nat)) (w : nat) :
  in_flight r = [] -> (w < length r)%nat -> r !! w = Some None.
Proof.
  intros Hr Hw. destruct (lookup_lt_is_Some_2 r w Hw) as [[j|] Hx];
    [|assumption].
  pose proof (in_flight_insert_done r w j Hx) as Hp. rewrite Hr in Hp.
  apply Permutation_nil_cons in Hp. contradiction.
Qed.

Lemma in_flight_replicate_idle (workers : nat) :
  in_flight (replicate workers None) = [].
Proof. induction workers as [|w IH]; [reflexivity|exact IH]. Qed.

Lemma in_flight_cons_running (r : list (option nat)) :
  in_flight r <> [] -> exists w j, r !! w = Some (Some j).
Proof.
  induction r as [|[j|] r IH]; simpl; intros Hne.
  - contradiction.
  - exists 0%nat, j. reflexivity.
  - destruct (IH Hne) as (w & j & Hw). exists (S w), j. exact Hw.
Qed.

Lemma idle_of_in_flight_nil (r : list (option nat)) :
  in_flight r = [] -> r = replicate (length r) None.
Proof.
  induction r as [|[j|] r IH]; simpl; intros Hr.
  - reflexivity.
  - discriminate.
  - f_equal. apply IH. exact Hr.
Qed.


Section Proofs.
Context (E : Collaborators) (h : Z).

(** Tasks of different candidates commute: each reads and writes its
    own slots only. *)
Lemma rollout_task_commute w1 w2 (j1 j2 : nat) p :
  j1 <> j2 ->
  rollout_task E h w1 j1 (rollout_task E h w2 j2 p)
  = rollout_task E h w2 j2 (rollout_task E h w1 j1 p).
Proof.
  intros Hne. unfold rollout_task. simpl.
  rewrite !list_lookup_total_insert_ne by congruence.
  unfold set_trajectory, set_candidate_policy. simpl.
  f_equal; apply list_insert_insert_ne; congruence.
Qed.

Lemma complete_num_trajectory d q :
  (complete E h d q).(num_trajectory) = q.(num_trajectory).
Proof. apply (rollout_task_frame E h (Z.of_nat d.2) d.1 q). Qed.

Lemma rollout_task_frame_num w j q :
  (rollout_task E h w j q).(num_trajectory) = q.(num_trajectory).
Proof. apply (rollout_task_frame E h w j q). Qed.

Lemma foldr_complete_num_trajectory l p0 :
  (foldr (complete E h) p0 l).(num_trajectory) = p0.(num_trajectory).
Proof.
  induction l as [|d l IH]; [reflexivity|]. cbn [fold_right].
  rewrite complete_num_trajectory. exact IH.
Qed.

Lemma perm_nil_parts {A} (l1 l2 l3 : list A) :
  l1 ++ l2 ++ l3 ≡ₚ [] -> l1 = [] /\ l2 = [] /\ l3 = [].
Proof.
  intros Hp. apply Permutation_nil_r in Hp.
  apply app_eq_nil in Hp as [-> Hp]. apply app_eq_nil in Hp as [-> ->].
  auto.
Qed.

(** Once as many tasks have completed as were scheduled, none is running
    or queued. *)
Lemma perm_all_completed (done : list nat) (fl q : list nat) (n : nat) :
  done ++ fl ++ q ≡ₚ seq 0 n -> (n <= length done)%nat ->
  fl = [] /\ q = [] /\ done ≡ₚ seq 0 n.
Proof.
  intros Hp Hn. pose proof (Permutation_length Hp) as Hl.
  rewrite !length_app, length_seq in Hl.
  destruct fl; [|simpl in Hl; lia]. destruct q; [|simpl in Hl; lia].
  rewrite !app_nil_r in Hp. auto.
Qed.

Lemma lookup_running_in_flight (r : list (option nat)) (w j : nat) :
  r !! w = Some (Some j) -> in_flight r <> [].
Proof.
  intros Hw Hnil. pose proof (in_flight_insert_done r w j Hw) as Hp.
  rewrite Hnil in Hp. apply Permutation_nil_cons in Hp. contradiction.
Qed.

(** Every move keeps the invariant. *)
Lemma exec_invariant workers count0 p0 ch cfg cfg' :
  invariant E h workers count0 p0 cfg ->
  exec E h ch cfg = Some cfg' ->
  invariant E h workers count0 p0 cfg'.
Proof.
  destruct cfg as [cl [q r cnt] p d].
  unfold invariant, exec, scheduled. simpl.
  intros (HN & Hp & Hr & Hd & Hperm & Hcl) Hex.
  rewrite HN in *.
  set (n := Z.to_nat p0.(num_trajectory)) in *.
  destruct ch as [|w|w].
  - destruct cl as [|c j|c| |]; simpl in Hex.
    + injection Hex as <-. simpl. rewrite HN.
      destruct (perm_nil_parts _ _ _ Hperm) as (Hd0 & _ & _).
      apply fmap_nil_inv in Hd0. subst d.
      unfold GetCount. simpl. repeat split; auto; lia.
    + destruct Hcl as (-> & Hj & Hcnt).
      destruct (Nat.ltb_spec j n) as [Hlt|Hge]; injection Hex as <-; simpl;
        rewrite HN; fold n.
      * repeat split; auto; try lia.
        change (0%nat :: seq 1 j) with (seq 0 (S j)).
        rewrite seq_S, <- Hperm, <- !app_assoc. reflexivity.
      * assert (j = n) by lia. subst j. repeat split; auto.
    + destruct Hcl as (-> & Hcnt).
      unfold WaitCount_ready in Hex. simpl in Hex.
      destruct (Z.leb_spec (count0 + p0.(num_trajectory)) cnt) as [Hle|];
        [|discriminate].
      injection Hex as <-. simpl. rewrite HN. fold n.
      repeat split; auto. lia.
    + injection Hex as <-. simpl. rewrite HN. fold n.
      destruct (perm_all_completed _ _ _ _ Hperm) as (Hf & Hq & _);
        [rewrite length_fmap; lia|].
      repeat split; auto.
    + discriminate.
  - destruct q as [|j q]; [discriminate|].
    destruct (r !! w) as [[j'|]|] eqn:Hw; try discriminate.
    injection Hex as <-. simpl. rewrite HN. fold n.
    repeat split; auto.
    + rewrite length_insert. assumption.
    + rewrite in_flight_insert_idle by assumption.
      rewrite <- Hperm. apply Permutation_app_head.
      simpl. apply Permutation_middle.
  - destruct (r !! w) as [[j|]|] eqn:Hw; try discriminate.
    injection Hex as <-. simpl.
    pose proof (lookup_running_in_flight r w j Hw) as Hfl.
    pose proof (in_flight_insert_done r w j Hw) as Hdone.
    rewrite ?rollout_task_frame_num, ?HN. fold n.
    repeat split; auto.
    + rewrite Hp. reflexivity.
    + rewrite length_insert. assumption.
    + constructor; [|assumption]. simpl. rewrite <- Hr.
      eapply lookup_lt_Some. eassumption.
    + rewrite <- Hperm, Hdone. simpl. apply Permutation_middle.
    + destruct cl as [|c j'|c| |]; simpl in *.
      * destruct (perm_nil_parts _ _ _ Hperm) as (_ & Hf & _). contradiction.
      * destruct Hcl as (-> & Hj & ->). repeat split; auto. lia.
      * destruct Hcl as (-> & ->). repeat split; auto. lia.
      * destruct (perm_all_completed _ _ _ _ Hperm) as (Hf & _);
          [rewrite length_fmap; lia|]. contradiction.
      * destruct Hcl as (_ & Hn).
        destruct (perm_all_completed _ _ _ _ Hperm) as (Hf & _);
          [rewrite length_fmap; lia|]. contradiction.
Qed.

Lemma initial_invariant workers count0 p0 :
  invariant E h workers count0 p0 (initial workers count0 p0).
Proof.
  unfold invariant, initial, scheduled. simpl.
  rewrite length_replicate, in_flight_replicate_idle. repeat split; auto.
Qed.

Lemma run_invariant workers count0 p0 sched cfg cfg' :
  invariant E h workers count0 p0 cfg ->
  run E h sched cfg = Some cfg' ->
  invariant E h workers count0 p0 cfg'.
Proof.
  revert cfg. induction sched as [|ch sched IH]; intros cfg Hinv Hrun;
    simpl in Hrun.
  - injection Hrun as <-. assumption.
  - destruct (exec E h ch cfg) as [cfg1|] eqn:Hex; [|discriminate].
    eapply IH; [|eassumption]. eapply exec_invariant; eassumption.
Qed.

(** Every move brings the return of the caller one move closer. *)
Lemma exec_remaining ch cfg cfg' :
  exec E h ch cfg = Some cfg' -> remaining cfg = S (remaining cfg').
Proof.
  destruct cfg as [cl [q r cnt] p d]. unfold exec, remaining. simpl.
  intros Hex. destruct ch as [|w|w].
  - destruct cl as [|c j|c| |]; simpl in Hex.
    + injection Hex as <-. simpl. lia.
    + destruct (Nat.ltb_spec j (Z.to_nat p.(num_trajectory)));
        injection Hex as <-; simpl; rewrite ?length_app; simpl; lia.
    + destruct (WaitCount_ready _ _); [|discriminate].
      injection Hex as <-. simpl. lia.
    + injection Hex as <-. simpl. lia.
    + discriminate.
  - destruct q as [|j q]; [discriminate|].
    destruct (r !! w) as [[j'|]|] eqn:Hw; try discriminate.
    injection Hex as <-. simpl.
    rewrite (Permutation_length (in_flight_insert_idle r w j Hw)). simpl. lia.
  - destruct (r !! w) as [[j|]|] eqn:Hw; try discriminate.
    injection Hex as <-. simpl.
    rewrite (Permutation_length (in_flight_insert_done r w j Hw)). simpl. lia.
Qed.

Lemma run_remaining sched cfg cfg' :
  run E h sched cfg = Some cfg' ->
  remaining cfg = (length sched + remaining cfg')%nat.
Proof.
  revert cfg. induction sched as [|ch sched IH]; intros cfg Hrun;
    simpl in Hrun.
  - injection Hrun as <-. reflexivity.
  - destruct (exec E h ch cfg) as [cfg1|] eqn:Hex; [|discriminate].
    rewrite (exec_remaining _ _ _ Hex), (IH _ Hrun). simpl. lia.
Qed.

(** Before the caller has returned some move is enabled, as long as the
    pool has a worker (or there is no task). *)
Lemma invariant_progress workers count0 p0 cfg :
  invariant E h workers count0 p0 cfg ->
  cfg.(caller) <> Returned ->
  (1 <= workers)%nat \/ p0.(num_trajectory) <= 0 ->
  exists ch cfg', exec E h ch cfg = Some cfg'.
Proof.
  destruct cfg as [cl [q r cnt] p d]. unfold invariant, scheduled. simpl.
  intros (HN & Hp & Hr & Hd & Hperm & Hcl) Hret Hw.
  destruct cl as [|c j|c| |]; try contradiction;
    try (exists CallerStep; simpl; eauto; fail).
  - exists CallerStep. simpl. destruct (_ <? _)%nat; eauto.
  - destruct Hcl as (-> & Hcnt).
    destruct (Z.leb_spec (count0 + p.(num_trajectory)) cnt) as [Hle|Hgt].
    + exists CallerStep. simpl. unfold WaitCount_ready. simpl.
      destruct (Z.leb_spec (count0 + p.(num_trajectory)) cnt); [eauto|lia].
    + assert (Hlen : (length d < Z.to_nat p.(num_trajectory))%nat) by lia.
      pose proof (Permutation_length Hperm) as Hl.
      rewrite !length_app, length_fmap, length_seq in Hl.
      destruct (in_flight r) as [|j0 fl] eqn:Hfl.
      * destruct q as [|j q]; [simpl in Hl; lia|].
        exists (WorkerStart 0). simpl.
        rewrite (in_flight_nil_idle r 0 Hfl) by lia. eauto.
      * destruct (in_flight_cons_running r) as (w & j & Hrw);
          [rewrite Hfl; discriminate|].
        exists (WorkerFinish w). simpl. rewrite Hrw. eauto.
Qed.

(** Applying the recorded completions, in the order they took place,
    gives what [Rollouts_on] computes task by task. *)
Lemma worker_of_lookup (done : list (nat * nat)) (d : nat * nat) :
  NoDup done.*1 -> d ∈ done -> worker_of done (Z.of_nat d.1) = Z.of_nat d.2.
Proof.
  intros Hnd Hin. unfold worker_of. rewrite Nat2Z.id.
  destruct (list_find (fun d' => d'.1 = d.1) done) as [[i [j w]]|] eqn:Hf.
  - apply list_find_Some in Hf as (Hi & Hj & _). simpl in Hj.
    apply list_elem_of_lookup in Hin as [i' Hi'].
    assert (H1 : done.*1 !! i = Some d.1)
      by (rewrite list_lookup_fmap, Hi; simpl; congruence).
    assert (H2 : done.*1 !! i' = Some d.1)
      by (rewrite list_lookup_fmap, Hi'; reflexivity).
    pose proof (NoDup_lookup _ _ _ _ Hnd H1 H2). subst i'. rewrite Hi in Hi'. injection Hi' as <-. reflexivity.
  - eapply list_find_None, Forall_forall in Hf; [|exact Hin].
    contradiction.
Qed.

Lemma worker_of_nonneg (done : list (nat * nat)) (j : Z) :
  0 <= worker_of done j.
Proof.
  unfold worker_of. destruct (list_find _ _) as [[i [j' w]]|]; lia.
Qed.

Lemma foldr_complete_Rollouts_on (done : list (nat * nat)) p0 :
  done.*1 ≡ₚ seq 0 (Z.to_nat p0.(num_trajectory)) ->
  foldr (complete E h) p0 done = Rollouts_on E (worker_of done) h p0.
Proof.
  intros Hperm.
  assert (Hnd : NoDup done.*1) by (rewrite Hperm; apply NoDup_seq).
  unfold Rollouts_on.
  set (g := fun j : nat => (j, Z.to_nat (worker_of done (Z.of_nat j)))).
  assert (Hg : done = g <$> done.*1).
  { rewrite <- list_fmap_compose. rewrite <- (list_fmap_id done) at 1.
    apply list_fmap_ext. intros i [j w] Hi. unfold g. simpl.
    assert (Hin : (j, w) ∈ done)
      by (eapply list_elem_of_lookup_2; eassumption).
    pose proof (worker_of_lookup done (j, w) Hnd Hin) as Hw.
    simpl in Hw. rewrite Hw, Nat2Z.id. reflexivity. }
  rewrite <- fold_left_rev_right.
  transitivity (foldr (complete E h) p0
                  (g <$> rev (seq 0 (Z.to_nat p0.(num_trajectory))))).
  - apply (foldr_permutation eq (complete E h) p0).
    + intros i1 [j1 w1] i2 [j2 w2] q Hne H1 H2. unfold complete. simpl.
      apply rollout_task_commute. intros ->.
      apply Hne. eapply NoDup_lookup; [exact Hnd| |];
        rewrite list_lookup_fmap; [rewrite H1|rewrite H2]; reflexivity.
    + rewrite Hg at 1. apply fmap_Permutation.
      rewrite Hperm. apply Permutation_rev.
  - rewrite foldr_fmap. apply foldr_ext; [|reflexivity|reflexivity].
    intros q j. unfold complete, g. simpl.
    rewrite Z2Nat.id by apply worker_of_nonneg. reflexivity.
Qed.

(** C7: [Rollouts] (lines 392-422), run against a pool of [workers]
    workers that is idle on entry. Take any execution, that is any
    interleaving of the caller's statements with workers taking and
    finishing tasks, and the configuration [cfg] it reaches.

    - If the caller has returned, every task [0 .. num_trajectory - 1]
      has completed, once each, on a worker of the pool; the planner is
      what [Rollouts_on] computes with each task on the worker that ran
      it; nothing is queued or running and the count is reset; and the
      execution took exactly [3 * num_trajectory + 4] moves.
    - The caller is past [WaitCount] only if at least
      [num_trajectory] completions have been recorded: the barrier does
      not release early, and until the reset the count is the count on
      entry plus the number of completions, no task being recorded
      twice.
    - Until the caller has returned some move is enabled, with any
      number [>= 1] of workers, fewer than the tasks or not: the call
      cannot get stuck, and since every move brings the return one
      move closer, it returns. *)
Theorem Rollouts_barrier workers count0 p0 sched cfg :
  run E h sched (initial workers count0 p0) = Some cfg ->
  let n := Z.to_nat p0.(num_trajectory) in
  (cfg.(caller) = Returned ->
   cfg.(completed).*1 ≡ₚ seq 0 n
   /\ Forall (fun d => (d.2 < workers)%nat) cfg.(completed)
   /\ cfg.(planner) = Rollouts_on E (worker_of cfg.(completed)) h p0
   /\ cfg.(pool) = mkPool [] (replicate workers None) 0
   /\ length sched = (3 * n + 4)%nat)
  /\ (match cfg.(caller) with
      | Entering => True
      | Scheduling _ _ | Waiting _ =>
          cfg.(pool).(count)
          = count0 + Z.of_nat (length cfg.(completed))
      | Resetting | Returned => (n <= length cfg.(completed))%nat
      end)
  /\ NoDup cfg.(completed).*1
  /\ (cfg.(caller) <> Returned ->
      (1 <= workers)%nat \/ p0.(num_trajectory) <= 0 ->
      exists ch cfg', exec E h ch cfg = Some cfg')
  /\ (length sched + remaining cfg = 3 * n + 4)%nat.
Proof.
  intros Hrun n.
  pose proof (run_invariant _ _ _ _ _ _ (initial_invariant workers count0 p0)
                Hrun) as Hinv.
  pose proof (run_remaining _ _ _ Hrun) as Hrem.
  assert (Hrem0 : remaining (initial workers count0 p0) = (3 * n + 4)%nat).
  { unfold remaining, initial. simpl.
    rewrite in_flight_replicate_idle. simpl. fold n. lia. }
  assert (Hprog := invariant_progress _ _ _ _ Hinv).
  assert (Htot : (length sched + remaining cfg = 3 * n + 4)%nat) by lia.
  clear Hrem Hrem0. revert Htot Hprog.
  destruct cfg as [cl [q r cnt] p d]. intros Htot Hprog.
  unfold invariant, scheduled in Hinv. simpl in *.
  destruct Hinv as (HN & Hp & Hr & Hd & Hperm & Hcl).
  rewrite HN in Hperm. fold n in Hperm, Hcl.
  assert (Hnd : NoDup d.*1).
  { assert (Hnd' : NoDup (d.*1 ++ in_flight r ++ q))
      by (rewrite Hperm; apply NoDup_seq).
    apply NoDup_app in Hnd'. apply Hnd'. }
  split.
  { intros ->. destruct Hcl as (-> & Hn).
    destruct (perm_all_completed _ _ _ _ Hperm) as (Hf & -> & Hall);
      [rewrite length_fmap; lia|].
    split; [assumption|]. split; [assumption|].
    split; [rewrite Hp; apply foldr_complete_Rollouts_on; assumption|].
    split.
    - f_equal. rewrite (idle_of_in_flight_nil r Hf), Hr. reflexivity.
    - unfold remaining in Htot. simpl in Htot. rewrite Hf in Htot.
      simpl in Htot. lia. }
  split.
  { destruct cl as [|c j|c| |]; try tauto. }
  split; [assumption|].
  split; assumption.
Qed.
End Proofs.

(** C7 at a concrete execution: two tasks on a pool with a single
    worker, which runs them one after the other while the caller
    waits. *)
Lemma Rollouts_barrier_witness :
  let p0 :=
    improvement_steps Toy.E
      (copy_candidates (nominal_stage Toy.E 2 (Toy.planner 0 0 2 2 1)).2) in
  let sched :=
    [CallerStep; CallerStep; CallerStep; CallerStep;
     WorkerStart 0; WorkerFinish 0; WorkerStart 0; WorkerFinish 0;
     CallerStep; CallerStep] in
  match run Toy.E 2 sched (initial 1 5 p0) with
  | Some cfg =>
      cfg.(caller) = Returned
      /\ cfg.(completed) = [(1, 0); (0, 0)]%nat
      /\ cfg.(planner) = Rollouts_on Toy.E (worker_of cfg.(completed)) 2 p0
      /\ cfg.(pool) = mkPool [] [None] 0
  | None => False
  end.
Proof.
  intros p0 sched.
  destruct (run Toy.E 2 sched (initial 1 5 p0)) as [cfg|] eqn:Hrun.
  - destruct (Rollouts_barrier Toy.E 2 1 5 p0 sched cfg Hrun) as (Hret & _).
    assert (Hc : cfg.(caller) = Returned).
    { vm_compute in Hrun. injection Hrun as <-. reflexivity. }
    destruct (Hret Hc) as (_ & _ & Hpl & Hpool & _).
    split; [exact Hc|]. split; [|split; [exact Hpl|exact Hpool]].
    vm_compute in Hrun. injection Hrun as <-. reflexivity.
  - vm_compute in Hrun. discriminate Hrun.
Defined.

End BarrierProofs.

(** ** The risk-sensitive cost *)

Section RiskTransform.
Context (mju_exp : float -> float) (other_norm : Z -> list float -> float).

(** C5: for every task and residual, with [sum] the sum of the
    per-norm-group costs of [CostTerms]: [CostValue] returns
    [(exp(risk * sum) - 1) / risk] when [risk] is nonzero and exactly
    [sum], through its explicit branch, when [risk == 0]; in neither
    case is a division by zero carried out. *)
Theorem CostValue_risk_transform (task : TaskCost.Task) (r : list float) :
  let sum := TaskCost.mju_sum (TaskCost.CostTerms other_norm task r) in
  let value := TaskCost.CostValue mju_exp other_norm task r in
  ((task.(TaskCost.risk) =? 0)%float = true -> value = Some sum)
  /\ ((task.(TaskCost.risk) =? 0)%float = false ->
      value
      = Some ((mju_exp (task.(TaskCost.risk) * sum) - 1)
              / task.(TaskCost.risk))%float)
  /\ value <> None.
Proof.
  intros sum value. subst value. unfold TaskCost.CostValue.
  fold sum. unfold TaskCost.checked_div.
  destruct (task.(TaskCost.risk) =? 0)%float; repeat split;
    intros; congruence.
Qed.

End RiskTransform.

(** ** Two calls with the same inputs on a single worker *)

Lemma agree_lookup {A} (m : nat) (l1 l2 : list A) (j : nat) :
  agree m l1 l2 -> (j < m)%nat -> l1 !! j = l2 !! j.
Proof.
  intros [_ Ht] Hj.
  rewrite <- (lookup_take_lt l1 m j), <- (lookup_take_lt l2 m j) by lia.
  rewrite Ht. reflexivity.
Qed.

Lemma agree_lookup_total {A} `{Inhabited A} (m : nat) (l1 l2 : list A)
    (j : nat) :
  agree m l1 l2 -> (j < m)%nat -> l1 !!! j = l2 !!! j.
Proof.
  intros Ha Hj. rewrite !list_lookup_total_alt, (agree_lookup m l1 l2 j Ha Hj).
  reflexivity.
Qed.

Lemma agree_get {A} `{Inhabited A} (m : nat) (l1 l2 : list A) (i : Z) :
  agree m l1 l2 -> i < Z.of_nat m -> get l1 i = get l2 i.
Proof.
  intros Ha Hi. unfold get. destruct (i <? 0) eqn:Hneg; [reflexivity|].
  apply (agree_lookup_total m); [assumption|lia].
Qed.

Lemma agree_insert {A} (m : nat) (l1 l2 : list A) (i : nat) (x : A) :
  agree m l1 l2 -> agree m (<[i := x]> l1) (<[i := x]> l2).
Proof.
  intros [Hl Ht]. split; [rewrite !length_insert; assumption|].
  rewrite !take_insert, Ht. reflexivity.
Qed.

Lemma agree_put {A} (m : nat) (l1 l2 : list A) (i : Z) (x : A) :
  agree m l1 l2 -> agree m (put l1 i x) (put l2 i x).
Proof.
  intros Ha. unfold put. destruct (i <? 0); [assumption|].
  apply agree_insert. assumption.
Qed.

Lemma agree_mono {A} (m m' : nat) (l1 l2 : list A) :
  (m' <= m)%nat -> agree m l1 l2 -> agree m' l1 l2.
Proof.
  intros Hm [Hl Ht]. split; [assumption|].
  replace m' with (min m' m) by lia. rewrite <- !take_take, Ht. reflexivity.
Qed.

Lemma agree_of_lookup {A} (m : nat) (l1 l2 : list A) :
  length l1 = length l2 ->
  (forall j, (j < m)%nat -> l1 !! j = l2 !! j) ->
  agree m l1 l2.
Proof.
  intros Hl Hj. split; [assumption|]. apply list_eq. intros j.
  rewrite !lookup_take. destruct (decide (j < m)%nat); auto.
Qed.

(** Slot 0 written with the same value in two arrays of the same
    capacity. *)
Lemma agree_put_0 {A} (l1 l2 : list A) (x : A) :
  length l1 = length l2 -> agree 1 (put l1 0 x) (put l2 0 x).
Proof.
  intros Hl. unfold put. simpl. split; [rewrite !length_insert; assumption|].
  destruct l1, l2; simpl in *; try discriminate; reflexivity.
Qed.

Section TwoCalls.
Context (E : Collaborators) (m1 m2 : Stage -> Z -> Z).
Let E1 := single_worker E m1.
Let E2 := single_worker E m2.

Lemma write_block_take (buf : list float) (off : nat) (vals : list float) :
  (off <= length buf)%nat ->
  take (off + length vals) (write_block buf off vals) = take off buf ++ vals.
Proof.
  intros Hoff. unfold write_block.
  rewrite take_app_add' by (rewrite length_take; lia).
  rewrite take_app_length. reflexivity.
Qed.

Lemma write_block_length (buf : list float) (off : nat) (vals : list float) :
  (off + length vals <= length buf)%nat ->
  length (write_block buf off vals) = length buf.
Proof.
  intros Hoff. unfold write_block.
  rewrite !length_app, length_take, length_drop. lia.
Qed.

(** The loop of [ResamplePolicy] fills the first [num_spline_points]
    blocks of [parameters_scratch] whatever they held. *)
Lemma resample_points_agree (n t : nat) cp x s
    (ps1 ps2 ts1 ts2 : list float) :
  let v := Z.to_nat E.(nu) in
  0 <= E.(nu) ->
  (forall q y, length (E.(Action) q y) = v) ->
  length ps1 = length ps2 ->
  ((t + n) * v <= length ps1)%nat ->
  take (t * v) ps1 = take (t * v) ps2 ->
  take ((t + n) * v) (resample_points E1 n t cp x s ps1 ts1).1
  = take ((t + n) * v) (resample_points E2 n t cp x s ps2 ts2).1
  /\ length (resample_points E1 n t cp x s ps1 ts1).1 = length ps1
  /\ length (resample_points E2 n t cp x s ps2 ts2).1 = length ps2.
Proof.
  intros v Hnu Hact. revert t x ps1 ps2 ts1 ts2.
  induction n as [|n IH]; intros t x ps1 ps2 ts1 ts2 Hl Hcap Ht; simpl.
  - rewrite Nat.add_0_r. auto.
  - replace (Z.to_nat (Z.of_nat t * E.(nu))) with (t * v)%nat
      by (unfold v; rewrite Z2Nat.inj_mul, Nat2Z.id by lia; reflexivity).
    assert (Hb1 : length (write_block ps1 (t * v) (E.(Action) cp x))
                  = length ps1)
      by (apply write_block_length; rewrite Hact; lia).
    assert (Hb2 : length (write_block ps2 (t * v) (E.(Action) cp x))
                  = length ps2)
      by (apply write_block_length; rewrite Hact; lia).
    replace (t + S n)%nat with (S t + n)%nat by lia.
    destruct (IH (S t) (x + s)%float
                (write_block ps1 (t * v) (E.(Action) cp x))
                (write_block ps2 (t * v) (E.(Action) cp x))
                (<[t := x]> ts1) (<[t := x]> ts2)) as (H1 & H2 & H3).
    + congruence.
    + rewrite Hb1. lia.
    + replace (S t * v)%nat with (t * v + length (E.(Action) cp x))%nat
        by (rewrite Hact; lia).
      rewrite !write_block_take by lia. rewrite Ht. reflexivity.
    + split; [exact H1|]. split; congruence.
Qed.


Lemma resample_points_times_agree (n : nat) cp x s
    (ps1 ps2 ts1 ts2 : list float) :
  (n <= length ts1)%nat -> length ts1 = length ts2 ->
  take n (resample_points E1 n 0 cp x s ps1 ts1).2
  = take n (resample_points E2 n 0 cp x s ps2 ts2).2.
Proof.
  intros Hn Hl. apply list_eq. intros j. rewrite !lookup_take.
  destruct (decide (j < n)%nat); [|reflexivity].
  rewrite !resample_points_times by lia.
  destruct (decide _); [reflexivity|lia].
Qed.

(** [ResamplePolicy] computes the working policy from slot 0, the
    planner's time and the model; what the scratch vectors held does
    not reach it. *)
Lemma ResamplePolicy_agree h p q :
  let cp := get p.(candidate_policy) 0 in
  let v := Z.to_nat E.(nu) in
  let K := Z.to_nat cp.(num_spline_points) in
  same_call_inputs p q ->
  agree 1 p.(candidate_policy) q.(candidate_policy) ->
  0 <= E.(nu) ->
  (forall c y, length (E.(Action) c y) = v) ->
  cp.(num_parameters) = E.(nu) * cp.(num_spline_points) ->
  (K * v <= length p.(parameters_scratch))%nat ->
  (K <= length p.(times_scratch))%nat ->
  same_call_inputs (ResamplePolicy E1 h p) (ResamplePolicy E2 h q)
  /\ agree 1 (ResamplePolicy E1 h p).(candidate_policy)
             (ResamplePolicy E2 h q).(candidate_policy)
  /\ (ResamplePolicy E1 h p).(trajectory) = p.(trajectory)
  /\ (ResamplePolicy E2 h q).(trajectory) = q.(trajectory).
Proof.
  intros cp v K Hin Hc Hnu Hact Hpar Hps Hts.
  assert (Hcp : get q.(candidate_policy) 0 = cp)
    by (symmetry; apply (agree_get 1); [assumption|lia]).
  destruct Hin as (Hst & Hmo & Hti & Hpo & HN & Hpw & Hse & Hlc & Hlt & Hli
                   & Hlp & Hlts).
  unfold ResamplePolicy. rewrite Hcp. fold cp.
  change (time_shift E2 h cp.(num_spline_points))
    with (time_shift E1 h cp.(num_spline_points)).
  set (s := time_shift E1 h cp.(num_spline_points)).
  fold K. rewrite Hti.
  destruct (resample_points_agree K 0 cp p.(time) s p.(parameters_scratch)
              q.(parameters_scratch) p.(times_scratch) q.(times_scratch))
    as (Hps' & Hl1 & Hl2); auto; try (fold v; lia).
  pose proof (resample_points_times_agree K cp p.(time) s
                p.(parameters_scratch) q.(parameters_scratch)
                p.(times_scratch) q.(times_scratch)) as Hts'.
  pose proof (resample_points_length E1 K 0 cp p.(time) s
                p.(parameters_scratch) p.(times_scratch)) as Hlt1.
  pose proof (resample_points_length E2 K 0 cp p.(time) s
                q.(parameters_scratch) q.(times_scratch)) as Hlt2.
  destruct (resample_points E1 K 0 cp p.(time) s p.(parameters_scratch)
              p.(times_scratch)) as [ps1 ts1].
  destruct (resample_points E2 K 0 cp p.(time) s q.(parameters_scratch)
              q.(times_scratch)) as [ps2 ts2].
  simpl in Hps', Hl1, Hl2, Hts', Hlt1, Hlt2. fold v in Hps'.
  assert (Hmc : mju_copy cp.(parameters) ps1 cp.(num_parameters)
                = mju_copy cp.(parameters) ps2 cp.(num_parameters)).
  { unfold mju_copy. f_equal. rewrite Hpar.
    replace (Z.to_nat (E.(nu) * cp.(num_spline_points))) with (K * v)%nat.
    - exact Hps'.
    - unfold K, v. destruct (Z.le_gt_cases 0 cp.(num_spline_points)).
      + rewrite (Z2Nat.inj_mul _ _ Hnu H). apply Nat.mul_comm.
      + rewrite (Z2Nat.nonpos cp.(num_spline_points))
          by (apply Z.lt_le_incl; exact H).
        rewrite (Z2Nat.nonpos (_ * _)); [apply Nat.mul_0_l|].
        apply Z.mul_nonneg_nonpos; [exact Hnu|apply Z.lt_le_incl; exact H]. }
  assert (Hmt : forall l, mju_copy l ts1 cp.(num_spline_points)
                          = mju_copy l ts2 cp.(num_spline_points)).
  { intros l. unfold mju_copy. f_equal. fold K. apply Hts'; lia. }
  simpl. rewrite Hmc, Hmt, Hpw.
  split; [|split; [|split; reflexivity]].
  - unfold same_call_inputs. simpl. rewrite !length_put.
    repeat split; auto; congruence.
  - simpl. apply agree_put. assumption.
Qed.

(** The nominal stage: the working policy and the nominal trajectory of
    two calls with the same inputs are the same, and so is [c_prev]. *)
Lemma nominal_stage_agree h p q :
  let v := Z.to_nat E.(nu) in
  let K := Z.to_nat p.(policy).(num_spline_points) in
  same_call_inputs p q ->
  0 <= E.(nu) ->
  (forall c y, length (E.(Action) c y) = v) ->
  (1 <= length p.(candidate_policy))%nat ->
  (K * v <= length p.(parameters_scratch))%nat ->
  (K <= length p.(times_scratch))%nat ->
  (nominal_stage E1 h p).1.1 = (nominal_stage E2 h q).1.1
  /\ agree_candidates 1 (nominal_stage E1 h p).2 (nominal_stage E2 h q).2.
Proof.
  intros v K Hin Hnu Hact Hcap Hps Hts.
  pose proof Hin as (Hst & Hmo & Hti & Hpo & HN & Hpw & Hse & Hlc & Hlt & Hli
                     & Hlp & Hlts).
  unfold nominal_stage.
  set (p3 := set_candidate_policy _ (set_policy _ (set_num_trajectory _ p))).
  set (q3 := set_candidate_policy _ (set_policy _ (set_num_trajectory _ q))).
  assert (Hcp3 : get p3.(candidate_policy) 0
                 = set_num_parameters (E.(nu) * p.(policy).(num_spline_points))
                     p.(policy))
    by (unfold p3; simpl; apply get_put_eq; lia).
  destruct (ResamplePolicy_agree h p3 q3) as (Hin4 & Hc4 & Ht4 & Ht4').
  - unfold p3, q3, same_call_inputs. simpl. rewrite !length_put, Hpo, HN.
    repeat split; auto.
  - unfold p3, q3. simpl. rewrite Hpo. unfold CopyFrom.
    apply agree_put_0. congruence.
  - assumption.
  - assumption.
  - rewrite Hcp3. reflexivity.
  - rewrite Hcp3. exact Hps.
  - rewrite Hcp3. exact Hts.
  - set (p4 := ResamplePolicy E1 h p3) in *.
    set (q4 := ResamplePolicy E2 h q3) in *.
    pose proof Hin4 as (Hst4 & Hmo4 & Hti4 & Hpo4 & HN4 & Hpw4 & Hse4 & Hlc4
                        & Hlt4 & Hli4 & Hlp4 & Hlts4).
    assert (Hr : E2.(Rollout) (get q4.(candidate_policy) 0) q4.(state)
                   q4.(time) q4.(mocap) h 0
                 = E1.(Rollout) (get p4.(candidate_policy) 0) p4.(state)
                     p4.(time) p4.(mocap) h 0).
    { rewrite Hst4, Hti4, Hmo4, (agree_get 1 _ _ 0 Hc4) by lia. reflexivity. }
    assert (Ha : agree 1 (NominalTrajectory E1 h p4).(trajectory)
                         (NominalTrajectory E2 h q4).(trajectory)).
    { unfold NominalTrajectory. cbn [trajectory set_trajectory]. rewrite Hr.
      apply agree_put_0. congruence. }
    cbn [fst snd]. split.
    + rewrite (agree_get 1 _ _ 0 Ha) by lia. reflexivity.
    + split; [|split; [exact Hc4|exact Ha]].
      unfold NominalTrajectory, same_call_inputs. simpl.
      rewrite !length_put. repeat split; assumption.
Qed.

(** The gradient stage reads slot 0 of the candidates and of the
    trajectories, the settings and the nominal policy's representation;
    it writes slot 0 of the candidates and [gradient_dV0]. *)
Lemma gradient_stage_agree (m : nat) h i t1 t2 p q :
  agree_candidates m p q -> (1 <= m)%nat ->
  (gradient_stage E1 h i t1 p).1.1 = (gradient_stage E2 h i t2 q).1.1
  /\ agree_candidates m (gradient_stage E1 h i t1 p).2
                        (gradient_stage E2 h i t2 q).2
  /\ (gradient_stage E1 h i t1 p).2.(gradient_dV0)
     = (gradient_stage E2 h i t2 q).2.(gradient_dV0)
  /\ (gradient_stage E1 h i t1 p).2.(winner) = p.(winner)
  /\ (gradient_stage E2 h i t2 q).2.(winner) = q.(winner)
  /\ (gradient_stage E1 h i t1 p).2.(trajectory) = p.(trajectory)
  /\ (gradient_stage E2 h i t2 q).2.(trajectory) = q.(trajectory).
Proof.
  intros (Hin & Hc & Htr) Hm.
  pose proof Hin as (Hst & Hmo & Hti & Hpo & HN & Hpw & Hse & Hlc & Hlt & Hli
                     & Hlp & Hlts).
  unfold gradient_stage.
  rewrite <- (agree_get m _ _ 0 Hc), <- (agree_get m _ _ 0 Htr) by lia.
  rewrite Hse, Hpo.
  change (model_derivative_Compute E2) with (model_derivative_Compute E1).
  change (cost_derivative_Compute E2) with (cost_derivative_Compute E1).
  change (gradient_Compute E2) with (gradient_Compute E1).
  change (mapping_Compute E2) with (mapping_Compute E1).
  change (mju_mulMatTVec E2) with (mju_mulMatTVec E1).
  change (nu E2) with (nu E1).
  destruct (gradient_Compute E1 _ _ _ _) as [[gd k'] dV0].
  cbn [fst snd]. repeat split; try reflexivity; simpl; try assumption.
  - rewrite !length_put. assumption.
  - rewrite !length_put. apply Hc.
  - apply agree_put. assumption.
  - apply Htr.
  - apply Htr.
Qed.

Lemma agree_insert_next {A} (k : nat) (l1 l2 : list A) (x : A) :
  agree k l1 l2 -> agree (S k) (<[k := x]> l1) (<[k := x]> l2).
Proof.
  intros Ha. pose proof Ha as [Hl _].
  apply agree_of_lookup; [rewrite !length_insert; assumption|].
  intros j Hj. destruct (decide (j = k)) as [->|Hne].
  - destruct (decide (k < length l1)%nat).
    + rewrite !list_lookup_insert_eq by lia. reflexivity.
    + rewrite !list_insert_ge by lia.
      rewrite !lookup_ge_None_2 by lia. reflexivity.
  - rewrite !list_lookup_insert_ne by congruence.
    apply (agree_lookup k); [assumption|lia].
Qed.

(** Lines 268-271 make the first [num_trajectory] candidates copies of
    slot 0. *)
Lemma copy_candidates_agree p q :
  agree_candidates 1 p q ->
  same_call_inputs (copy_candidates p) (copy_candidates q)
  /\ agree (Z.to_nat p.(num_trajectory))
       (copy_candidates p).(candidate_policy)
       (copy_candidates q).(candidate_policy)
  /\ agree 1 (copy_candidates p).(trajectory) (copy_candidates q).(trajectory).
Proof.
  intros (Hin & Hc & Htr).
  pose proof Hin as (Hst & Hmo & Hti & Hpo & HN & Hpw & Hse & Hlc & Hlt & Hli
                     & Hlp & Hlts).
  unfold copy_candidates, CopyFrom. rewrite HN.
  rewrite <- (agree_get 1 _ _ 0 Hc) by lia.
  set (cp0 := get p.(candidate_policy) 0).
  set (n := Z.to_nat p.(num_trajectory)).
  pose proof (fold_insert_seq_lookup (fun _ => cp0) 1 (n - 1)) as Hf.
  pose proof (fold_insert_seq_length (fun _ => cp0) 1 (n - 1)) as Hfl.
  cbv beta in Hf, Hfl.
  split; [|split].
  - unfold same_call_inputs. simpl. rewrite !Hfl. repeat split; assumption.
  - simpl. apply agree_of_lookup; [rewrite !Hfl; congruence|].
    intros j Hj. rewrite !Hf, Hlc.
    destruct (decide _) as [|Hn]; [reflexivity|].
    destruct (decide (j < length p.(candidate_policy))%nat).
    + assert (j = 0%nat) by lia. subst j. apply (agree_lookup 1); [assumption|lia].
    + rewrite !lookup_ge_None_2 by lia. reflexivity.
  - simpl. assumption.
Qed.

(** Lines 273-276 write the first [num_trajectory] step sizes. *)
Lemma improvement_steps_agree p q :
  same_call_inputs p q ->
  agree (Z.to_nat p.(num_trajectory))
    (improvement_steps E1 p).(improvement_step)
    (improvement_steps E2 q).(improvement_step).
Proof.
  intros (Hst & Hmo & Hti & Hpo & HN & Hpw & Hse & Hlc & Hlt & Hli
          & Hlp & Hlts).
  unfold improvement_steps, LogScale. simpl. rewrite HN, Hse.
  set (f := fun i : nat => LogScale_value E1 1 (min_step_size (settings p))
                             (num_trajectory p - 1) (Z.of_nat i)).
  pose proof (fold_insert_seq_lookup f 0 (Z.to_nat (num_trajectory p - 1)))
    as Hf.
  pose proof (fold_insert_seq_length f 0 (Z.to_nat (num_trajectory p - 1)))
    as Hfl.
  apply agree_of_lookup; [rewrite !length_put, !Hfl; congruence|].
  intros j Hj. unfold put.
  destruct (num_trajectory p - 1 <? 0) eqn:Hneg.
  - apply Z.ltb_lt in Hneg. lia.
  - destruct (decide (j = Z.to_nat (num_trajectory p - 1))) as [->|Hne].
    + destruct (decide (Z.to_nat (num_trajectory p - 1)
                        < length p.(improvement_step))%nat).
      * rewrite !list_lookup_insert_eq by (rewrite Hfl; lia). reflexivity.
      * rewrite !list_insert_ge by (rewrite Hfl; lia).
        rewrite !lookup_ge_None_2 by (rewrite Hfl; lia). reflexivity.
    + rewrite !list_lookup_insert_ne by congruence.
      rewrite !Hf, Hli.
      destruct (decide _) as [|Hn]; [reflexivity|].
      rewrite !lookup_ge_None_2 by lia. reflexivity.
Qed.

(** Task [k] reads candidate [k] and step size [k] and writes candidate
    [k] and trajectory [k]. *)
Lemma rollout_task_agree (n k : nat) h w p q :
  same_call_inputs p q ->
  agree n p.(candidate_policy) q.(candidate_policy) ->
  agree n p.(improvement_step) q.(improvement_step) ->
  agree k p.(trajectory) q.(trajectory) ->
  (k < n)%nat ->
  same_call_inputs (rollout_task E1 h w k p) (rollout_task E2 h w k q)
  /\ agree n (rollout_task E1 h w k p).(candidate_policy)
             (rollout_task E2 h w k q).(candidate_policy)
  /\ agree n (rollout_task E1 h w k p).(improvement_step)
             (rollout_task E2 h w k q).(improvement_step)
  /\ agree (S k) (rollout_task E1 h w k p).(trajectory)
                 (rollout_task E2 h w k q).(trajectory).
Proof.
  intros Hin Hc Hs Htr Hk.
  pose proof Hin as (Hst & Hmo & Hti & Hpo & HN & Hpw & Hse & Hlc & Hlt & Hli
                     & Hlp & Hlts).
  unfold rollout_task.
  rewrite <- (agree_lookup_total n _ _ k Hc), <- (agree_lookup_total n _ _ k Hs)
    by assumption.
  rewrite Hst, Hti, Hmo.
  change (nu E2) with (nu E1). change (Rollout E2) with (Rollout E1).
  split; [|split; [|split]]; simpl.
  - unfold same_call_inputs. simpl. rewrite !length_insert.
    repeat split; assumption.
  - apply agree_insert. assumption.
  - assumption.
  - apply agree_insert_next. assumption.
Qed.

(** A single worker runs the scheduled tasks one after the other. *)
Lemma Rollouts_on_agree (n k : nat) h a p q :
  same_call_inputs p q ->
  agree n p.(candidate_policy) q.(candidate_policy) ->
  agree n p.(improvement_step) q.(improvement_step) ->
  (k <= n)%nat ->
  let p' := fold_left (fun r j => rollout_task E1 h (a (Z.of_nat j)) j r)
              (seq 0 k) p in
  let q' := fold_left (fun r j => rollout_task E2 h (a (Z.of_nat j)) j r)
              (seq 0 k) q in
  same_call_inputs p' q'
  /\ agree n p'.(candidate_policy) q'.(candidate_policy)
  /\ agree n p'.(improvement_step) q'.(improvement_step)
  /\ agree k p'.(trajectory) q'.(trajectory).
Proof.
  intros Hin Hc Hs. induction k as [|k IH]; intros Hk.
  - simpl. split; [assumption|split; [assumption|split; [assumption|]]].
    destruct Hin as (_ & _ & _ & _ & _ & _ & _ & _ & Hlt & _).
    split; [congruence|reflexivity].
  - cbv zeta in IH |- *. rewrite seq_S, !fold_left_app. simpl.
    destruct IH as (Hin' & Hc' & Hs' & Ht'); [lia|].
    apply rollout_task_agree; [assumption..|lia].
Qed.

(** The planner as [Rollouts] leaves it in iteration [i]: the first
    [num_trajectory] candidates, step sizes and trajectories are
    determined by slot 0 of the candidates. *)
Lemma rollouts_of_stage_agree h i p q :
  agree_candidates 1 p q ->
  let n := Z.to_nat p.(num_trajectory) in
  let p1 := Rollouts E1 h i (improvement_steps E1 (copy_candidates p)) in
  let q1 := Rollouts E2 h i (improvement_steps E2 (copy_candidates q)) in
  agree_candidates n p1 q1
  /\ agree n p1.(improvement_step) q1.(improvement_step).
Proof.
  intros Ha n.
  destruct (copy_candidates_agree p q Ha) as (Hin_c & Hc_c & Htr_c).
  pose proof (improvement_steps_agree _ _ Hin_c) as Hs.
  change (num_trajectory (copy_candidates p)) with (num_trajectory p) in Hs.
  fold n in Hs, Hc_c.
  assert (Hin_s : same_call_inputs (improvement_steps E1 (copy_candidates p))
                    (improvement_steps E2 (copy_candidates q))).
  { destruct Hin_c as (Hst & Hmo & Hti & Hpo & HN & Hpw & Hse & Hlc & Hlt
                       & Hli & Hlp & Hlts).
    unfold improvement_steps, same_call_inputs.
    cbn [state mocap time policy num_trajectory timestep_power settings
         candidate_policy trajectory improvement_step parameters_scratch
         times_scratch set_improvement_step].
    rewrite !length_put, !LogScale_length.
    repeat split; assumption. }
  assert (HN : num_trajectory q = num_trajectory p) by apply Ha.
  unfold Rollouts, Rollouts_on.
  change (WorkerId E1 i) with (fun _ : Z => 0).
  change (WorkerId E2 i) with (fun _ : Z => 0).
  change (num_trajectory (improvement_steps E1 (copy_candidates p)))
    with (num_trajectory p).
  change (num_trajectory (improvement_steps E2 (copy_candidates q)))
    with (num_trajectory q).
  rewrite HN. fold n. cbv zeta.
  destruct (Rollouts_on_agree n n h (fun _ : Z => 0)
              (improvement_steps E1 (copy_candidates p))
              (improvement_steps E2 (copy_candidates q)))
    as (H1 & H2 & H3 & H4); try assumption; [lia|].
  split; [split; [|split]|]; assumption.
Qed.

(** The scan reads the returns of the first [n] trajectories. *)
Lemma evaluate_rollouts_agree (n : nat) (trs1 trs2 : list Trajectory) c w :
  agree n trs1 trs2 ->
  evaluate_rollouts n trs1 c w = evaluate_rollouts n trs2 c w.
Proof.
  revert c w. induction n as [|n IH]; intros c w Ha; simpl; [reflexivity|].
  rewrite <- (agree_lookup_total (S n) trs1 trs2 n Ha) by lia.
  assert (agree n trs1 trs2) by (apply (agree_mono (S n)); [lia|assumption]).
  destruct (_ <? _)%float; apply IH; assumption.
Qed.

(** Adopting winner [w < n] reads candidate, trajectory and step size
    [w] and writes slot 0. *)
Lemma adopt_winner_agree (n : nat) c_prev c_best w p q :
  agree_candidates n p q -> 0 <= w < Z.of_nat n ->
  agree_candidates n (adopt_winner c_prev c_best w p)
                     (adopt_winner c_prev c_best w q).
Proof.
  intros (Hin & Hc & Htr) Hw.
  pose proof Hin as (Hst & Hmo & Hti & Hpo & HN & Hpw & Hse & Hlc & Hlt & Hli
                     & Hlp & Hlts).
  unfold adopt_winner.
  cbn [candidate_policy trajectory set_candidate_policy set_trajectory
       set_winner set_diagnostics improvement_step gradient_dV0].
  split; [|split].
  - unfold same_call_inputs. simpl. rewrite !length_put.
    repeat split; assumption.
  - simpl. rewrite <- (agree_get n _ _ 0 Hc), <- (agree_get n _ _ w Hc) by lia.
    apply agree_put. assumption.
  - simpl. rewrite <- (agree_get n _ _ w Htr) by lia.
    apply agree_put. assumption.
Qed.

(** Lines 264-307: after an iteration the two planners are in step. *)
Lemma rollout_stage_agree h i c_prev c_best t1 t2 p q :
  agree_candidates 1 p q -> 1 <= p.(num_trajectory) ->
  (rollout_stage E1 h i c_prev c_best t1 p).1.1
  = (rollout_stage E2 h i c_prev c_best t2 q).1.1
  /\ synced (rollout_stage E1 h i c_prev c_best t1 p).2
            (rollout_stage E2 h i c_prev c_best t2 q).2.
Proof.
  intros Ha HN1.
  destruct (rollouts_of_stage_agree h i p q Ha) as (Ha1 & Hs1).
  pose proof (rollouts_of_stage_frame E1 h i p)
    as (_ & _ & _ & _ & HNp & _).
  unfold rollout_stage, select_winner.
  set (p1 := Rollouts E1 h i (improvement_steps E1 (copy_candidates p))) in *.
  set (q1 := Rollouts E2 h i (improvement_steps E2 (copy_candidates q))) in *.
  assert (HNq : num_trajectory q1 = num_trajectory p1) by apply Ha1.
  rewrite HNq, HNp.
  rewrite <- (evaluate_rollouts_agree _ p1.(trajectory) q1.(trajectory))
    by apply Ha1.
  destruct (evaluate_rollouts _ _ _ _) as [c' w] eqn:Hev.
  assert (Hw : 0 <= w < num_trajectory p).
  { destruct (evaluate_rollouts_outcome _ _ _ _ _ _ Hev)
      as [(_ & -> & _)|(_ & Hw & _)]; lia. }
  cbn [fst snd]. split; [reflexivity|].
  split; [|split].
  - change (num_trajectory (adopt_winner c_prev c' w p1))
      with (num_trajectory p1).
    rewrite HNp. apply adopt_winner_agree; [assumption|lia].
  - reflexivity.
  - change (winner (adopt_winner c_prev c' w p1)) with w.
    change (num_trajectory (adopt_winner c_prev c' w p1))
      with (num_trajectory p1).
    rewrite HNp. assumption.
Qed.

Lemma synced_agree_1 p q : synced p q -> agree_candidates 1 p q.
Proof.
  intros ((Hin & Hc & Htr) & _ & Hw).
  split; [assumption|split]; eapply agree_mono; try eassumption; lia.
Qed.

(** The gradient stage keeps two planners in step. *)
Lemma gradient_stage_synced h i t1 t2 p q :
  synced p q ->
  synced (gradient_stage E1 h i t1 p).2 (gradient_stage E2 h i t2 q).2.
Proof.
  intros (Ha & Hw & Hr).
  destruct (gradient_stage_agree (Z.to_nat p.(num_trajectory)) h i t1 t2 p q)
    as (_ & Ha' & _ & Hw1 & Hw2 & _); [assumption|lia|].
  destruct (gradient_stage E1 h i t1 p) as [[gd t'] p'] eqn:Hg.
  destruct (gradient_stage_frame E1 _ _ _ _ _ _ _ Hg)
    as ((_ & _ & _ & _ & HN & _) & _).
  cbn [snd] in *. unfold synced. rewrite HN, Hw1, Hw2. auto.
Qed.

(** From two planners in step the improvement loop ends the same way and
    leaves them in step. *)
Lemma improvement_loop_synced n h i c_prev c_best t1 t2 p q :
  synced p q ->
  match improvement_loop E1 n h i c_prev c_best t1 p,
        improvement_loop E2 n h i c_prev c_best t2 q with
  | LoopDone c1 _ p', LoopDone c2 _ q' => c1 = c2 /\ synced p' q'
  | LoopFailed i1 _ p', LoopFailed i2 _ q' => i1 = i2 /\ synced p' q'
  | _, _ => False
  end.
Proof.
  revert i c_best t1 t2 p q.
  induction n as [|n IH]; intros i c_best t1 t2 p q Hs; simpl.
  - auto.
  - pose proof (gradient_stage_synced h i t1 t2 p q Hs) as Hs1.
    destruct (gradient_stage_agree 1 h i t1 t2 p q) as (Hgd & _);
      [apply synced_agree_1; assumption|lia|].
    destruct (gradient_stage E1 h i t1 p) as [[gd1 t1'] p1].
    destruct (gradient_stage E2 h i t2 q) as [[gd2 t2'] q1].
    cbn [fst snd] in *. subst gd2.
    destruct (gd1 =? 0); [|auto].
    destruct (rollout_stage_agree h i c_prev c_best t1' t2' p1 q1)
      as (Hc & Hs2);
      [apply synced_agree_1; assumption|destruct Hs1 as (_ & _ & ?); lia|].
    destruct (rollout_stage E1 h i c_prev c_best t1' p1) as [[c1 t1''] p2].
    destruct (rollout_stage E2 h i c_prev c_best t2' q1) as [[c2 t2''] q2].
    cbn [fst snd] in *. subst c2. apply IH. assumption.
Qed.

(** The improvement loop of two calls with the same inputs: both loops
    end the same way; once an iteration has run the planners are in
    step, and a loop that fails in its first iteration has written
    neither the winner nor a trajectory. *)
Lemma improvement_loop_agree n h i c_prev c_best t1 t2 p q :
  agree_candidates 1 p q -> 1 <= p.(num_trajectory) -> (0 < n)%nat ->
  match improvement_loop E1 n h i c_prev c_best t1 p,
        improvement_loop E2 n h i c_prev c_best t2 q with
  | LoopDone c1 _ p', LoopDone c2 _ q' => c1 = c2 /\ synced p' q'
  | LoopFailed i1 _ p', LoopFailed i2 _ q' =>
      i1 = i2
      /\ (synced p' q'
          \/ (agree_candidates 1 p' q'
              /\ p'.(winner) = p.(winner) /\ p'.(trajectory) = p.(trajectory)
              /\ q'.(winner) = q.(winner) /\ q'.(trajectory) = q.(trajectory)))
  | _, _ => False
  end.
Proof.
  intros Ha HN Hn. destruct n as [|n]; [lia|]. simpl.
  destruct (gradient_stage_agree 1 h i t1 t2 p q)
    as (Hgd & Ha1 & _ & Hw1 & Hw2 & Ht1 & Ht2); [assumption|lia|].
  destruct (gradient_stage E1 h i t1 p) as [[gd1 t1'] p1] eqn:Hg.
  destruct (gradient_stage_frame E1 _ _ _ _ _ _ _ Hg)
    as ((_ & _ & _ & _ & HN1 & _) & _).
  destruct (gradient_stage E2 h i t2 q) as [[gd2 t2'] q1].
  cbn [fst snd] in *. subst gd2.
  destruct (gd1 =? 0).
  - destruct (rollout_stage_agree h i c_prev c_best t1' t2' p1 q1)
      as (Hc & Hs2); [assumption|lia|].
    destruct (rollout_stage E1 h i c_prev c_best t1' p1) as [[c1 t1''] p2].
    destruct (rollout_stage E2 h i c_prev c_best t2' q1) as [[c2 t2''] q2].
    cbn [fst snd] in *. subst c2.
    pose proof (improvement_loop_synced n h (i + 1) c_prev c1 t1'' t2'' p2 q2
                  Hs2) as Hl.
    destruct (improvement_loop E1 n h (i + 1) c_prev c1 t1'' p2),
             (improvement_loop E2 n h (i + 1) c_prev c1 t2'' q2);
      try assumption.
    destruct Hl as [-> Hl]. auto.
  - split; [reflexivity|]. right. auto.
Qed.

Lemma mju_min_int_idem (a b : Z) :
  mju_min_int (mju_min_int a b) b = mju_min_int a b.
Proof.
  unfold mju_min_int. destruct (Z.leb_spec a b) as [Hle|Hgt].
  - rewrite (proj2 (Z.leb_le _ _) Hle). reflexivity.
  - rewrite Z.leb_refl. reflexivity.
Qed.

Lemma put_0_get {A} `{Inhabited A} (l : list A) (x : A) :
  put l 0 x = put l 0 (get (put l 0 x) 0).
Proof. destruct l; reflexivity. Qed.

Lemma put_0_self {A} `{Inhabited A} (l : list A) : put l 0 (get l 0) = l.
Proof. destruct l; reflexivity. Qed.

(** What the nominal stage keeps of the planner it is called on. *)
Lemma nominal_stage_shape h p :
  let v := Z.to_nat E.(nu) in
  let K := Z.to_nat p.(policy).(num_spline_points) in
  0 <= E.(nu) ->
  (forall c y, length (E.(Action) c y) = v) ->
  (1 <= length p.(candidate_policy))%nat ->
  (K * v <= length p.(parameters_scratch))%nat ->
  let p' := (nominal_stage E1 h p).2 in
  same_call_inputs p
    (set_num_trajectory p.(num_trajectory) (set_policy p.(policy) p'))
  /\ p'.(winner) = p.(winner)
  /\ p'.(trajectory) = put p.(trajectory) 0 (get p'.(trajectory) 0)
  /\ p'.(num_trajectory) = mju_min_int p.(num_trajectory) E.(kMaxTrajectory)
  /\ p'.(settings) = p.(settings)
  /\ p'.(policy).(num_spline_points) = p.(policy).(num_spline_points).
Proof.
  intros v K Hnu Hact Hcap Hps.
  unfold nominal_stage. cbn [snd].
  set (p3 := set_candidate_policy _ (set_policy _ (set_num_trajectory _ p))).
  assert (Hcp3 : get p3.(candidate_policy) 0
                 = set_num_parameters (E.(nu) * p.(policy).(num_spline_points))
                     p.(policy))
    by (unfold p3; simpl; apply get_put_eq; lia).
  unfold NominalTrajectory, ResamplePolicy. rewrite Hcp3.
  cbn [num_spline_points set_num_parameters]. fold K.
  set (cp := set_num_parameters _ _).
  set (s := time_shift E1 h _).
  destruct (resample_points_agree K 0 cp p3.(time) s p3.(parameters_scratch)
              p3.(parameters_scratch) p3.(times_scratch) p3.(times_scratch))
    as (_ & Hl & _); try assumption; try reflexivity.
  pose proof (resample_points_length E1 K 0 cp p3.(time) s
                p3.(parameters_scratch) p3.(times_scratch)) as Hlt.
  destruct (resample_points E1 K 0 cp p3.(time) s p3.(parameters_scratch)
              p3.(times_scratch)) as [ps ts].
  cbn [fst snd] in Hl, Hlt.
  cbn [trajectory set_trajectory set_candidate_policy set_scratch winner
       num_trajectory settings policy].
  split; [|split; [|split; [|split; [|split]]]]; try reflexivity.
  - unfold same_call_inputs. simpl. rewrite !length_put.
    repeat split; assumption.
  - apply put_0_get.
Qed.

Lemma improvement_loop_steps_length n h i c_prev c_best t p :
  match improvement_loop E1 n h i c_prev c_best t p with
  | LoopDone _ _ p' | LoopFailed _ _ p' =>
      length p'.(improvement_step) = length p.(improvement_step)
  end.
Proof.
  revert i c_best t p. induction n as [|n IH]; intros i c_best t p; simpl;
    [reflexivity|].
  assert (Hg : (gradient_stage E1 h i t p).2.(improvement_step)
               = p.(improvement_step)).
  { unfold gradient_stage.
    destruct (gradient_Compute E1 _ _ _ _) as [[gd k'] dV0]. reflexivity. }
  destruct (gradient_stage E1 h i t p) as [[gd t1] p1]. cbn [snd] in Hg.
  destruct (gd =? 0); [|congruence].
  pose proof (rollout_stage_improvement_step E1 h i c_prev c_best t1 p1) as Hr.
  destruct (rollout_stage E1 h i c_prev c_best t1 p1) as [[c' t2] p2].
  cbn [snd] in Hr. specialize (IH (i + 1) c' t2 p2).
  assert (Hl : length p2.(improvement_step) = length p.(improvement_step)).
  { rewrite Hr. unfold improvement_steps. simpl.
    rewrite length_put, LogScale_length. congruence. }
  destruct (improvement_loop E1 n h (i + 1) c_prev c' t2 p2); congruence.
Qed.

(** What a call keeps of the planner it is called on: the state
    snapshot, the settings and the capacity of every array. It clamps
    the candidate count. *)
Lemma OptimizePolicy_shape h p :
  let v := Z.to_nat E.(nu) in
  let K := Z.to_nat p.(policy).(num_spline_points) in
  0 <= E.(nu) ->
  (forall c y, length (E.(Action) c y) = v) ->
  (1 <= length p.(candidate_policy))%nat ->
  (K * v <= length p.(parameters_scratch))%nat ->
  let p' := (OptimizePolicy E1 h p).2 in
  same_call_inputs p
    (set_num_trajectory p.(num_trajectory) (set_policy p.(policy) p'))
  /\ p'.(num_trajectory) = mju_min_int p.(num_trajectory) E.(kMaxTrajectory).
Proof.
  intros v K Hnu Hact Hcap Hps.
  destruct (nominal_stage_shape h p Hnu Hact Hcap Hps)
    as (Hs & _ & _ & HN & _).
  unfold OptimizePolicy.
  destruct (nominal_stage E1 h p) as [[c_prev t] p1]. cbn [snd] in Hs, HN.
  pose proof (improvement_loop_frame E1
                (Z.to_nat p1.(settings).(max_rollout)) h 0 c_prev c_prev t p1)
    as Hf.
  pose proof (improvement_loop_steps_length
                (Z.to_nat p1.(settings).(max_rollout)) h 0 c_prev c_prev t p1)
    as Hl.
  unfold same_call_inputs in Hs. simpl in Hs.
  destruct Hs as (Hst & Hmo & Hti & _ & _ & Hpw & Hse & Hlc & Hlt & Hli
                  & Hlp & Hlts).
  destruct (improvement_loop E1 _ h 0 c_prev c_prev t p1) as [c' t' p2|j t' p2];
    destruct Hf as ((Hst2 & Hmo2 & Hti2 & _ & HN2 & Hpw2 & Hse2 & _ & Hps2
                     & Hts2 & Hlt2 & Hlc2) & _);
    cbn [snd]; (split; [|try (unfold publish; destruct (_ <=? _)%float; simpl);
                         congruence]);
    unfold same_call_inputs, publish; try destruct (_ <=? _)%float; simpl;
    repeat split; congruence.
Qed.

(** The candidate count reaches a call through the clamp of line 158
    only. *)
Lemma OptimizePolicy_clamp (E' : Collaborators) h (n : Z) q :
  mju_min_int n E'.(kMaxTrajectory)
  = mju_min_int q.(num_trajectory) E'.(kMaxTrajectory) ->
  OptimizePolicy E' h (set_num_trajectory n q) = OptimizePolicy E' h q.
Proof.
  intros Hn. unfold OptimizePolicy, nominal_stage.
  cbn [num_trajectory set_num_trajectory]. rewrite Hn. reflexivity.
Qed.

Lemma synced_BestTrajectory p q :
  synced p q -> BestTrajectory q = BestTrajectory p.
Proof.
  intros ((_ & _ & Htr) & Hw & Hr). unfold BestTrajectory. rewrite Hw.
  symmetry. apply (agree_get _ _ _ _ Htr). lia.
Qed.

(** Two calls on planners that are handed the same inputs, whatever
    earlier calls left in their candidates, trajectories, step sizes,
    scratch vectors, diagnostics and timers, and whatever their
    stopwatches read: both end the same way; when they complete they
    publish the same policy and have the same winner and winner
    trajectory. *)
Lemma OptimizePolicy_agree h p q :
  let v := Z.to_nat E.(nu) in
  let K := Z.to_nat p.(policy).(num_spline_points) in
  same_call_inputs p q ->
  0 <= E.(nu) ->
  (forall c y, length (E.(Action) c y) = v) ->
  (1 <= length p.(candidate_policy))%nat ->
  (K * v <= length p.(parameters_scratch))%nat ->
  (K <= length p.(times_scratch))%nat ->
  1 <= p.(num_trajectory) -> 1 <= E.(kMaxTrajectory) ->
  1 <= p.(settings).(max_rollout) ->
  match OptimizePolicy E1 h p, OptimizePolicy E2 h q with
  | (Completed, p'), (Completed, q') =>
      q'.(winner) = p'.(winner)
      /\ BestTrajectory q' = BestTrajectory p'
      /\ q'.(policy) = p'.(policy)
  | (GradientFailure i1 _, p'), (GradientFailure i2 _, q') =>
      i1 = i2 /\ q'.(policy) = p'.(policy)
      /\ (synced p' q'
          \/ (get q'.(trajectory) 0 = get p'.(trajectory) 0
              /\ p'.(winner) = p.(winner)
              /\ p'.(trajectory) = put p.(trajectory) 0 (get p'.(trajectory) 0)
              /\ q'.(winner) = q.(winner)
              /\ q'.(trajectory)
                 = put q.(trajectory) 0 (get q'.(trajectory) 0)))
  | _, _ => False
  end.
Proof.
  intros v K Hin Hnu Hact Hcap Hps Hts HN HkM Hmax.
  destruct (nominal_stage_agree h p q Hin Hnu Hact Hcap Hps Hts) as (Hc & Ha).
  destruct (nominal_stage_shape h p Hnu Hact Hcap Hps)
    as (_ & Hw1 & Ht1 & HN1 & Hse1 & _).
  assert (Hq : (nominal_stage E2 h q).2.(winner) = q.(winner)
               /\ (nominal_stage E2 h q).2.(trajectory)
                  = put q.(trajectory) 0
                      (get (nominal_stage E2 h q).2.(trajectory) 0)).
  { unfold nominal_stage, NominalTrajectory, ResamplePolicy. cbn [snd].
    destruct (resample_points E2 _ _ _ _ _ _ _) as [ps ts].
    split; [reflexivity|]. apply put_0_get. }
  destruct Hq as (Hw2 & Ht2).
  unfold OptimizePolicy.
  destruct (nominal_stage E1 h p) as [[c_prev t1] p1].
  destruct (nominal_stage E2 h q) as [[c_prev2 t2] q1].
  cbn [fst snd] in *. subst c_prev2.
  assert (Hse : settings q1 = settings p1) by apply Ha.
  rewrite Hse, Hse1.
  assert (HN1' : 1 <= num_trajectory p1).
  { rewrite HN1. unfold mju_min_int. destruct (_ <=? _); lia. }
  pose proof (improvement_loop_agree
                (Z.to_nat p.(settings).(max_rollout)) h 0 c_prev c_prev t1 t2
                p1 q1 Ha HN1' ltac:(lia)) as Hl.
  destruct (improvement_loop E1 _ h 0 c_prev c_prev t1 p1)
    as [c1 t1' p2|i1 t1' p2],
    (improvement_loop E2 _ h 0 c_prev c_prev t2 q1)
    as [c2 t2' q2|i2 t2' q2]; try contradiction.
  - destruct Hl as (-> & Hs).
    pose proof Hs as ((Hin2 & Hc2 & Htr2) & Hw & Hr).
    pose proof Hin2 as (_ & _ & _ & Hpo & HNq & _).
    destruct (publish_frame E1 c_prev c2 t1' p2) as (Wp & Tp & _ & _ & Pp).
    destruct (publish_frame E2 c_prev c2 t2' q2) as (Wq & Tq & _ & _ & Pq).
    cbv zeta in *.
    assert (HW : winner (publish E2 c_prev c2 t2' q2)
                 = winner (publish E1 c_prev c2 t1' p2)).
    { rewrite Wp, Wq, HNq, Hw. reflexivity. }
    assert (HR : 0 <= winner (publish E1 c_prev c2 t1' p2)
                 < num_trajectory p2).
    { rewrite Wp. destruct (_ <=? _)%float; lia. }
    split; [exact HW|]. split.
    + unfold BestTrajectory. rewrite HW, Tp, Tq. symmetry.
      apply (agree_get _ _ _ _ Htr2). lia.
    + rewrite Pp, Pq, HW, Hpo.
      rewrite (agree_get _ _ _ (winner (publish E1 c_prev c2 t1' p2)) Hc2)
        by lia.
      reflexivity.
  - destruct Hl as (-> & [Hs|(Ha' & Hwp & Htp & Hwq & Htq)]).
    + split; [reflexivity|]. split; [apply Hs|]. left. assumption.
    + split; [reflexivity|]. split; [apply Ha'|]. right.
      destruct Ha' as (_ & _ & Htr').
      split; [symmetry; apply (agree_get 1 _ _ 0 Htr'); lia|].
      rewrite Hwp, Hwq, Htp, Htq. auto.
Qed.

(** C8: a call of [OptimizePolicy] on a single-worker pool, then the
    same call again, on the planner the first call left, handed the same
    state snapshot, time, horizon and initial policy. With at least one
    improvement iteration ([max_rollout = 1] in particular), at least
    one candidate and scratch vectors that hold the resampled policy,
    both calls end the same way (completed, or aborted by the gradient
    solver in the same iteration) and leave the same winner and the same
    winner trajectory, bit for bit, and the same nominal policy,
    whatever the stopwatches of the two calls read. The collaborators
    are functions of their arguments: the rollout of a policy is
    determined by the policy, the model, the initial state and the
    worker. *)
Theorem OptimizePolicy_deterministic h p :
  let v := Z.to_nat E.(nu) in
  let K := Z.to_nat p.(policy).(num_spline_points) in
  0 <= E.(nu) ->
  (forall c y, length (E.(Action) c y) = v) ->
  (1 <= length p.(candidate_policy))%nat ->
  (K * v <= length p.(parameters_scratch))%nat ->
  (K <= length p.(times_scratch))%nat ->
  1 <= p.(num_trajectory) -> 1 <= E.(kMaxTrajectory) ->
  1 <= p.(settings).(max_rollout) ->
  let first := OptimizePolicy E1 h p in
  let second := OptimizePolicy E2 h (set_policy p.(policy) first.2) in
  match first.1, second.1 with
  | Completed, Completed => True
  | GradientFailure i _, GradientFailure j _ => i = j
  | _, _ => False
  end
  /\ second.2.(winner) = first.2.(winner)
  /\ BestTrajectory second.2 = BestTrajectory first.2
  /\ second.2.(policy) = first.2.(policy).
Proof.
  intros v K Hnu Hact Hcap Hps Hts HN HkM Hmax first second.
  destruct (OptimizePolicy_shape h p Hnu Hact Hcap Hps) as (Hin & HN').
  fold first in Hin, HN'.
  set (q := set_num_trajectory p.(num_trajectory)
              (set_policy p.(policy) first.2)) in *.
  assert (Hq : second = OptimizePolicy E2 h q).
  { subst second q. symmetry. apply OptimizePolicy_clamp.
    cbn [num_trajectory set_policy]. rewrite HN'.
    symmetry. apply mju_min_int_idem. }
  pose proof (OptimizePolicy_agree h p q Hin Hnu Hact Hcap Hps Hts HN HkM Hmax)
    as Hag.
  fold first in Hag. rewrite <- Hq in Hag.
  destruct first as [[|i1 l1] p'], second as [[|i2 l2] q']; cbn [fst snd] in *;
    try contradiction.
  - destruct Hag as (Hw & Hb & Hp). auto.
  - destruct Hag as (-> & Hp & [Hs|(H0 & Hwp & Htp & Hwq & Htq)]).
    + split; [reflexivity|]. split; [apply Hs|].
      split; [apply synced_BestTrajectory; assumption|assumption].
    + assert (Ht : trajectory q' = trajectory p').
      { rewrite Htq, H0. subst q. cbn [trajectory set_num_trajectory set_policy].
        apply put_0_self. }
      assert (Hw : winner q' = winner p') by (rewrite Hwq; reflexivity).
      split; [reflexivity|]. split; [assumption|].
      split; [unfold BestTrajectory; rewrite Ht, Hw; reflexivity|assumption].
Qed.

End TwoCalls.

(** C8 at a concrete call: three candidates, one iteration; the second
    call starts from what the first left in the candidates, the
    trajectories, the step sizes and the timers, and reads another
    clock. Both calls complete with the full-step candidate as winner. *)
Lemma OptimizePolicy_deterministic_witness :
  let p := Toy.planner 1 0 2 3 1 in
  let first := OptimizePolicy (single_worker Toy.E Toy.micros) 3 p in
  let second :=
    OptimizePolicy (single_worker Toy.E (fun _ _ => 0)) 3
      (set_policy p.(policy) first.2) in
  first.1 = Completed /\ second.1 = Completed
  /\ first.2.(winner) = 0
  /\ second.2.(winner) = first.2.(winner)
  /\ BestTrajectory second.2 = BestTrajectory first.2
  /\ second.2.(policy) = first.2.(policy)
  /\ second.2.(compute_time) <> first.2.(compute_time).
Proof.
  intros p first second.
  destruct (OptimizePolicy_deterministic Toy.E Toy.micros (fun _ _ => 0) 3 p)
    as (_ & Hw & Hb & Hp).
  - simpl. lia.
  - intros c y. reflexivity.
  - simpl. lia.
  - simpl. lia.
  - simpl. lia.
  - simpl. lia.
  - simpl. lia.
  - simpl. lia.
  - split; [vm_compute; reflexivity|]. split; [vm_compute; reflexivity|].
    split; [vm_compute; reflexivity|].
    split; [exact Hw|]. split; [exact Hb|]. split; [exact Hp|].
    vm_compute. discriminate.
Defined.

(** ** What a call leaves alone *)

Section CallFrame.
Context (E : Collaborators).

(** A call of [OptimizePolicy], completed or aborted, writes neither
    the state snapshot ([state], [mocap], [time]) nor the settings nor
    the time-step power; it replaces the candidate count by
    [min(num_trajectory, kMaxTrajectory)] (line 158) and keeps the
    number of candidate and trajectory slots; and of the nominal policy
    it leaves the representation, the number of spline points, the
    parameter update and the gains as they were. *)
Theorem OptimizePolicy_frame h p :
  let p' := (OptimizePolicy E h p).2 in
  p'.(state) = p.(state) /\ p'.(mocap) = p.(mocap) /\ p'.(time) = p.(time)
  /\ p'.(settings) = p.(settings)
  /\ p'.(timestep_power) = p.(timestep_power)
  /\ p'.(num_trajectory) = mju_min_int p.(num_trajectory) E.(kMaxTrajectory)
  /\ length p'.(trajectory) = length p.(trajectory)
  /\ length p'.(candidate_policy) = length p.(candidate_policy)
  /\ p'.(policy).(representation) = p.(policy).(representation)
  /\ p'.(policy).(num_spline_points) = p.(policy).(num_spline_points)
  /\ p'.(policy).(num_parameters)
     = E.(nu) * p.(policy).(num_spline_points).
Proof.
  intros p'. subst p'. unfold OptimizePolicy.
  assert (Hn : let p1 := (nominal_stage E h p).2 in
               p1.(state) = p.(state) /\ p1.(mocap) = p.(mocap)
               /\ p1.(time) = p.(time) /\ p1.(settings) = p.(settings)
               /\ p1.(timestep_power) = p.(timestep_power)
               /\ p1.(num_trajectory)
                  = mju_min_int p.(num_trajectory) E.(kMaxTrajectory)
               /\ length p1.(trajectory) = length p.(trajectory)
               /\ length p1.(candidate_policy) = length p.(candidate_policy)
               /\ p1.(policy)
                  = set_num_parameters
                      (E.(nu) * p.(policy).(num_spline_points)) p.(policy)).
  { unfold nominal_stage, NominalTrajectory, ResamplePolicy. cbn [snd].
    destruct (resample_points E _ _ _ _ _ _ _) as [ps ts]. simpl.
    rewrite !length_put. repeat split. }
  destruct (nominal_stage E h p) as [[c_prev t] p1]. cbv zeta in Hn.
  cbn [snd] in Hn.
  destruct Hn as (Hst & Hmo & Hti & Hse & Hpw & HN & Hlt & Hlc & Hpo).
  pose proof (improvement_loop_frame E
                (Z.to_nat p1.(settings).(max_rollout)) h 0 c_prev c_prev t p1)
    as Hf.
  destruct (improvement_loop E _ h 0 c_prev c_prev t p1)
    as [c' t' p2|j t' p2];
    destruct Hf as ((Hst2 & Hmo2 & Hti2 & Hpo2 & HN2 & Hpw2 & Hse2 & _ & _
                     & _ & Hlt2 & Hlc2) & _);
    cbn [snd]; unfold publish; try destruct (_ <=? _)%float; simpl;
    rewrite ?Hpo2, ?Hpo; simpl; repeat split; congruence.
Qed.

(** A completed call stores its stopwatch readings in the planner's
    timers (lines 331-336): the nominal stage's reading and the policy
    update's reading as they are. *)
Theorem OptimizePolicy_completed_timers h p p' :
  OptimizePolicy E h p = (Completed, p') ->
  p'.(compute_time).(nominal_time)
  = of_int (E.(stage_micros) NominalStage 0)
  /\ p'.(compute_time).(policy_update_time)
     = add_micros 0 (E.(stage_micros) PolicyUpdateStage 0).
Proof.
  unfold OptimizePolicy.
  destruct (nominal_stage E h p) as [[c_prev t] p1] eqn:Hn.
  destruct (nominal_stage_frame E _ _ _ _ _ Hn)
    as (_ & _ & _ & _ & _ & _ & _ & _ & _ & _ & Ht).
  pose proof (improvement_loop_frame E
                (Z.to_nat p1.(settings).(max_rollout)) h 0 c_prev c_prev t p1)
    as Hf.
  destruct (improvement_loop E _ h 0 c_prev c_prev t p1)
    as [c' t' p2|j t' p2]; [|discriminate].
  destruct Hf as (_ & Hnt & Hpt). intros Hr. injection Hr as <-.
  unfold publish. simpl. rewrite Hnt, Hpt, Ht. simpl. split; reflexivity.
Qed.

End CallFrame.

(** [OptimizePolicy_completed_timers] at a concrete call. *)
Lemma OptimizePolicy_completed_timers_witness :
  let p := Toy.planner 1 0 2 3 1 in
  let p' := (OptimizePolicy Toy.E 3 p).2 in
  p'.(compute_time).(nominal_time) = 100%float
  /\ p'.(compute_time).(policy_update_time) = 600%float.
Proof.
  intros p p'.
  destruct (OptimizePolicy_completed_timers Toy.E 3 p p') as (H1 & H2).
  - vm_compute. reflexivity.
  - rewrite H1, H2. vm_compute. split; reflexivity.
Defined.

(** A completed call reads, of the planner it is called on, the state
    snapshot, the time, the nominal policy, the candidate count and the
    settings only: on a single-worker pool, a call on a planner [q]
    handed the same inputs as [p], whatever earlier calls left in its
    candidates, trajectories, step sizes, scratch vectors, winner,
    diagnostics and timers, and whatever its stopwatches read, completes
    as well, with the same winner, the same winner trajectory and the
    same published policy. *)
Theorem OptimizePolicy_reads_inputs_only (E : Collaborators)
    (m1 m2 : Stage -> Z -> Z) h p q p' :
  let v := Z.to_nat E.(nu) in
  let K := Z.to_nat p.(policy).(num_spline_points) in
  same_call_inputs p q ->
  0 <= E.(nu) ->
  (forall c y, length (E.(Action) c y) = v) ->
  (1 <= length p.(candidate_policy))%nat ->
  (K * v <= length p.(parameters_scratch))%nat ->
  (K <= length p.(times_scratch))%nat ->
  1 <= p.(num_trajectory) -> 1 <= E.(kMaxTrajectory) ->
  1 <= p.(settings).(max_rollout) ->
  OptimizePolicy (single_worker E m1) h p = (Completed, p') ->
  let r := OptimizePolicy (single_worker E m2) h q in
  r.1 = Completed
  /\ r.2.(winner) = p'.(winner)
  /\ BestTrajectory r.2 = BestTrajectory p'
  /\ r.2.(policy) = p'.(policy).
Proof.
  intros v K Hin Hnu Hact Hcap Hps Hts HN HkM Hmax Hp r.
  pose proof (OptimizePolicy_agree E m1 m2 h p q Hin Hnu Hact Hcap Hps Hts
                HN HkM Hmax) as Hag.
  rewrite Hp in Hag. subst r.
  destruct (OptimizePolicy (single_worker E m2) h q) as [[|i2 l2] q'];
    [|contradiction].
  split; [reflexivity|exact Hag].
Qed.

(** [OptimizePolicy_reads_inputs_only] at a concrete pair of planners:
    the second holds stale trajectories, a stale winner and other
    timers. *)
Lemma OptimizePolicy_reads_inputs_only_witness :
  let p := Toy.planner 1 0 2 3 1 in
  let q := Toy.returns [5; 6; 7; 8]%float (set_winner 2 p) in
  let r1 := OptimizePolicy (single_worker Toy.E Toy.micros) 3 p in
  let r2 := OptimizePolicy (single_worker Toy.E (fun _ _ => 0)) 3 q in
  q.(trajectory) <> p.(trajectory)
  /\ r2.1 = Completed
  /\ r2.2.(winner) = r1.2.(winner)
  /\ BestTrajectory r2.2 = BestTrajectory r1.2
  /\ r2.2.(policy) = r1.2.(policy).
Proof.
  intros p q r1 r2. split; [vm_compute; discriminate|].
  apply (OptimizePolicy_reads_inputs_only Toy.E Toy.micros (fun _ _ => 0) 3
           p q r1.2).
  - vm_compute. repeat split; reflexivity.
  - simpl. lia.
  - intros c y. reflexivity.
  - simpl. lia.
  - simpl. lia.
  - simpl. lia.
  - simpl. lia.
  - simpl. lia.
  - simpl. lia.
  - vm_compute. reflexivity.
Defined.

(** ** What [ResamplePolicy] writes into the working policy *)

Lemma write_block_drop (buf : list float) (off : nat) (vals : list float)
    (m : nat) :
  (off + length vals <= m)%nat -> (off <= length buf)%nat ->
  drop m (write_block buf off vals) = drop m buf.
Proof.
  intros Hm Hoff. unfold write_block.
  rewrite drop_app_ge by (rewrite length_take; lia).
  rewrite length_take, Nat.min_l by lia.
  rewrite drop_app_ge by lia. rewrite drop_drop. f_equal. lia.
Qed.

Section ResampledParameters.
Context (E : Collaborators).

(** The loop of [ResamplePolicy] fills blocks [t .. t + n - 1] of
    [parameters_scratch] with the actions of the policy at the knot
    times. *)
Lemma resample_points_parameters (n t : nat) cp x s (ps ts : list float) :
  let v := Z.to_nat E.(nu) in
  0 <= E.(nu) ->
  (forall c y, length (E.(Action) c y) = v) ->
  ((t + n) * v <= length ps)%nat ->
  (resample_points E n t cp x s ps ts).1
  = take (t * v) ps
    ++ concat (map (fun j => E.(Action) cp (knot_time x s j)) (seq 0 n))
    ++ drop ((t + n) * v) ps.
Proof.
  intros v Hnu Hact. revert t x ps ts.
  induction n as [|n IH]; intros t x ps ts Hcap.
  - simpl. rewrite Nat.add_0_r, take_drop. reflexivity.
  - cbn [resample_points].
    replace (Z.to_nat (Z.of_nat t * E.(nu))) with (t * v)%nat
      by (unfold v; rewrite Z2Nat.inj_mul, Nat2Z.id by lia; reflexivity).
    assert (Hlen : length (write_block ps (t * v) (E.(Action) cp x))
                   = length ps).
    { unfold write_block.
      rewrite !length_app, length_take, length_drop, Hact. lia. }
    rewrite IH by (rewrite Hlen; lia).
    replace (S t * v)%nat with (t * v + length (E.(Action) cp x))%nat
      by (rewrite Hact; lia).
    assert (Htake : take (t * v + length (E.(Action) cp x))
                      (write_block ps (t * v) (E.(Action) cp x))
                    = take (t * v) ps ++ E.(Action) cp x).
    { unfold write_block.
      rewrite take_app_add' by (rewrite length_take; lia).
      rewrite take_app_length. reflexivity. }
    rewrite Htake.
    rewrite write_block_drop by (rewrite ?Hact; lia).
    replace ((S t + n) * v)%nat with ((t + S n) * v)%nat by lia.
    rewrite <- app_assoc. f_equal.
    change (seq 0 (S n)) with (0%nat :: seq 1 n).
    rewrite <- seq_shift. cbn [map concat]. rewrite map_map.
    cbn [knot_time]. rewrite <- app_assoc. reflexivity.
Qed.

(** [ResamplePolicy] evaluates the working policy, as it is on entry, at
    the new knot times and puts the [nu] controls of knot [j] into block
    [j] of its parameters; what the parameter vector holds behind the
    [nu * num_spline_points] resampled entries stays, and so do the
    other members of the working policy apart from the knot times. *)
Theorem ResamplePolicy_parameters h p :
  let cp := get p.(candidate_policy) 0 in
  let K := Z.to_nat cp.(num_spline_points) in
  let v := Z.to_nat E.(nu) in
  let shift := time_shift E h cp.(num_spline_points) in
  let cp' := get (ResamplePolicy E h p).(candidate_policy) 0 in
  0 <= E.(nu) ->
  (forall c y, length (E.(Action) c y) = v) ->
  (1 <= length p.(candidate_policy))%nat ->
  (K * v <= length p.(parameters_scratch))%nat ->
  cp.(num_parameters) = E.(nu) * cp.(num_spline_points) ->
  cp'.(parameters)
  = concat (map (fun j => E.(Action) cp (knot_time p.(time) shift j))
                (seq 0 K))
    ++ drop (K * v) cp.(parameters)
  /\ cp'.(num_parameters) = cp.(num_parameters)
  /\ cp'.(num_spline_points) = cp.(num_spline_points)
  /\ cp'.(representation) = cp.(representation)
  /\ cp'.(parameter_update) = cp.(parameter_update)
  /\ cp'.(k) = cp.(k).
Proof.
  intros cp K v shift cp' Hnu Hact Hc Hcap Hpar. subst cp'.
  unfold ResamplePolicy. fold cp. fold K. fold shift.
  pose proof (resample_points_parameters K 0 cp p.(time) shift
                p.(parameters_scratch) p.(times_scratch) Hnu Hact Hcap)
    as Hps.
  destruct (resample_points E K 0 cp p.(time) shift p.(parameters_scratch)
              p.(times_scratch)) as [ps ts].
  cbn [fst] in Hps. cbn [candidate_policy set_candidate_policy].
  rewrite get_put_eq by lia.
  cbn [parameters num_parameters num_spline_points representation
       parameter_update k set_times set_parameters].
  split; [|repeat split].
  unfold mju_copy. rewrite Hpar.
  assert (HKv : Z.to_nat (E.(nu) * cp.(num_spline_points)) = (K * v)%nat).
  { unfold K, v. destruct (Z.le_gt_cases 0 cp.(num_spline_points)) as [H|H].
    - rewrite (Z2Nat.inj_mul _ _ Hnu H). apply Nat.mul_comm.
    - rewrite (Z2Nat.nonpos cp.(num_spline_points))
        by (apply Z.lt_le_incl; exact H).
      rewrite (Z2Nat.nonpos (_ * _)); [reflexivity|].
      apply Z.mul_nonneg_nonpos; [exact Hnu|apply Z.lt_le_incl; exact H]. }
  rewrite HKv. f_equal.
  rewrite Nat.mul_0_l, take_0 in Hps. cbn [app] in Hps. rewrite Hps.
  assert (Hl : length (concat (map (fun j => E.(Action) cp
                                     (knot_time p.(time) shift j))
                                   (seq 0 K))) = (K * v)%nat).
  { assert (forall l' : list nat,
              length (concat (map (fun j => E.(Action) cp
                                     (knot_time p.(time) shift j)) l'))
              = (length l' * v)%nat) as Hg.
    { induction l' as [|a l' IH]; [reflexivity|].
      cbn [map concat]. rewrite length_app, IH, Hact. simpl. lia. }
    rewrite Hg, length_seq. reflexivity. }
  rewrite take_app_length' by (symmetry; exact Hl). reflexivity.
Qed.

End ResampledParameters.

(** ** The zero step of the line search *)

(** [x + 0 * u] in binary64: for a finite [u] the sum is [x], up to the
    sign of a zero; for an infinite or NaN [u] it is a NaN. *)
Lemma add_zero_scaled (x u : float) :
  let r := (x + 0 * u)%float in
  ((PrimFloat.abs u <? infinity)%float = true ->
   ((x =? 0)%float = false -> r = x)
   /\ (PrimFloat.is_nan x = false -> (r =? x)%float = true))
  /\ ((PrimFloat.abs u <? infinity)%float = false ->
      PrimFloat.is_nan r = true).
Proof.
  intros r. subst r. unfold PrimFloat.is_nan.
  rewrite !FloatAxioms.eqb_spec, FloatAxioms.ltb_spec, FloatAxioms.abs_spec,
    !FloatAxioms.add_spec, !FloatAxioms.mul_spec.
  change (Prim2SF 0) with (S754_zero false).
  change (Prim2SF infinity) with (S754_infinity false).
  split.
  - intros Hu. split.
    + intros Hx. apply Prim2SF_inj. rewrite FloatAxioms.add_spec,
        FloatAxioms.mul_spec.
      change (Prim2SF 0) with (S754_zero false).
      destruct (Prim2SF u) as [su|su| |su mu eu]; try discriminate Hu;
        destruct (Prim2SF x) as [sx|sx| |sx mx ex]; try discriminate Hx;
        reflexivity.
    + intros Hx.
      destruct (Prim2SF u) as [su|su| |su mu eu]; try discriminate Hu;
        destruct (Prim2SF x) as [[]|[]| |[] mx ex]; try discriminate Hx;
        destruct su; cbn; rewrite ?Z.compare_refl, ?Pos.compare_cont_refl;
        reflexivity.
  - intros Hu.
    destruct (Prim2SF u) as [su|[]| |su mu eu]; try discriminate Hu;
      destruct (Prim2SF x) as [sx|sx| |sx mx ex]; reflexivity.
Qed.

Section ZeroStep.
Context (E : Collaborators).

(** The rollout task of a candidate whose step size is 0.0 (the last
    candidate of every iteration): each of its first
    [nu * num_spline_points] parameters is rewritten as
    [x + 0.0 * u], [u] the entry of the update direction. Where [u] is
    finite the parameter keeps its value (a zero may change sign);
    where [u] is infinite or a NaN the parameter becomes a NaN, so the
    candidate rolled out is not the working policy. The parameters
    behind and the other members of the candidate are not written, and
    the trajectory is the rollout of the rewritten candidate. *)
Theorem zero_step_candidate h w (j : nat) p (i : nat) :
  let cp := p.(candidate_policy) !!! j in
  let p' := rollout_task E h w j p in
  let cp' := p'.(candidate_policy) !!! j in
  let n := Z.to_nat (E.(nu) * cp.(num_spline_points)) in
  let x := cp.(parameters) !!! i in
  let u := cp.(parameter_update) !!! i in
  let x' := cp'.(parameters) !!! i in
  p.(improvement_step) !!! j = 0%float ->
  (j < length p.(candidate_policy))%nat ->
  (j < length p.(trajectory))%nat ->
  (i < length cp.(parameters))%nat ->
  (i < length cp.(parameter_update))%nat ->
  ((i < n)%nat ->
   ((PrimFloat.abs u <? infinity)%float = true ->
    ((x =? 0)%float = false -> x' = x)
    /\ (PrimFloat.is_nan x = false -> (x' =? x)%float = true))
   /\ ((PrimFloat.abs u <? infinity)%float = false ->
       PrimFloat.is_nan x' = true))
  /\ ((n <= i)%nat -> x' = x)
  /\ cp'.(times) = cp.(times)
  /\ cp'.(parameter_update) = cp.(parameter_update)
  /\ p'.(trajectory) !!! j
     = E.(Rollout) cp' p.(state) p.(time) p.(mocap) h w.
Proof.
  intros cp p' cp' n x u x' Hstep Hj Hjt Hi Hiu.
  assert (Hcp' : cp' = set_parameters
                         (mju_addScl cp.(parameters) cp.(parameters)
                            cp.(parameter_update) 0
                            (E.(nu) * cp.(num_spline_points))) cp).
  { subst cp' p'. unfold rollout_task.
    cbn [candidate_policy set_trajectory set_candidate_policy].
    rewrite list_lookup_total_insert_eq by lia. fold cp. rewrite Hstep.
    reflexivity. }
  assert (Hx' : x' = mju_addScl cp.(parameters) cp.(parameters)
                       cp.(parameter_update) 0
                       (E.(nu) * cp.(num_spline_points)) !!! i).
  { subst x'. rewrite Hcp'. reflexivity. }
  fold n in Hx'. unfold mju_addScl in Hx'. fold n in Hx'.
  split; [|split; [|split; [|split]]].
  - intros Hin.
    assert (Hr : x' = (x + 0 * u)%float).
    { rewrite Hx'. apply list_lookup_total_correct.
      rewrite lookup_app_l
        by (rewrite length_zip_with, !length_take; lia).
      rewrite lookup_zip_with, !lookup_take_lt by lia.
      subst x u. rewrite !list_lookup_lookup_total_lt by lia. reflexivity. }
    rewrite Hr. apply add_zero_scaled.
  - intros Hni. rewrite Hx'. apply list_lookup_total_correct.
    rewrite lookup_app_r
      by (rewrite length_zip_with, !length_take; lia).
    rewrite length_zip_with, !length_take, lookup_drop.
    subst x. rewrite <- list_lookup_lookup_total_lt by lia.
    f_equal. lia.
  - rewrite Hcp'. reflexivity.
  - rewrite Hcp'. reflexivity.
  - rewrite Hcp'. subst p'. unfold rollout_task.
    cbn [trajectory set_trajectory set_candidate_policy].
    rewrite list_lookup_total_insert_eq by lia. fold cp. rewrite Hstep.
    reflexivity.
Qed.

End ZeroStep.

(** ** The rollout tasks do not interfere *)

Section Isolation.
Context (E : Collaborators) (h : Z) (assign : Z -> Z).

Let task (q : GradientPlanner) (j : nat) : GradientPlanner :=
  rollout_task E h (assign (Z.of_nat j)) j q.

Lemma rollout_task_other (a j : nat) w q :
  j <> a ->
  (rollout_task E h w a q).(candidate_policy) !! j = q.(candidate_policy) !! j
  /\ (rollout_task E h w a q).(trajectory) !! j = q.(trajectory) !! j.
Proof.
  intros Hne. unfold rollout_task. simpl.
  split; apply list_lookup_insert_ne; congruence.
Qed.

Lemma rollout_task_swap (a b : nat) q : task (task q a) b = task (task q b) a.
Proof.
  unfold task. destruct (decide (a = b)) as [->|Hne]; [reflexivity|].
  unfold rollout_task. simpl.
  rewrite !list_lookup_total_insert_ne by congruence.
  unfold set_trajectory, set_candidate_policy. simpl.
  f_equal; apply list_insert_insert_ne; congruence.
Qed.

(** Running the tasks in another order gives the same planner. *)
Lemma fold_tasks_permutation (l1 l2 : list nat) :
  l1 ≡ₚ l2 -> forall q, fold_left task l1 q = fold_left task l2 q.
Proof.
  induction 1 as [|a l1 l2 _ IH|a b l|l1 l2 l3 _ IH1 _ IH2]; intros q.
  - reflexivity.
  - simpl. apply IH.
  - simpl. rewrite rollout_task_swap. reflexivity.
  - rewrite IH1. apply IH2.
Qed.

(** After the tasks of [l], slot [j] holds what task [j] alone leaves
    in it, if [j] is in [l], and what it held before otherwise. *)
Lemma fold_tasks_slot (l : list nat) (j : nat) :
  NoDup l -> forall q,
  (j ∈ l ->
   (fold_left task l q).(candidate_policy) !! j
   = (task q j).(candidate_policy) !! j
   /\ (fold_left task l q).(trajectory) !! j = (task q j).(trajectory) !! j)
  /\ (j ∉ l ->
      (fold_left task l q).(candidate_policy) !! j = q.(candidate_policy) !! j
      /\ (fold_left task l q).(trajectory) !! j = q.(trajectory) !! j).
Proof.
  induction 1 as [|a l Ha Hnd IH]; intros q.
  - split; [intros Hin; inversion Hin|intros _; split; reflexivity].
  - cbn [fold_left]. destruct (IH (task q a)) as [IHin IHout].
    split.
    + intros Hin. apply elem_of_cons in Hin as [->|Hin].
      * destruct (IHout Ha) as [-> ->]. split; reflexivity.
      * assert (Hne : j <> a) by congruence.
        destruct (IHin Hin) as [-> ->].
        rewrite rollout_task_swap.
        unfold task at 1 3. apply rollout_task_other. assumption.
    + intros Hout. apply not_elem_of_cons in Hout as [Hne Hout].
      destruct (IHout Hout) as [-> ->].
      unfold task. apply rollout_task_other. assumption.
Qed.

(** [Rollouts], lines 392-422: the tasks do not interfere. Task [j]
    reads and writes candidate [j] and trajectory [j] only, so after the
    barrier slot [j < num_trajectory] holds exactly what task [j] run
    alone on the planner would have left in it, slots from
    [num_trajectory] on are untouched, the step sizes are as they were,
    and the tasks run in any other order leave the same planner. *)
Theorem Rollouts_tasks_isolated p (j : nat) (order : list nat) :
  let n := Z.to_nat p.(num_trajectory) in
  let p' := Rollouts_on E assign h p in
  let alone := rollout_task E h (assign (Z.of_nat j)) j p in
  ((j < n)%nat ->
   p'.(candidate_policy) !! j = alone.(candidate_policy) !! j
   /\ p'.(trajectory) !! j = alone.(trajectory) !! j)
  /\ ((n <= j)%nat ->
      p'.(candidate_policy) !! j = p.(candidate_policy) !! j
      /\ p'.(trajectory) !! j = p.(trajectory) !! j)
  /\ p'.(improvement_step) = p.(improvement_step)
  /\ (order ≡ₚ seq 0 n ->
      fold_left (fun q a => rollout_task E h (assign (Z.of_nat a)) a q)
        order p = p').
Proof.
  intros n p' alone.
  destruct (fold_tasks_slot (seq 0 n) j (NoDup_seq 0 n) p) as [Hin Hout].
  split; [|split; [|split]].
  - intros Hj. apply Hin. apply elem_of_seq. lia.
  - intros Hj. apply Hout. rewrite elem_of_seq. lia.
  - apply Rollouts_on_frame.
  - intros Hperm. apply (fold_tasks_permutation _ _ Hperm).
Qed.

End Isolation.

(** ** The diagnostics of an iteration (lines 298-302) *)

Lemma SFcompare_Gt_swap a b :
  SFcompare a b = Some Gt -> SFcompare b a = Some Lt.
Proof.
  destruct a as [[]|[]| |[] ma ea], b as [[]|[]| |[] mb eb];
    simpl; try congruence; intros H1; f_equal; float_cmp_cases;
    try congruence; try lia.
Qed.

Lemma float_leb_not_nan (x y : float) :
  (x <=? y)%float = true ->
  PrimFloat.is_nan x = false /\ PrimFloat.is_nan y = false.
Proof.
  float_spec. intros H.
  destruct (SFcompare (Prim2SF x) (Prim2SF y)) as [[]|] eqn:E1;
    try discriminate;
    (assert (Prim2SF x <> S754_nan)
       by (intros Hn; rewrite Hn in E1; discriminate);
     assert (Prim2SF y <> S754_nan)
       by (intros Hn; rewrite Hn in E1; destruct (Prim2SF x); discriminate);
     rewrite !SFcompare_refl by assumption; auto).
Qed.

(** A number that is not a NaN and is not [<= 0] is [>= 0]. *)
Lemma float_not_leb_0 (x : float) :
  PrimFloat.is_nan x = false -> (x <=? 0)%float = false ->
  (0 <=? x)%float = true.
Proof.
  float_spec. change (Prim2SF 0) with (S754_zero false).
  intros Hn Hle.
  destruct (SFcompare (Prim2SF x) (S754_zero false)) as [[]|] eqn:Hc;
    try discriminate.
  - rewrite (SFcompare_Gt_swap _ _ Hc). reflexivity.
  - destruct (Prim2SF x) as [[]|[]| |[] mx ex]; simpl in *; discriminate.
Qed.

(** [mju_min(mju_max(0, x), 2)] lies in [[0, 2]] for every [x], and is 2
    for a NaN. *)
Lemma clamped_surprise (x : float) :
  let s := mju_min (mju_max 0 x) 2 in
  (0 <=? s)%float = true /\ (s <=? 2)%float = true
  /\ (PrimFloat.is_nan x = true -> s = 2%float).
Proof.
  intros s. subst s. unfold mju_max, mju_min.
  destruct (x <=? 0)%float eqn:Hx0.
  - change (0 <=? 2)%float with true. cbv iota.
    split; [reflexivity|]. split; [reflexivity|].
    intros Hn. destruct (float_leb_not_nan _ _ Hx0). congruence.
  - destruct (x <=? 2)%float eqn:Hx2.
    + destruct (float_leb_not_nan _ _ Hx2) as [Hn _].
      split; [apply float_not_leb_0; assumption|].
      split; [assumption|]. congruence.
    + split; [reflexivity|]. split; reflexivity.
Qed.

Lemma float_sub_nan (x y : float) :
  PrimFloat.is_nan x = true -> PrimFloat.is_nan (x - y) = true.
Proof.
  unfold PrimFloat.is_nan. rewrite !FloatAxioms.eqb_spec, FloatAxioms.sub_spec.
  intros Hn.
  assert (Hx : Prim2SF x = S754_nan).
  { destruct (Prim2SF x) as [sx|sx| |sx mx ex]; try reflexivity;
      unfold SFeqb in Hn; rewrite SFcompare_refl in Hn by discriminate;
      discriminate Hn. }
  rewrite Hx. reflexivity.
Qed.

Lemma float_div_nan (x y : float) :
  PrimFloat.is_nan x = true -> PrimFloat.is_nan (x / y) = true.
Proof.
  unfold PrimFloat.is_nan. rewrite !FloatAxioms.eqb_spec, FloatAxioms.div_spec.
  intros Hn.
  assert (Hx : Prim2SF x = S754_nan).
  { destruct (Prim2SF x) as [sx|sx| |sx mx ex]; try reflexivity;
      unfold SFeqb in Hn; rewrite SFcompare_refl in Hn by discriminate;
      discriminate Hn. }
  rewrite Hx. reflexivity.
Qed.

Section Diagnostics.
Context (E : Collaborators).

(** The scan of lines 281-292 and NaN returns: a running best cost that
    is a NaN is never replaced, a running best cost that is a number
    stays a number, and a candidate whose return is a NaN is the winner
    only by default, as the zero-step candidate of an iteration in
    which no candidate improved. *)
Theorem select_winner_nan (c_best : float) (p : GradientPlanner) :
  let N := p.(num_trajectory) in
  let c' := (select_winner c_best p).1 in
  let w := (select_winner c_best p).2 in
  (PrimFloat.is_nan c_best = true -> c' = c_best /\ w = N - 1)
  /\ (PrimFloat.is_nan c_best = false -> PrimFloat.is_nan c' = false)
  /\ (0 <= w ->
      PrimFloat.is_nan (get p.(trajectory) w).(total_return) = true ->
      w = N - 1 /\ c' = c_best).
Proof.
  intros N c' w. subst c' w. unfold select_winner. fold N.
  destruct (evaluate_rollouts (Z.to_nat N) p.(trajectory) c_best (N - 1))
    as [c' w] eqn:Hev. cbn [fst snd].
  destruct (evaluate_rollouts_outcome _ _ _ _ _ _ Hev)
    as [(-> & -> & _)|(Hlt & Hw & Hc)].
  - repeat split; auto.
  - destruct (float_ltb_not_nan _ _ Hlt) as [Hn1 Hn2].
    split; [intros Hn; congruence|]. split; [intros _; assumption|].
    intros Hw0 Hn. rewrite get_to_nat, <- Hc in Hn by lia. congruence.
Qed.

(** The diagnostics an iteration leaves: [step_size] is the winner's
    step size, 0.0 when the winner is the zero-step candidate;
    [expected] and [improvement] are computed from it and from the best
    cost; and [surprise] always lies in [[0, 2]], being 2 when the ratio
    [improvement / expected] is a NaN, as it is when the nominal return
    [c_prev] is a NaN. *)
Theorem rollout_stage_diagnostics h i c_prev c_best t p :
  let N := p.(num_trajectory) in
  let c' := (rollout_stage E h i c_prev c_best t p).1.1 in
  let p' := (rollout_stage E h i c_prev c_best t p).2 in
  p'.(step_size) = get p'.(improvement_step) p'.(winner)
  /\ p'.(expected) = (- p'.(step_size) * p'.(gradient_dV0) - 1.0e-16)%float
  /\ p'.(improvement) = (c_prev - c')%float
  /\ (0 <=? p'.(surprise))%float = true
  /\ (p'.(surprise) <=? 2)%float = true
  /\ (PrimFloat.is_nan c_prev = true -> p'.(surprise) = 2%float)
  /\ (1 <= N -> N <= Z.of_nat (length p.(improvement_step)) ->
      p'.(winner) = N - 1 -> p'.(step_size) = 0%float).
Proof.
  intros N c' p'.
  pose proof (rollout_stage_improvement_step E h i c_prev c_best t p) as Hst.
  fold p' in Hst.
  assert (Hd : p'.(step_size) = get p'.(improvement_step) p'.(winner)
               /\ p'.(expected)
                  = (- p'.(step_size) * p'.(gradient_dV0) - 1.0e-16)%float
               /\ p'.(improvement) = (c_prev - c')%float
               /\ p'.(surprise)
                  = mju_min (mju_max 0 (p'.(improvement) / p'.(expected))) 2).
  { subst p' c'. unfold rollout_stage.
    destruct (select_winner _ _) as [c1 w]. cbn [fst snd].
    unfold adopt_winner. cbn. repeat split. }
  destruct Hd as (Hs & He & Hi & Hsu).
  destruct (clamped_surprise (p'.(improvement) / p'.(expected)))
    as (H0 & H2 & Hn).
  rewrite <- Hsu in H0, H2, Hn.
  split; [assumption|]. split; [assumption|]. split; [assumption|].
  split; [assumption|]. split; [assumption|]. split.
  - intros Hc. apply Hn. apply float_div_nan. rewrite Hi.
    apply float_sub_nan. assumption.
  - intros HN Hlen Hw. rewrite Hs, Hw, Hst. unfold improvement_steps.
    cbn [improvement_step set_improvement_step]. fold N.
    apply get_put_eq. rewrite LogScale_length. lia.
Qed.

End Diagnostics.

(** ** Edge cases of a call *)

Section CallEdges.
Context (E : Collaborators).

(** The nominal stage writes slot 0 of the candidates and of the
    trajectories and no other slot, and none of the diagnostics. *)
Lemma nominal_stage_slots h p :
  let p1 := (nominal_stage E h p).2 in
  (forall j : nat, (1 <= j)%nat ->
   p1.(candidate_policy) !! j = p.(candidate_policy) !! j
   /\ p1.(trajectory) !! j = p.(trajectory) !! j)
  /\ p1.(improvement_step) = p.(improvement_step)
  /\ p1.(step_size) = p.(step_size) /\ p1.(expected) = p.(expected)
  /\ p1.(improvement) = p.(improvement) /\ p1.(surprise) = p.(surprise)
  /\ p1.(winner) = p.(winner).
Proof.
  intros p1. subst p1. unfold nominal_stage, NominalTrajectory, ResamplePolicy.
  cbn [snd]. destruct (resample_points E _ _ _ _ _ _ _) as [ps ts].
  cbn. split; [|repeat split].
  intros j Hj. unfold put. cbn.
  rewrite !list_lookup_insert_ne by lia. split; reflexivity.
Qed.

(** A call with [max_rollout <= 0] runs the nominal stage only: it
    solves no gradient and always completes. It leaves the best cost at
    the nominal return [c_prev], so, unless [c_prev] is a NaN, line 315
    makes the last candidate [num_trajectory - 1] the winner, a slot
    that, when there are two candidates or more, this call has not
    written: the call publishes the parameters and knot times an earlier
    call left in it. The step sizes, the diagnostics [step_size],
    [expected], [improvement] and [surprise] and the gradient's
    expected decrease stay, and the timers of the loop's stages are
    stored as 0. *)
Theorem OptimizePolicy_no_iterations h p :
  let N := mju_min_int p.(num_trajectory) E.(kMaxTrajectory) in
  let r := OptimizePolicy E h p in
  let c_prev := (get r.2.(trajectory) 0).(total_return) in
  p.(settings).(max_rollout) <= 0 ->
  r.1 = Completed
  /\ r.2.(winner)
     = (if (c_prev <=? c_prev)%float then N - 1 else p.(winner))
  /\ (forall j : nat, (1 <= j)%nat ->
        r.2.(candidate_policy) !! j = p.(candidate_policy) !! j
        /\ r.2.(trajectory) !! j = p.(trajectory) !! j)
  /\ (2 <= N -> PrimFloat.is_nan c_prev = false ->
      r.2.(policy).(parameters)
      = (get p.(candidate_policy) (N - 1)).(parameters)
      /\ r.2.(policy).(times) = (get p.(candidate_policy) (N - 1)).(times)
      /\ BestTrajectory r.2 = get p.(trajectory) (N - 1))
  /\ r.2.(improvement_step) = p.(improvement_step)
  /\ r.2.(step_size) = p.(step_size) /\ r.2.(expected) = p.(expected)
  /\ r.2.(improvement) = p.(improvement) /\ r.2.(surprise) = p.(surprise)
  /\ r.2.(gradient_dV0) = p.(gradient_dV0)
  /\ r.2.(compute_time)
     = mkTimers (of_int (E.(stage_micros) NominalStage 0)) 0 0 0 0
         (add_micros 0 (E.(stage_micros) PolicyUpdateStage 0)).
Proof.
  intros N r c_prev Hmax. subst c_prev r. unfold OptimizePolicy.
  pose proof (nominal_stage_slots h p) as Hslots.
  destruct (nominal_stage E h p) as [[c t] p1] eqn:Hn.
  destruct (nominal_stage_frame E _ _ _ _ _ Hn)
    as (_ & HN & Hse & _ & _ & _ & _ & _ & _ & Hc & Ht).
  assert (HdV : p1.(gradient_dV0) = p.(gradient_dV0)).
  { replace p1 with (nominal_stage E h p).2 by (rewrite Hn; reflexivity).
    unfold nominal_stage, NominalTrajectory, ResamplePolicy. cbn [snd].
    destruct (resample_points E _ _ _ _ _ _ _) as [ps ts]. reflexivity. }
  cbv zeta in Hslots. cbn [snd] in Hslots.
  rewrite Hse, (Z2Nat.nonpos _ Hmax). cbn [improvement_loop fst snd].
  destruct (publish_frame E c c t p1) as (Hw & Htr & Hcand & _ & Hpol).
  cbv zeta in Hw, Hpol.
  assert (Hrest : (publish E c c t p1).(improvement_step)
                  = p1.(improvement_step)
                  /\ (publish E c c t p1).(step_size) = p1.(step_size)
                  /\ (publish E c c t p1).(expected) = p1.(expected)
                  /\ (publish E c c t p1).(improvement) = p1.(improvement)
                  /\ (publish E c c t p1).(surprise) = p1.(surprise)
                  /\ (publish E c c t p1).(gradient_dV0) = p1.(gradient_dV0)
                  /\ (publish E c c t p1).(compute_time)
                     = mkTimers t.(nominal_time) t.(model_derivative_time)
                         t.(cost_derivative_time) t.(rollouts_time)
                         t.(gradient_time)
                         (add_micros t.(policy_update_time)
                            (E.(stage_micros) PolicyUpdateStage 0))).
  { unfold publish. destruct (c <=? c)%float; cbn; repeat split. }
  destruct Hrest as (Hr1 & Hr2 & Hr2a & Hr2b & Hr3 & Hr3a & Hr4).
  destruct Hslots as (Hsl & Hs1 & Hs2 & Hs3 & Hs4 & Hs5 & Hs6).
  rewrite Htr, <- Hc.
  split; [reflexivity|]. split; [rewrite Hw, HN, Hs6; reflexivity|].
  split; [intros j Hj; rewrite ?Htr, Hcand; apply Hsl; assumption|].
  split.
  { intros HN2 Hnan.
    assert (Hle : (c <=? c)%float = true)
      by (apply float_leb_refl; assumption).
    rewrite Hle in Hw. rewrite HN in Hw. fold N in Hw.
    assert (Hg : forall (A : Type) (H : Inhabited A) (l1 l2 : list A),
               (forall j : nat, (1 <= j)%nat -> l1 !! j = l2 !! j) ->
               get l1 (N - 1) = get l2 (N - 1)).
    { intros A H l1 l2 Hl. rewrite !get_to_nat by lia.
      rewrite !list_lookup_total_alt, Hl by lia. reflexivity. }
    unfold BestTrajectory. rewrite Hpol, ?Htr, Hw.
    rewrite (Hg _ _ p1.(candidate_policy) p.(candidate_policy))
      by (intros j Hj; apply Hsl; assumption).
    rewrite (Hg _ _ p1.(trajectory) p.(trajectory))
      by (intros j Hj; apply Hsl; assumption).
    repeat split. }
  rewrite Hr1, Hr2, Hr2a, Hr2b, Hr3, Hr3a, Hr4, Hs1, Hs2, Hs3, Hs4, Hs5,
    HdV, Ht.
  repeat split.
Qed.


(** While the running best cost is a NaN no candidate replaces it: every
    iteration adopts the zero-step candidate. *)
Lemma improvement_loop_nan n h i c_prev c_best t p c' t' p' :
  improvement_loop E n h i c_prev c_best t p = LoopDone c' t' p' ->
  PrimFloat.is_nan c_best = true ->
  c' = c_best
  /\ ((0 < n)%nat ->
      p'.(winner) = p.(num_trajectory) - 1
      /\ (PrimFloat.is_nan c_prev = true -> p'.(surprise) = 2%float)).
Proof.
  intros Hl Hnan. revert i t p Hl.
  induction n as [|n IH]; intros i t p Hl; cbn [improvement_loop] in Hl.
  - injection Hl as <- <- <-. split; [reflexivity|lia].
  - destruct (gradient_stage E h i t p) as [[gd t1] p1] eqn:Hg.
    destruct (gradient_stage_frame E _ _ _ _ _ _ _ Hg)
      as ((_ & _ & _ & _ & HN1 & _) & _).
    destruct (gd =? 0); [|discriminate Hl].
    destruct (rollout_stage E h i c_prev c_best t1 p1)
      as [[c1 t2] p2] eqn:Hr.
    destruct (rollout_stage_frame E _ _ _ _ _ _ _ _ _ Hr)
      as ((_ & _ & _ & _ & HN2 & _) & _).
    pose proof (rollout_stage_diagnostics E h i c_prev c_best t1 p1)
      as (_ & _ & _ & _ & _ & Hs & _).
    rewrite Hr in Hs. cbn [snd] in Hs.
    destruct (rollout_stage_winner E _ _ _ _ _ _ _ _ _ Hr)
      as (_ & [(-> & Hw)|(Hlt & _)]);
      [|destruct (float_ltb_not_nan _ _ Hlt); congruence].
    destruct (IH _ _ _ Hl) as (-> & IH'). split; [reflexivity|]. intros _.
    destruct n as [|n].
    + cbn [improvement_loop] in Hl. injection Hl as <- <-.
      split; [congruence|assumption].
    + destruct IH' as (Hw3 & Hs3); [lia|]. split; [congruence|assumption].
Qed.

(** A call whose nominal rollout returns a NaN: the best cost stays a
    NaN, no candidate is compared below it, and a call that completes
    after at least one iteration ends with the zero-step candidate as
    winner and a surprise of 2. *)
Theorem OptimizePolicy_nan_nominal h p p' :
  let c_prev := (get (nominal_stage E h p).2.(trajectory) 0).(total_return) in
  OptimizePolicy E h p = (Completed, p') ->
  1 <= p.(settings).(max_rollout) ->
  PrimFloat.is_nan c_prev = true ->
  p'.(winner) = p'.(num_trajectory) - 1
  /\ p'.(surprise) = 2%float.
Proof.
  intros c_prev. subst c_prev. unfold OptimizePolicy.
  destruct (nominal_stage E h p) as [[c t] p1] eqn:Hn.
  destruct (nominal_stage_frame E _ _ _ _ _ Hn)
    as (_ & _ & Hse & _ & _ & _ & _ & _ & _ & Hc & _).
  cbn [snd]. rewrite <- Hc, Hse.
  pose proof (improvement_loop_frame E
                (Z.to_nat p.(settings).(max_rollout)) h 0 c c t p1) as Hf.
  destruct (improvement_loop E _ h 0 c c t p1) as [c' t' p2|] eqn:Hl;
    [|discriminate].
  destruct Hf as ((_ & _ & _ & _ & HN2 & _) & _).
  intros Hr Hmax Hnan. injection Hr as <-.
  destruct (improvement_loop_nan _ _ _ _ _ _ _ _ _ _ Hl Hnan)
    as (-> & Hw); destruct Hw as (Hw & Hs); [lia|].
  destruct (publish_frame E c c t' p2) as (Wp & _ & _ & Np & _).
  cbv zeta in Wp, Np.
  assert (Hle : (c <=? c)%float = false).
  { destruct (c <=? c)%float eqn:Hle; [|reflexivity].
    destruct (float_leb_not_nan _ _ Hle). congruence. }
  rewrite Hle in Wp. rewrite Wp, Np, Hw, HN2.
  split; [reflexivity|].
  unfold publish. rewrite Hle. cbn. apply Hs. assumption.
Qed.

(** The call returns early only from inside the loop: the iteration it
    reports lies in [[0, max_rollout)], every iteration before it ran
    in full, and the gradient solve of that iteration returned a
    nonzero status. *)
Lemma improvement_loop_failure n h i c_prev c_best t p j t' p' :
  improvement_loop E n h i c_prev c_best t p = LoopFailed j t' p' ->
  i <= j < i + Z.of_nat n
  /\ exists c t0 p0,
       improvement_loop E (Z.to_nat (j - i)) h i c_prev c_best t p
       = LoopDone c t0 p0
       /\ (gradient_stage E h j t0 p0).1.1 <> 0
       /\ p' = (gradient_stage E h j t0 p0).2.
Proof.
  revert i c_best t p. induction n as [|n IH]; intros i c_best t p Hl;
    cbn [improvement_loop] in Hl; [discriminate Hl|].
  destruct (gradient_stage E h i t p) as [[gd t1] p1] eqn:Hg.
  destruct (Z.eqb_spec gd 0) as [->|Hgd].
  - destruct (rollout_stage E h i c_prev c_best t1 p1)
      as [[c1 t2] p2] eqn:Hr.
    destruct (IH _ _ _ _ Hl) as (Hj & c & t0 & p0 & Hd & Hne & Hp).
    split; [lia|]. exists c, t0, p0.
    replace (Z.to_nat (j - i)) with (S (Z.to_nat (j - (i + 1)))) by lia.
    cbn [improvement_loop]. rewrite Hg, Hr. cbn. auto.
  - injection Hl as <- <- <-. split; [lia|].
    exists c_best, t, p. rewrite Z.sub_diag. cbn [Z.to_nat improvement_loop].
    rewrite Hg. cbn. auto.
Qed.

(** A call that the gradient solver aborts: the iteration it stopped in
    lies in [[0, max_rollout)], and of the nominal policy only
    [num_parameters] has been written, with [nu * num_spline_points].
    Every call leaves that value there, so from the second call on an
    aborted call leaves the nominal policy, all of its members, exactly
    as it was, and [ActionFromPolicy] returns the actions it returned
    before the call. *)
Theorem OptimizePolicy_failure_iteration h p j locals p' :
  OptimizePolicy E h p = (GradientFailure j locals, p') ->
  0 <= j < p.(settings).(max_rollout)
  /\ p'.(policy)
     = set_num_parameters (E.(nu) * p.(policy).(num_spline_points))
         p.(policy)
  /\ (p.(policy).(num_parameters)
      = E.(nu) * p.(policy).(num_spline_points) ->
      p'.(policy) = p.(policy)
      /\ forall st t,
           ActionFromPolicy E p' st t = ActionFromPolicy E p st t).
Proof.
  unfold OptimizePolicy.
  destruct (nominal_stage E h p) as [[c t] p1] eqn:Hn.
  destruct (nominal_stage_frame E _ _ _ _ _ Hn)
    as (Hpol & _ & Hse & _).
  pose proof (improvement_loop_frame E
                (Z.to_nat p1.(settings).(max_rollout)) h 0 c c t p1) as Hf.
  destruct (improvement_loop E _ h 0 c c t p1) as [|j' t' p2] eqn:Hl;
    [discriminate|].
  destruct Hf as ((_ & _ & _ & Hpo2 & _) & _).
  intros Hr. injection Hr as <- <- <-.
  destruct (improvement_loop_failure _ _ _ _ _ _ _ _ _ _ Hl) as (Hj & _).
  rewrite Hse in Hj.
  assert (Hp : policy p2
               = set_num_parameters (nu E * num_spline_points (policy p))
                   (policy p)) by congruence.
  split; [lia|]. split; [exact Hp|].
  intros Hnp.
  assert (Heq : policy p2 = policy p).
  { rewrite Hp. destruct (policy p); cbn in *. subst. reflexivity. }
  split; [exact Heq|]. intros st t0. unfold ActionFromPolicy.
  rewrite Heq. reflexivity.
Qed.

End CallEdges.

(** ** Drawing the traces *)

Lemma add_segment_full c scn :
  scn.(maxgeom) <= scn.(ngeom) -> add_segment c scn = scn.
Proof.
  intros H. unfold add_segment.
  destruct (Z.leb_spec scn.(maxgeom) scn.(ngeom)); [reflexivity|lia].
Qed.

(** The inner loop, from a scene that is not over its capacity: it adds
    [n] connectors or as many as fit, at the indices from [ngeom] on,
    and writes nothing else. *)
Lemma trace_points_spec (n : nat) (i : Z) width tr scn :
  0 <= scn.(ngeom) <= scn.(maxgeom) ->
  let scn' := trace_points n i width tr scn in
  scn'.(maxgeom) = scn.(maxgeom)
  /\ scn'.(ngeom) = Z.min scn.(maxgeom) (scn.(ngeom) + Z.of_nat n)
  /\ length scn'.(geoms) = length scn.(geoms)
  /\ forall j : nat,
       scn'.(geoms) !! j
       = if decide (scn.(ngeom) <= Z.of_nat j < scn'.(ngeom)
                    /\ (j < length scn.(geoms))%nat)
         then Some (trace_segment width tr (i + (Z.of_nat j - scn.(ngeom))))
         else scn.(geoms) !! j.
Proof.
  revert i scn. induction n as [|n IH]; intros i scn Hg; cbn [trace_points].
  - cbv zeta. split; [reflexivity|]. split; [lia|]. split; [reflexivity|].
    intros j. destruct (decide _) as [[? ?]|]; [lia|reflexivity].
  - unfold add_segment.
    destruct (Z.leb_spec scn.(maxgeom) scn.(ngeom)) as [Hfull|Hroom].
    + destruct (IH (i + 1) scn Hg) as (Hm & Hn & Hl & Hj). cbv zeta.
      split; [assumption|]. split; [lia|]. split; [assumption|].
      intros j. rewrite Hj.
      destruct (decide _) as [[? ?]|]; [lia|reflexivity].
    + set (scn1 := mkScene _ _ _).
      destruct (IH (i + 1) scn1) as (Hm & Hn & Hl & Hj);
        [subst scn1; cbn; lia|].
      subst scn1. cbn [maxgeom ngeom geoms] in Hm, Hn, Hl, Hj. cbv zeta.
      rewrite length_put in Hl, Hj.
      split; [assumption|]. split; [lia|]. split; [assumption|].
      intros j. rewrite Hj, Hn.
      destruct (decide (scn.(ngeom) + 1 <= Z.of_nat j
                        < Z.min scn.(maxgeom) (scn.(ngeom) + 1 + Z.of_nat n)
                        /\ (j < length scn.(geoms))%nat)) as [[? ?]|Hno].
      * destruct (decide _) as [|Hno']; [|lia]. do 2 f_equal. lia.
      * unfold put. destruct (Z.ltb_spec scn.(ngeom) 0); [lia|].
        destruct (decide (j = Z.to_nat scn.(ngeom))) as [->|Hne].
        -- destruct (decide (Z.to_nat scn.(ngeom) < length scn.(geoms))%nat).
           ++ rewrite list_lookup_insert_eq by lia.
              destruct (decide _) as [|Hno']; [|lia]. do 2 f_equal. lia.
           ++ rewrite list_insert_ge by lia.
              destruct (decide _) as [[? ?]|]; [lia|reflexivity].
        -- rewrite list_lookup_insert_ne by congruence.
           destruct (decide _) as [[? ?]|]; [lia|reflexivity].
Qed.

(** At or over its capacity the scene is left as it is. *)
Lemma trace_points_full (n : nat) (i : Z) width tr scn :
  scn.(maxgeom) <= scn.(ngeom) -> trace_points n i width tr scn = scn.
Proof.
  revert i. induction n as [|n IH]; intros i H; cbn [trace_points];
    [reflexivity|]. rewrite add_segment_full by assumption. apply IH.
  assumption.
Qed.

(** [Traces], lines 430-468: for each of the [num_trajectory]
    candidates it draws [best->horizon - 1] connectors, the horizon
    being that of the winner's trajectory for every candidate. From a
    scene within its capacity it adds connectors from index [ngeom] on
    until all are drawn or the scene is full, never more than
    [maxgeom]; the connector of segment [i] of candidate [k], if it
    fits, sits at index [ngeom + k * (horizon - 1) + i] and joins trace
    points [i] and [i + 1] of that candidate; the geometries already in
    the scene and those behind the new count are not written. A scene
    at or over its capacity is left as it is. *)
Theorem Traces_scene width p scn :
  let H := Z.max 0 ((BestTrajectory p).(horizon) - 1) in
  let N := Z.max 0 p.(num_trajectory) in
  let scn' := Traces width p scn in
  (scn.(maxgeom) <= scn.(ngeom) -> scn' = scn)
  /\ (0 <= scn.(ngeom) <= scn.(maxgeom) ->
      scn'.(maxgeom) = scn.(maxgeom)
      /\ scn'.(ngeom) = Z.min scn.(maxgeom) (scn.(ngeom) + N * H)
      /\ length scn'.(geoms) = length scn.(geoms)
      /\ (forall j : nat,
            Z.of_nat j < scn.(ngeom) \/ scn'.(ngeom) <= Z.of_nat j ->
            scn'.(geoms) !! j = scn.(geoms) !! j)
      /\ (forall k i : nat,
            Z.of_nat k < N -> Z.of_nat i < H ->
            let j := Z.to_nat (scn.(ngeom) + Z.of_nat k * H + Z.of_nat i) in
            Z.of_nat j < scn.(maxgeom) -> (j < length scn.(geoms))%nat ->
            scn'.(geoms) !! j
            = Some (trace_segment width (p.(trajectory) !!! k)
                      (Z.of_nat i)))).
Proof.
  intros H N scn'. subst scn'. unfold Traces.
  set (h := Z.to_nat ((BestTrajectory p).(horizon) - 1)).
  assert (HH : H = Z.of_nat h) by (subst H h; lia).
  assert (HN : N = Z.of_nat (Z.to_nat p.(num_trajectory))) by (subst N; lia).
  generalize dependent (Z.to_nat p.(num_trajectory)). intros m HN.
  rewrite HN, HH. clear HN HH N H.
  split.
  - intros Hfull. induction m as [|m IH]; [reflexivity|].
    rewrite seq_S, fold_left_app. cbn [fold_left]. rewrite IH.
    apply trace_points_full. assumption.
  - intros Hg. induction m as [|m IH].
    + cbn [seq fold_left]. split; [reflexivity|]. split; [lia|].
      split; [reflexivity|]. split; [intros; reflexivity|].
      intros k i Hk. lia.
    + rewrite seq_S, fold_left_app. cbn [fold_left].
      set (s := fold_left _ (seq 0 m) scn) in *.
      destruct IH as (Hm & Hn & Hl & Hout & Hin).
      destruct (trace_points_spec h 0 width (p.(trajectory) !!! (0 + m)%nat)
                  s) as (Hm' & Hn' & Hl' & Hj'); [lia|].
      cbv zeta in Hj'.
      set (s' := trace_points h 0 width (p.(trajectory) !!! (0 + m)%nat) s)
        in *.
      assert (Hcount : s'.(ngeom)
                       = Z.min scn.(maxgeom)
                           (scn.(ngeom) + Z.of_nat (S m) * Z.of_nat h)).
      { rewrite Hn', Hm, Hn. nia. }
      split; [congruence|]. split; [exact Hcount|]. split; [congruence|].
      split.
      * intros j Hj. rewrite Hj'.
        destruct (decide _) as [[? ?]|].
        -- exfalso. destruct Hj as [Hj|Hj]; [|lia]. nia.
        -- apply Hout. destruct Hj as [Hj|Hj]; [left; assumption|].
           right. nia.
      * intros k i Hk Hi. cbv zeta.
        set (j := Z.to_nat (scn.(ngeom) + Z.of_nat k * Z.of_nat h
                            + Z.of_nat i)).
        intros Hjm Hjl. rewrite Hj'.
        destruct (decide (k = m)) as [->|Hne].
        -- destruct (decide _) as [|Hno].
           ++ do 2 f_equal. subst j. rewrite Hn. nia.
           ++ exfalso. apply Hno. subst j. rewrite Hn, Hl. split; [nia|].
              assumption.
        -- destruct (decide _) as [[? ?]|].
           ++ exfalso. subst j. rewrite Hn in *. nia.
           ++ apply Hin; try assumption. lia.
Qed.

(** ** Set-up, reset and the capacity of the scratch vectors *)

Lemma length_resize (l : list float) (n : Z) :
  length (resize l n) = Z.to_nat n.
Proof. unfold resize. rewrite length_app, length_take, length_replicate. lia. Qed.

Lemma length_for_slots {A} `{Inhabited A} (n : Z) (f : A -> A) (l : list A) :
  length (for_slots n f l) = length l.
Proof. unfold for_slots. apply fold_left_insert_length. Qed.



Section LifecycleProofs.
Context (E : Collaborators) (L : Lifecycle).

(** What the improvement loop and the policy update leave of the scratch
    vectors and of the state snapshot. *)
Lemma OptimizePolicy_scratch h p :
  let v := Z.to_nat E.(nu) in
  let K := Z.to_nat p.(policy).(num_spline_points) in
  let p' := (OptimizePolicy E h p).2 in
  0 <= E.(nu) ->
  (forall c y, length (E.(Action) c y) = v) ->
  (1 <= length p.(candidate_policy))%nat ->
  (K * v <= length p.(parameters_scratch))%nat ->
  length p'.(parameters_scratch) = length p.(parameters_scratch)
  /\ length p'.(times_scratch) = length p.(times_scratch)
  /\ length p'.(state) = length p.(state)
  /\ length p'.(mocap) = length p.(mocap)
  /\ p'.(timestep_power) = p.(timestep_power).
Proof.
  intros v K p' Hnu Hact Hc Hcap. subst p'. unfold OptimizePolicy.
  assert (Hn : let p1 := (nominal_stage E h p).2 in
               length p1.(parameters_scratch) = length p.(parameters_scratch)
               /\ length p1.(times_scratch) = length p.(times_scratch)
               /\ p1.(state) = p.(state) /\ p1.(mocap) = p.(mocap)
               /\ p1.(timestep_power) = p.(timestep_power)).
  { unfold nominal_stage, NominalTrajectory, ResamplePolicy. cbn [snd].
    set (p3 := set_candidate_policy _
                 (set_policy _ (set_num_trajectory _ p))).
    assert (Hcp3 : get p3.(candidate_policy) 0
                   = set_num_parameters
                       (E.(nu) * p.(policy).(num_spline_points)) p.(policy))
      by (unfold p3; simpl; apply get_put_eq; lia).
    rewrite Hcp3. cbn [num_spline_points set_num_parameters]. fold K.
    set (cp := set_num_parameters _ _).
    set (s := time_shift E h _).
    pose proof (resample_points_parameters E K 0 cp p3.(time) s
                  p3.(parameters_scratch) p3.(times_scratch) Hnu Hact Hcap)
      as Hps.
    pose proof (resample_points_length E K 0 cp p3.(time) s
                  p3.(parameters_scratch) p3.(times_scratch)) as Hts.
    destruct (resample_points E K 0 cp p3.(time) s p3.(parameters_scratch)
                p3.(times_scratch)) as [ps ts].
    cbn [fst snd] in Hps, Hts. cbn.
    split; [|repeat split; assumption].
    rewrite Hps. change (parameters_scratch p3) with (parameters_scratch p).
    rewrite !length_app, length_take, length_drop.
    assert (Hg : forall l' : list nat,
              length (concat (map (fun j => E.(Action) cp
                                     (knot_time p3.(time) s j)) l'))
              = (length l' * v)%nat).
    { induction l' as [|a l' IH]; [reflexivity|].
      cbn [map concat]. rewrite length_app, IH, Hact. simpl. lia. }
    rewrite Hg, length_seq. fold v. lia. }
  destruct (nominal_stage E h p) as [[c t] p1]. cbv zeta in Hn.
  cbn [snd] in Hn. destruct Hn as (H1 & H2 & H3 & H4 & H5).
  pose proof (improvement_loop_frame E
                (Z.to_nat p1.(settings).(max_rollout)) h 0 c c t p1) as Hf.
  destruct (improvement_loop E _ h 0 c c t p1) as [c' t' p2|j t' p2];
    destruct Hf as ((Hst & Hmo & _ & _ & _ & Hpw & _ & _ & Hps2 & Hts2 & _)
                    & _);
    cbn [snd]; unfold publish; try destruct (_ <=? _)%float; cbn;
    repeat split; congruence.
Qed.

(** The capacity of the planner's vectors through its life: [Allocate]
    gives the state, the mocap vector and the two scratch vectors their
    sizes, and [Reset] and every call of [OptimizePolicy] with a policy
    of at most [kMaxTrajectoryHorizon] spline points keep them. With
    these sizes the resampling loop of such a call stays inside the
    scratch vectors: it writes [num_spline_points] knot times and
    [nu * num_spline_points] parameters. [Initialize] sets the power of
    the knot spacing to 1.0 and none of the three functions changes
    it. *)
Theorem allocated_invariant h p :
  let K := p.(policy).(num_spline_points) in
  allocated E L (Allocate E L p)
  /\ (Initialize L p).(timestep_power) = 1%float
  /\ (Allocate E L p).(timestep_power) = p.(timestep_power)
  /\ (Reset E L h p).(timestep_power) = p.(timestep_power)
  /\ (allocated E L p -> allocated E L (Reset E L h p))
  /\ (allocated E L p ->
      0 <= E.(nu) -> 0 <= K <= L.(kMaxTrajectoryHorizon) ->
      (forall c y, length (E.(Action) c y) = Z.to_nat E.(nu)) ->
      (1 <= length p.(candidate_policy))%nat ->
      Z.of_nat (length p.(times_scratch)) >= K
      /\ Z.of_nat (length p.(parameters_scratch)) >= E.(nu) * K
      /\ allocated E L (OptimizePolicy E h p).2
      /\ (OptimizePolicy E h p).2.(timestep_power) = p.(timestep_power)).
Proof.
  intros K. split; [|split; [|split; [|split; [|split]]]];
    try reflexivity.
  - unfold allocated, Allocate. cbn. rewrite !length_resize. repeat split.
  - unfold allocated, Reset, fill_zero. cbn. rewrite !length_replicate. auto.
  - intros (Hs & Hm & Hps & Hts) Hnu HK Hact Hc.
    assert (Hcap : (Z.to_nat K * Z.to_nat E.(nu)
                    <= length p.(parameters_scratch))%nat).
    { rewrite Hps. nia. }
    destruct (OptimizePolicy_scratch h p Hnu Hact Hc Hcap)
      as (H1 & H2 & H3 & H4 & H5).
    split; [lia|]. split; [nia|]. split; [|assumption].
    unfold allocated. rewrite H1, H2, H3, H4. auto.
Qed.



End LifecycleProofs.

(** ** The properties above at concrete inputs *)

(** [ResamplePolicy_parameters] at a policy with parameters 5, 7, 9, 11,
    one control and two knots: the constant policy of the toy instance
    yields its first parameter at both knot times. *)
Lemma ResamplePolicy_parameters_witness :
  let p0 := Toy.planner 0 0 2 2 1 in
  let cp := mkPolicy 2 2 0 [5; 7; 9; 11]%float (Toy.zeros 4) (Toy.zeros 4)
              (Toy.zeros 4) in
  let p := set_candidate_policy (put p0.(candidate_policy) 0 cp) p0 in
  (get (ResamplePolicy Toy.E 2 p).(candidate_policy) 0).(parameters)
  = [5; 5; 9; 11]%float.
Proof.
  intros p0 cp p.
  destruct (ResamplePolicy_parameters Toy.E 2 p) as (H & _).
  - simpl. lia.
  - intros c y. reflexivity.
  - simpl. lia.
  - simpl. lia.
  - reflexivity.
  - rewrite H. vm_compute. reflexivity.
Defined.

(** [zero_step_candidate] at a candidate with parameters 1, 2 and update
    direction 3, infinity: the zero step keeps the first parameter and
    turns the second into a NaN. *)
Lemma zero_step_candidate_witness :
  let p0 := Toy.planner 0 0 2 2 1 in
  let cp := mkPolicy 2 2 0 [1; 2; 3; 4]%float (Toy.zeros 4)
              [3; infinity; 0; 0]%float (Toy.zeros 4) in
  let p := set_candidate_policy (<[1%nat := cp]> p0.(candidate_policy)) p0 in
  let cp' := (rollout_task Toy.E 2 0 1 p).(candidate_policy) !!! 1%nat in
  cp'.(parameters) !!! 0%nat = 1%float
  /\ PrimFloat.is_nan (cp'.(parameters) !!! 1%nat) = true.
Proof.
  intros p0 cp p cp'.
  assert (Hstep : p.(improvement_step) !!! 1%nat = 0%float) by reflexivity.
  assert (Hj : (1 < length p.(candidate_policy))%nat) by (simpl; lia).
  assert (Hjt : (1 < length p.(trajectory))%nat) by (simpl; lia).
  split.
  - destruct (zero_step_candidate Toy.E 2 0 1 p 0 Hstep Hj Hjt)
      as (H & _); [simpl; lia|simpl; lia|].
    destruct H as (H & _); [simpl; lia|].
    destruct H as (H & _); [vm_compute; reflexivity|].
    apply H. vm_compute. reflexivity.
  - destruct (zero_step_candidate Toy.E 2 0 1 p 1 Hstep Hj Hjt)
      as (H & _); [simpl; lia|simpl; lia|].
    destruct H as (_ & H); [simpl; lia|].
    apply H. vm_compute. reflexivity.
Defined.

(** [OptimizePolicy_no_iterations] at a call with [max_rollout = 0] and
    three candidates: the call publishes the zeros of the last candidate
    slot, which it has not written, in place of the nominal parameters
    (all 1). *)
Lemma OptimizePolicy_no_iterations_witness :
  let p := Toy.planner 1 0 2 3 0 in
  let r := OptimizePolicy Toy.E 3 p in
  r.1 = Completed
  /\ p.(policy).(parameters) = [1; 1; 1; 1]%float
  /\ r.2.(winner) = 2
  /\ r.2.(policy).(parameters) = [0; 0; 0; 0]%float
  /\ BestTrajectory r.2 = Toy.blank_trajectory.
Proof.
  intros p r.
  destruct (OptimizePolicy_no_iterations Toy.E 3 p)
    as (H1 & H2 & _ & H4 & _); [simpl; lia|].
  destruct H4 as (H4 & _ & H6);
    [vm_compute; discriminate|vm_compute; reflexivity|].
  split; [exact H1|]. split; [reflexivity|].
  split; [subst r; rewrite H2; vm_compute; reflexivity|].
  split; [subst r; rewrite H4; vm_compute; reflexivity|].
  subst r. rewrite H6. vm_compute. reflexivity.
Defined.

(** [OptimizePolicy_nan_nominal] at a nominal policy whose knots are
    NaNs. *)
Lemma OptimizePolicy_nan_nominal_witness :
  let p := Toy.planner nan 0 2 3 1 in
  let r := OptimizePolicy Toy.E 3 p in
  r.1 = Completed /\ r.2.(winner) = 2 /\ r.2.(surprise) = 2%float.
Proof.
  intros p r.
  assert (Hr : OptimizePolicy Toy.E 3 p = (Completed, r.2))
    by (vm_compute; reflexivity).
  destruct (OptimizePolicy_nan_nominal Toy.E 3 p r.2 Hr) as (Hw & Hs).
  - simpl. lia.
  - vm_compute. reflexivity.
  - split; [vm_compute; reflexivity|]. split; [|exact Hs].
    rewrite Hw. vm_compute. reflexivity.
Defined.

(** [OptimizePolicy_failure_iteration] at the call of the toy instance
    that the solver aborts in iteration 1. *)
Lemma OptimizePolicy_failure_iteration_witness :
  let p := Toy.planner 0 0 2 4 2 in
  let r := OptimizePolicy Toy.E_fail 2 p in
  r.1 = GradientFailure 1 (mkTimers 100 401 601 500 801 0)
  /\ r.2.(policy) = p.(policy).
Proof.
  intros p r.
  assert (Hr : OptimizePolicy Toy.E_fail 2 p
               = (GradientFailure 1 (mkTimers 100 401 601 500 801 0), r.2))
    by (vm_compute; reflexivity).
  destruct (OptimizePolicy_failure_iteration Toy.E_fail 2 p _ _ _ Hr)
    as (_ & _ & H).
  split; [vm_compute; reflexivity|]. apply H. reflexivity.
Defined.

(** [Traces_scene] at a scene with room for two more geometries and two
    candidates of three trace points each: of the four connectors two
    fit, both of candidate 0, and the geometry already in the scene
    stays. *)
Lemma Traces_scene_witness :
  let tr := fun z : float =>
    mkTrajectory 3 0 [] [] [] [] [z; z; z; 1; 1; 1; 2; 2; 2]%float in
  let p := set_trajectory [tr 0%float; tr 5%float] (Toy.planner 0 0 2 2 1) in
  let old := mkConnector 9 9 9 9 9 9 9 in
  let scn := mkScene 1 3 [old; old; old; old] in
  let scn' := Traces 0.01 p scn in
  scn'.(ngeom) = 3
  /\ scn'.(geoms) !! 0%nat = Some old
  /\ scn'.(geoms) !! 1%nat = Some (mkConnector 0.01 0 0 0 1 1 1)
  /\ scn'.(geoms) !! 2%nat = Some (mkConnector 0.01 1 1 1 2 2 2)
  /\ scn'.(geoms) !! 3%nat = Some old.
Proof.
  intros tr p old scn scn'. subst scn'.
  destruct (Traces_scene 0.01 p scn) as (_ & H).
  destruct H as (_ & Hn & _ & Hout & Hin); [simpl; lia|].
  split; [exact Hn|].
  split; [rewrite (Hout 0%nat) by (left; simpl; lia); reflexivity|].
  split; [apply (Hin 0%nat 0%nat); simpl; lia|].
  split; [apply (Hin 0%nat 1%nat); simpl; lia|].
  rewrite (Hout 3%nat); [reflexivity|]. right. rewrite Hn. simpl. lia.
Defined.

(** [allocated_invariant] at the toy instance, for a model with one
    state coordinate and a horizon capacity of 4: the planner of the toy
    instance has the sizes [Allocate] gives, and a call keeps them. *)
Lemma allocated_invariant_witness :
  let L := mkLifecycle 1 0 0 0 4 32 id (fun _ => id) id (fun _ => id) id
             (fun _ => id) in
  let p := Toy.planner 1 0 2 3 1 in
  allocated Toy.E L p
  /\ allocated Toy.E L (Allocate Toy.E L p)
  /\ allocated Toy.E L (Reset Toy.E L 3 p)
  /\ allocated Toy.E L (OptimizePolicy Toy.E 3 p).2.
Proof.
  intros L p.
  assert (Ha : allocated Toy.E L p) by (repeat split).
  destruct (allocated_invariant Toy.E L 3 p) as (H1 & _ & _ & _ & H2 & H3).
  split; [exact Ha|]. split; [exact H1|]. split; [exact (H2 Ha)|].
  apply H3.
  - exact Ha.
  - simpl. lia.
  - simpl. lia.
  - intros c y. reflexivity.
  - simpl. lia.
Defined.

(** ** The winner stays inside the candidate array *)

Section WinnerRange.
Context (E : Collaborators).

Lemma improvement_loop_winner_range n h i c_prev c_best t p :
  1 <= p.(num_trajectory) ->
  match improvement_loop E n h i c_prev c_best t p with
  | LoopDone _ _ p' =>
      p'.(num_trajectory) = p.(num_trajectory)
      /\ ((0 < n)%nat \/ 0 <= p.(winner) < p.(num_trajectory) ->
          0 <= p'.(winner) < p.(num_trajectory))
  | LoopFailed j _ p' =>
      p'.(num_trajectory) = p.(num_trajectory)
      /\ (i < j \/ 0 <= p.(winner) < p.(num_trajectory) ->
          0 <= p'.(winner) < p.(num_trajectory))
  end.
Proof.
  revert i c_best t p. induction n as [|n IH]; intros i c_best t p HN;
    cbn [improvement_loop].
  - split; [reflexivity|]. intros [H|H]; [lia|assumption].
  - destruct (gradient_stage E h i t p) as [[gd t1] p1] eqn:Hg.
    destruct (gradient_stage_frame E _ _ _ _ _ _ _ Hg)
      as ((_ & _ & _ & _ & HN1 & _) & _ & Hw1 & _).
    destruct (gd =? 0).
    + destruct (rollout_stage E h i c_prev c_best t1 p1)
        as [[c1 t2] p2] eqn:Hr.
      destruct (rollout_stage_frame E _ _ _ _ _ _ _ _ _ Hr)
        as ((_ & _ & _ & _ & HN2 & _) & _).
      assert (Hw2 : 0 <= p2.(winner) < p.(num_trajectory)).
      { destruct (rollout_stage_winner E _ _ _ _ _ _ _ _ _ Hr)
          as (_ & [(_ & Hw)|(_ & Hw & _)]); lia. }
      specialize (IH (i + 1) c1 t2 p2 ltac:(lia)).
      destruct (improvement_loop E n h (i + 1) c_prev c1 t2 p2)
        as [c' t' p'|j t' p']; destruct IH as (HN3 & IH);
        (split; [congruence|]); intros _; rewrite HN2, HN1 in IH;
        apply IH; right; assumption.
    + split; [assumption|]. intros [H|H]; [lia|]. rewrite Hw1. assumption.
Qed.

(** The winner index stays inside the candidate array. With
    [N = min(num_trajectory, kMaxTrajectory) >= 1] candidates, a call
    that completes after at least one iteration, or is aborted after
    one, leaves [0 <= winner < N] whatever the winner was; a call
    without iteration, or aborted in its first, keeps a winner that was
    in the range inside it. So [BestTrajectory] and the publication of
    the policy index slots below [N], which is at most
    [kMaxTrajectory]. *)
Theorem OptimizePolicy_winner_in_range h p :
  let N := mju_min_int p.(num_trajectory) E.(kMaxTrajectory) in
  let r := OptimizePolicy E h p in
  1 <= N ->
  r.2.(num_trajectory) = N /\ N <= E.(kMaxTrajectory)
  /\ match r.1 with
     | Completed =>
         1 <= p.(settings).(max_rollout) \/ 0 <= p.(winner) < N ->
         0 <= r.2.(winner) < N
     | GradientFailure j _ =>
         1 <= j \/ 0 <= p.(winner) < N -> 0 <= r.2.(winner) < N
     end.
Proof.
  intros N r HN. subst r. unfold OptimizePolicy.
  destruct (nominal_stage E h p) as [[c t] p1] eqn:Hn.
  destruct (nominal_stage_frame E _ _ _ _ _ Hn)
    as (_ & HN1 & Hse & _ & Hw1 & _).
  fold N in HN1.
  pose proof (improvement_loop_winner_range
                (Z.to_nat p1.(settings).(max_rollout)) h 0 c c t p1
                ltac:(lia)) as Hl.
  assert (HNk : N <= E.(kMaxTrajectory)).
  { subst N. unfold mju_min_int. destruct (Z.leb_spec p.(num_trajectory)
                                             E.(kMaxTrajectory)); lia. }
  destruct (improvement_loop E _ h 0 c c t p1) as [c' t' p2|j t' p2];
    destruct Hl as (HN2 & Hl); cbn [fst snd].
  - destruct (publish_frame E c c' t' p2) as (Wp & _ & _ & Np & _).
    cbv zeta in Wp, Np. rewrite Np, HN2, HN1.
    split; [reflexivity|]. split; [assumption|].
    intros H. rewrite Wp.
    destruct (c <=? c')%float; [lia|]. rewrite <- HN1. apply Hl.
    rewrite Hse, Hw1, HN1. destruct H as [H|H]; [left; lia|right; assumption].
  - rewrite HN2, HN1. split; [reflexivity|]. split; [assumption|].
    intros H. rewrite <- HN1. apply Hl. rewrite Hw1, HN1.
    destruct H as [H|H]; [left; lia|right; assumption].
Qed.

(** ** The timers a completed call stores *)

Lemma fold_left_seq_succ {A} (g : Z -> A -> A) (i : Z) (n : nat) (a : A) :
  fold_left (fun x k => g (i + Z.of_nat k) x) (seq 0 (S n)) a
  = fold_left (fun x k => g (i + 1 + Z.of_nat k) x) (seq 0 n) (g i a).
Proof.
  cbn [seq fold_left]. rewrite Z.add_0_r. generalize (g i a). clear a.
  rewrite <- seq_shift. generalize (seq 0 n). intros l.
  induction l as [|k l IH]; intros a; [reflexivity|].
  cbn [map fold_left]. rewrite IH. do 2 f_equal. lia.
Qed.

(** Along a loop that runs to its end each of the four loop timers
    grows by the readings of its stage, one per iteration. *)
Lemma improvement_loop_timers n h i c_prev c_best t p c' t' p' :
  improvement_loop E n h i c_prev c_best t p = LoopDone c' t' p' ->
  let total := fun (s : Stage) (t0 : float) =>
    fold_left (fun x k => add_micros x (E.(stage_micros) s (i + Z.of_nat k)))
              (seq 0 n) t0 in
  t'.(model_derivative_time)
  = total ModelDerivativeStage t.(model_derivative_time)
  /\ t'.(cost_derivative_time)
     = total CostDerivativeStage t.(cost_derivative_time)
  /\ t'.(gradient_time) = total GradientStage t.(gradient_time)
  /\ t'.(rollouts_time) = total RolloutsStage t.(rollouts_time).
Proof.
  revert i c_best t p. induction n as [|n IH]; intros i c_best t p Hl;
    cbn [improvement_loop] in Hl.
  - injection Hl as <- <- <-. cbn. auto.
  - assert (Hg : (gradient_stage E h i t p).1.2
                 = mkTimers t.(nominal_time)
                     (add_micros t.(model_derivative_time)
                        (E.(stage_micros) ModelDerivativeStage i))
                     (add_micros t.(cost_derivative_time)
                        (E.(stage_micros) CostDerivativeStage i))
                     t.(rollouts_time)
                     (add_micros t.(gradient_time)
                        (E.(stage_micros) GradientStage i))
                     t.(policy_update_time)).
    { unfold gradient_stage.
      destruct (gradient_Compute E _ _ _ _) as [[gd k'] dV0]. reflexivity. }
    destruct (gradient_stage E h i t p) as [[gd t1] p1].
    cbn [fst snd] in Hg.
    destruct (gd =? 0); [|discriminate Hl].
    assert (Hr : (rollout_stage E h i c_prev c_best t1 p1).1.2
                 = mkTimers t1.(nominal_time) t1.(model_derivative_time)
                     t1.(cost_derivative_time)
                     (add_micros t1.(rollouts_time)
                        (E.(stage_micros) RolloutsStage i))
                     t1.(gradient_time) t1.(policy_update_time)).
    { unfold rollout_stage. destruct (select_winner _ _). reflexivity. }
    destruct (rollout_stage E h i c_prev c_best t1 p1) as [[c1 t2] p2].
    cbn [fst snd] in Hr.
    destruct (IH _ _ _ _ Hl) as (H1 & H2 & H3 & H4). cbv beta zeta.
    pose proof (fun s => fold_left_seq_succ
                  (fun j x => add_micros x (E.(stage_micros) s j)) i n)
      as Hk.
    cbv beta in Hk. rewrite !Hk.
    rewrite H1, H2, H3, H4, Hr, Hg. cbn. auto.
Qed.

(** The six timers a completed call stores are the stopwatch readings
    of this call alone: the nominal stage's reading, for each loop
    stage the sum of its readings over the [max_rollout] iterations
    added up from 0, and the policy update's reading. Nothing is carried
    over from what the timers held before the call. *)
Theorem OptimizePolicy_timers h p p' :
  OptimizePolicy E h p = (Completed, p') ->
  let total := fun (s : Stage) =>
    fold_left (fun x k => add_micros x (E.(stage_micros) s (Z.of_nat k)))
              (seq 0 (Z.to_nat p.(settings).(max_rollout))) 0%float in
  p'.(compute_time)
  = mkTimers (of_int (E.(stage_micros) NominalStage 0))
      (total ModelDerivativeStage) (total CostDerivativeStage)
      (total RolloutsStage) (total GradientStage)
      (add_micros 0 (E.(stage_micros) PolicyUpdateStage 0)).
Proof.
  unfold OptimizePolicy.
  destruct (nominal_stage E h p) as [[c t] p1] eqn:Hn.
  destruct (nominal_stage_frame E _ _ _ _ _ Hn)
    as (_ & _ & Hse & _ & _ & _ & _ & _ & _ & _ & Ht).
  pose proof (improvement_loop_frame E
                (Z.to_nat p1.(settings).(max_rollout)) h 0 c c t p1) as Hf.
  destruct (improvement_loop E _ h 0 c c t p1) as [c' t' p2|] eqn:Hl;
    [|discriminate].
  destruct Hf as (_ & Hnt & Hpt).
  destruct (improvement_loop_timers _ _ _ _ _ _ _ _ _ _ Hl)
    as (H1 & H2 & H3 & H4).
  intros Hr. injection Hr as <-. cbv zeta.
  unfold publish. cbn [compute_time set_compute_time].
  rewrite Hnt, Hpt, H1, H2, H3, H4, Ht, Hse. cbn. reflexivity.
Qed.

End WinnerRange.

(** [OptimizePolicy_winner_in_range] at a call on a planner whose stale
    winner, 7, is outside its three candidates. *)
Lemma OptimizePolicy_winner_in_range_witness :
  let p := set_winner 7 (Toy.planner 1 0 2 3 1) in
  let r := OptimizePolicy Toy.E 3 p in
  r.1 = Completed /\ 0 <= r.2.(winner) < 3.
Proof.
  intros p r.
  destruct (OptimizePolicy_winner_in_range Toy.E 3 p) as (_ & _ & H);
    [vm_compute; discriminate|].
  fold r in H.
  assert (Hr : r.1 = Completed) by (vm_compute; reflexivity).
  split; [exact Hr|]. rewrite Hr in H. apply H. left. simpl. lia.
Defined.

(** [OptimizePolicy_timers] at a call with two iterations on a planner
    whose six timers held 7. *)
Lemma OptimizePolicy_timers_witness :
  let p := Toy.planner 1 0 2 3 2 in
  let r := OptimizePolicy Toy.E 3 p in
  p.(compute_time) = mkTimers 7 7 7 7 7 7
  /\ r.2.(compute_time) = mkTimers 100 401 601 1001 801 600.
Proof.
  intros p r. split; [reflexivity|].
  assert (Hr : OptimizePolicy Toy.E 3 p = (Completed, r.2))
    by (vm_compute; reflexivity).
  rewrite (OptimizePolicy_timers Toy.E 3 p r.2 Hr). vm_compute. reflexivity.
Defined.

(** ** The return of the published winner

    The zero-step candidate of an iteration is the working policy
    copied (lines 268-271), given step size 0.0 (line 276) and moved by
    [mju_addScl] (lines 401-405): with a finite update direction it is
    the working policy again, and a simulator whose return is a
    function of the spline gives it the working return. *)


Lemma same_number_refl (x : float) : same_number x x.
Proof. left. reflexivity. Qed.

Lemma Forall2_same_number_refl (l : list float) : Forall2 same_number l l.
Proof. induction l; constructor; auto using same_number_refl. Qed.



Lemma same_spline_refl (q : Policy) : same_spline q q.
Proof.
  unfold same_spline. repeat split; try reflexivity.
  apply Forall2_same_number_refl.
Qed.

Section WorkingPolicy.
Context (E : Collaborators).





End WorkingPolicy.

Section ZeroStepReturn.
Context (E : Collaborators).



End ZeroStepReturn.

Section PublishedReturn.
Context (E : Collaborators).


End PublishedReturn.




(** ** Binary64 addition of a positive step

    [x + s] in binary64 is the exact sum rounded to nearest
    ([SFadd]). The rounded sum of two positive doubles is at least
    every double that is at most the exact sum: so it is at least [x],
    and above [x] once [s] is at least one unit in the last place of
    [x]. *)

(** [digits2_pos m] is the number of binary digits of [m]. *)
Lemma digits2_pos_bounds (m : positive) :
  2 ^ (Z.pos (digits2_pos m) - 1) <= Z.pos m < 2 ^ Z.pos (digits2_pos m).
Proof.
  induction m as [m IH|m IH|]; cbn [digits2_pos].
  - rewrite Pos2Z.inj_succ.
    replace (Z.succ (Z.pos (digits2_pos m)) - 1)
      with (Z.succ (Z.pos (digits2_pos m) - 1)) by lia.
    rewrite !Z.pow_succ_r by lia. lia.
  - rewrite Pos2Z.inj_succ.
    replace (Z.succ (Z.pos (digits2_pos m)) - 1)
      with (Z.succ (Z.pos (digits2_pos m) - 1)) by lia.
    rewrite !Z.pow_succ_r by lia. lia.
  - cbn. lia.
Qed.

Lemma digits2_pos_unique (m : positive) (d : Z) :
  2 ^ (d - 1) <= Z.pos m < 2 ^ d -> 1 <= d -> Z.pos (digits2_pos m) = d.
Proof.
  intros [Hlo Hhi] Hd. destruct (digits2_pos_bounds m) as [Glo Ghi].
  set (d' := Z.pos (digits2_pos m)) in *.
  assert (Hd' : 1 <= d') by (subst d'; lia).
  destruct (Z.lt_trichotomy d' d) as [Hlt|[Heq|Hgt]]; [|assumption|].
  - assert (2 ^ d' <= 2 ^ (d - 1)) by (apply Z.pow_le_mono_r; lia). lia.
  - assert (2 ^ d <= 2 ^ (d' - 1)) by (apply Z.pow_le_mono_r; lia). lia.
Qed.

Lemma fexp_eq (e : Z) : fexp prec emax e = Z.max (e - 53) (-1074).
Proof. reflexivity. Qed.

(** A valid finite double: at most 53 digits, exactly 53 above the
    smallest exponent. *)
Lemma bounded_bounds (m : positive) (e : Z) :
  bounded prec emax m e = true ->
  -1074 <= e <= 971 /\ Z.pos m < 2 ^ 53
  /\ (-1074 < e -> 2 ^ 52 <= Z.pos m)
  /\ fexp prec emax (Z.pos (digits2_pos m) + e) = e.
Proof.
  unfold bounded, canonical_mantissa. intros H.
  apply andb_true_iff in H as [H1 H2].
  apply Z.eqb_eq in H1. apply Z.leb_le in H2.
  change (emax - prec) with 971 in H2.
  pose proof H1 as H1'. rewrite fexp_eq in H1.
  destruct (digits2_pos_bounds m) as [Glo Ghi].
  set (d := Z.pos (digits2_pos m)) in *.
  split; [lia|]. split; [|split; [|assumption]].
  - assert (2 ^ d <= 2 ^ 53) by (apply Z.pow_le_mono_r; lia). lia.
  - intros He. assert (d = 53) by lia.
    replace (d - 1) with 52 in Glo by lia. assumption.
Qed.

Lemma bounded_intro (m : positive) (e : Z) :
  -1074 <= e <= 971 -> Z.pos m < 2 ^ 53 ->
  (e = -1074 \/ 2 ^ 52 <= Z.pos m) ->
  bounded prec emax m e = true.
Proof.
  intros He Hm Hn. unfold bounded, canonical_mantissa.
  apply andb_true_iff. split; [|apply Z.leb_le; change (emax - prec) with 971; lia].
  apply Z.eqb_eq. rewrite fexp_eq.
  destruct (digits2_pos_bounds m) as [Glo Ghi].
  set (d := Z.pos (digits2_pos m)) in *.
  assert (Hd1 : 1 <= d) by (subst d; lia).
  assert (Hd : d <= 53).
  { destruct (Z.le_gt_cases d 53) as [|Hgt]; [assumption|].
    assert (2 ^ 53 <= 2 ^ (d - 1)) by (apply Z.pow_le_mono_r; lia). lia. }
  destruct Hn as [->|Hn]; [lia|].
  assert (53 <= d).
  { destruct (Z.le_gt_cases 53 d) as [|Hgt]; [assumption|].
    assert (2 ^ d <= 2 ^ 52) by (apply Z.pow_le_mono_r; lia). lia. }
  lia.
Qed.

(** The order of two valid positive doubles is the order of their
    values. *)
Lemma SFcompare_scaled (ma : positive) (ea : Z) (mb : positive) (eb : Z) :
  bounded prec emax ma ea = true -> bounded prec emax mb eb = true ->
  SFcompare (S754_finite false ma ea) (S754_finite false mb eb)
  = Some (scaled ma ea ?= scaled mb eb).
Proof.
  intros Ha Hb.
  destruct (bounded_bounds _ _ Ha) as (Hea & Hma & Hna & _).
  destruct (bounded_bounds _ _ Hb) as (Heb & Hmb & Hnb & _).
  cbn [SFcompare]. f_equal. unfold scaled.
  destruct (Z.compare_spec ea eb) as [->|Hlt|Hgt].
  - rewrite <- Zmult_compare_compat_r
      by (apply Z.lt_gt, Z.pow_pos_nonneg; lia).
    reflexivity.
  - symmetry. apply Z.compare_lt_iff.
    assert (Hnb' : -1074 < eb) by (clear - Hea Hlt; lia). specialize (Hnb Hnb').
    replace (eb + 1074) with ((ea + 1074) + (eb - ea)) by lia.
    rewrite (Z.pow_add_r 2 (ea + 1074) (eb - ea)) by lia.
    assert (Hp : 0 < 2 ^ (ea + 1074)) by (apply Z.pow_pos_nonneg; lia).
    assert (Hq : 2 <= 2 ^ (eb - ea)).
    { change 2 with (2 ^ 1) at 1. apply Z.pow_le_mono_r; lia. }
    change (2 ^ 53) with (2 ^ 52 * 2) in Hma.
    assert (Hc : 0 < 2 ^ 52) by reflexivity.
    generalize dependent (2 ^ 52). intros c. intros.
    generalize dependent (2 ^ (ea + 1074)). intros P. intros.
    generalize dependent (2 ^ (eb - ea)). intros Q. intros.
    assert (H1 : Z.pos ma * P < c * 2 * P)
      by (apply Z.mul_lt_mono_pos_r; lia).
    assert (H0 : 0 < c * P) by (apply Z.mul_pos_pos; lia).
    assert (H2 : c * P * 2 <= c * P * Q)
      by (apply Z.mul_le_mono_nonneg_l; lia).
    assert (H3 : c * (P * Q) <= Z.pos mb * (P * Q))
      by (apply Z.mul_le_mono_nonneg_r; [apply Z.mul_nonneg_nonneg|]; lia).
    lia.
  - symmetry. apply Z.compare_gt_iff.
    assert (Hna' : -1074 < ea) by (clear - Heb Hgt; lia). specialize (Hna Hna').
    replace (ea + 1074) with ((eb + 1074) + (ea - eb)) by lia.
    rewrite (Z.pow_add_r 2 (eb + 1074) (ea - eb)) by lia.
    assert (Hp : 0 < 2 ^ (eb + 1074)) by (apply Z.pow_pos_nonneg; lia).
    assert (Hq : 2 <= 2 ^ (ea - eb)).
    { change 2 with (2 ^ 1) at 1. apply Z.pow_le_mono_r; lia. }
    change (2 ^ 53) with (2 ^ 52 * 2) in Hmb.
    assert (Hc : 0 < 2 ^ 52) by reflexivity.
    generalize dependent (2 ^ 52). intros c. intros.
    generalize dependent (2 ^ (eb + 1074)). intros P. intros.
    generalize dependent (2 ^ (ea - eb)). intros Q. intros.
    assert (H1 : Z.pos mb * P < c * 2 * P)
      by (apply Z.mul_lt_mono_pos_r; lia).
    assert (H0 : 0 < c * P) by (apply Z.mul_pos_pos; lia).
    assert (H2 : c * P * 2 <= c * P * Q)
      by (apply Z.mul_le_mono_nonneg_l; lia).
    assert (H3 : c * (P * Q) <= Z.pos ma * (P * Q))
      by (apply Z.mul_le_mono_nonneg_r; [apply Z.mul_nonneg_nonneg|]; lia).
    lia.
Qed.

(** Shifting a mantissa left by [k] bits, and right by [k] bits. *)
Lemma iter_xO_pow (k m : positive) :
  Z.pos (Pos.iter xO m k) = Z.pos m * 2 ^ Z.pos k.
Proof.
  induction k as [|k IH] using Pos.peano_ind.
  - cbn. lia.
  - rewrite Pos.iter_succ, Pos2Z.inj_xO, IH, Pos2Z.inj_succ,
      Z.pow_succ_r by lia.
    lia.
Qed.

Lemma shr_1_m (mrs : shr_record) :
  0 <= shr_m mrs ->
  shr_m (shr_1 mrs) = shr_m mrs / 2 /\ 0 <= shr_m (shr_1 mrs).
Proof.
  destruct mrs as [m r s]. cbn [shr_m shr_1]. intros Hm.
  destruct m as [|[p|p|]|p]; cbn [shr_m]; try lia.
  - split; [reflexivity|lia].
  - split; [|lia]. rewrite Pos2Z.inj_xI.
    apply Z.div_unique with 1; lia.
  - split; [|lia]. rewrite Pos2Z.inj_xO.
    apply Z.div_unique with 0; lia.
  - split; [reflexivity|lia].
Qed.

Lemma shr_m_iter (k : positive) : forall mrs,
  0 <= shr_m mrs ->
  shr_m (SpecFloat.iter_pos shr_1 k mrs) = shr_m mrs / 2 ^ Z.pos k
  /\ 0 <= shr_m (SpecFloat.iter_pos shr_1 k mrs).
Proof.
  induction k as [k IH|k IH|]; intros mrs Hm; cbn [SpecFloat.iter_pos].
  - destruct (shr_1_m mrs Hm) as [E1 P1].
    destruct (IH _ P1) as [E2 P2]. destruct (IH _ P2) as [E3 P3].
    split; [|assumption]. rewrite E3, E2, E1.
    rewrite !Z.div_div by (try apply Z.pow_pos_nonneg; lia).
    f_equal.
    assert (Hp : 2 ^ Z.pos k~1 = 2 * (2 ^ Z.pos k * 2 ^ Z.pos k)).
    { rewrite <- Z.pow_add_r, <- Z.pow_succ_r by lia. f_equal. lia. }
    rewrite Hp. ring.
  - destruct (IH _ Hm) as [E2 P2]. destruct (IH _ P2) as [E3 P3].
    split; [|assumption]. rewrite E3, E2.
    rewrite !Z.div_div by (try apply Z.pow_pos_nonneg; lia).
    f_equal.
    assert (Hp : 2 ^ Z.pos k~0 = 2 ^ Z.pos k * 2 ^ Z.pos k).
    { rewrite <- Z.pow_add_r by lia. f_equal. lia. }
    rewrite Hp. ring.
  - destruct (shr_1_m mrs Hm) as [E1 P1]. split; [|assumption].
    rewrite E1. reflexivity.
Qed.

Lemma round_nearest_even_bounds (m : Z) (l : location) :
  m <= round_nearest_even m l <= m + 1.
Proof.
  destruct l as [|[]]; cbn [round_nearest_even]; try lia.
  destruct (Z.even m); lia.
Qed.

(** Rounding a mantissa that is canonical already. *)
Lemma binary_round_aux_canonical (m : positive) (e : Z) :
  fexp prec emax (Z.pos (digits2_pos m) + e) = e ->
  binary_round_aux prec emax false (Z.pos m) e loc_Exact
  = if e <=? 971 then S754_finite false m e else S754_infinity false.
Proof.
  intros H. unfold binary_round_aux, shr_fexp.
  cbn [Zdigits2 shr_record_of_loc]. rewrite H, Z.sub_diag.
  cbn [shr shr_m loc_of_shr_record round_nearest_even Zdigits2
         shr_record_of_loc].
  rewrite H, Z.sub_diag. cbn [shr shr_m]. reflexivity.
Qed.

(** A valid double below an exact value [M * 2^ez] is below the value
    truncated to [ez + k]. *)
Lemma truncate_lower (M : positive) (ez : Z) (k : positive)
    (my : positive) (ey : Z) :
  -1074 <= ez ->
  2 ^ 52 <= Z.pos M / 2 ^ Z.pos k ->
  bounded prec emax my ey = true ->
  scaled my ey <= Z.pos M * 2 ^ (ez + 1074) ->
  scaled my ey <= (Z.pos M / 2 ^ Z.pos k) * 2 ^ (ez + Z.pos k + 1074).
Proof.
  intros Hez Hm1 Hy Hle.
  destruct (bounded_bounds _ _ Hy) as (Hey & Hmy & _).
  unfold scaled in *.
  set (m1 := Z.pos M / 2 ^ Z.pos k) in *.
  assert (HP : 0 < 2 ^ (ez + 1074)) by (apply Z.pow_pos_nonneg; lia).
  assert (HK : 0 < 2 ^ Z.pos k) by (apply Z.pow_pos_nonneg; lia).
  destruct (Z.le_gt_cases (ez + Z.pos k) ey) as [Hge|Hlt].
  - set (Q := 2 ^ (ey - (ez + Z.pos k))).
    assert (HQ : 0 < Q) by (apply Z.pow_pos_nonneg; lia).
    assert (E1 : 2 ^ (ey + 1074) = Q * 2 ^ Z.pos k * 2 ^ (ez + 1074)).
    { unfold Q. rewrite <- !Z.pow_add_r by lia. f_equal. lia. }
    assert (E2 : 2 ^ (ez + Z.pos k + 1074)
                 = 2 ^ Z.pos k * 2 ^ (ez + 1074)).
    { rewrite <- !Z.pow_add_r by lia. f_equal. lia. }
    rewrite E1 in Hle |- *. rewrite E2.
    assert (H1 : Z.pos my * Q * 2 ^ Z.pos k <= Z.pos M).
    { apply Z.mul_le_mono_pos_r with (2 ^ (ez + 1074)); [assumption|].
      rewrite !Z.mul_assoc in Hle. assumption. }
    assert (H2 : Z.pos my * Q <= m1).
    { apply Z.div_le_lower_bound; [assumption|].
      rewrite Z.mul_comm. assumption. }
    rewrite !Z.mul_assoc.
    apply Z.mul_le_mono_nonneg_r; [lia|].
    apply Z.mul_le_mono_nonneg_r; [lia|]. assumption.
  - set (Q := 2 ^ (ez + Z.pos k - ey - 1)).
    assert (HQ : 0 < Q) by (apply Z.pow_pos_nonneg; lia).
    set (P := 2 ^ (ey + 1074)) in *.
    assert (HPy : 0 < P) by (apply Z.pow_pos_nonneg; lia).
    assert (E2 : 2 ^ (ez + Z.pos k + 1074) = Q * 2 * P).
    { unfold Q, P. change 2 with (2 ^ 1) at 3.
      rewrite <- !Z.pow_add_r by lia. f_equal. lia. }
    rewrite E2.
    change (2 ^ 53) with (2 ^ 52 * 2) in Hmy.
    assert (Hc : 0 < 2 ^ 52) by reflexivity.
    clear Hle E2. generalize dependent (2 ^ 52). intros c. intros.
    assert (H1 : Z.pos my * P <= c * 2 * P)
      by (apply Z.mul_le_mono_nonneg_r; lia).
    assert (H2 : c * 2 * P <= m1 * 2 * P).
    { apply Z.mul_le_mono_nonneg_r; [lia|].
      apply Z.mul_le_mono_nonneg_r; [lia|]. assumption. }
    assert (H3 : m1 * 2 * P * 1 <= m1 * 2 * P * Q).
    { apply Z.mul_le_mono_nonneg_l; [|lia].
      apply Z.mul_nonneg_nonneg; [|lia]. lia. }
    replace (m1 * (Q * 2 * P)) with (m1 * 2 * P * Q) by ring. lia.
Qed.

(** Rounding [M * 2^ez], [M > 0], to nearest: the result is plus
    infinity or a valid positive double that no valid double below the
    exact value exceeds. *)
Lemma binary_round_spec (M : positive) (ez : Z) :
  -1074 <= ez ->
  let r := binary_round prec emax false M ez in
  r = S754_infinity false
  \/ exists m e,
       r = S754_finite false m e /\ bounded prec emax m e = true
       /\ forall my ey,
            bounded prec emax my ey = true ->
            scaled my ey <= Z.pos M * 2 ^ (ez + 1074) ->
            scaled my ey <= scaled m e.
Proof.
  intros Hez r. subst r. unfold binary_round.
  destruct (digits2_pos_bounds M) as [Dlo Dhi].
  set (d := Z.pos (digits2_pos M)) in *.
  assert (Hd1 : 1 <= d) by (subst d; lia).
  pose proof (fexp_eq (d + ez)) as Hf.
  unfold shl_align.
  destruct (fexp prec emax (d + ez) - ez) as [|k|k] eqn:Hsub.
  - (* the mantissa is canonical *)
    assert (Hc : fexp prec emax (d + ez) = ez) by lia.
    rewrite (binary_round_aux_canonical M ez Hc).
    destruct (Z.leb_spec ez 971) as [Hle|Hgt]; [right|left; reflexivity].
    exists M, ez. split; [reflexivity|]. split.
    + unfold bounded, canonical_mantissa. fold d. rewrite Hc, Z.eqb_refl.
      apply Z.leb_le. change (emax - prec) with 971. assumption.
    + intros my ey _ Hle'. exact Hle'.
  - (* more than 53 digits: shift right and round *)
    assert (He : fexp prec emax (d + ez) = ez + Z.pos k) by lia.
    assert (Hk : Z.pos k = d - 53) by lia.
    destruct (shr_m_iter k (Build_shr_record (Z.pos M) false false))
      as [Hm1 _]; [cbn; lia|].
    cbn [shr_m] in Hm1.
    assert (HK : 0 < 2 ^ Z.pos k) by (apply Z.pow_pos_nonneg; lia).
    assert (Hlo : 2 ^ 52 <= Z.pos M / 2 ^ Z.pos k).
    { apply Z.div_le_lower_bound; [assumption|].
      rewrite <- Z.pow_add_r by lia.
      replace (Z.pos k + 52) with (d - 1) by lia. assumption. }
    assert (Hhi : Z.pos M / 2 ^ Z.pos k < 2 ^ 53).
    { apply Z.div_lt_upper_bound; [assumption|].
      rewrite <- Z.pow_add_r by lia.
      replace (Z.pos k + 53) with d by lia. assumption. }
    assert (Hr : exists m2 : positive,
               Z.pos M / 2 ^ Z.pos k <= Z.pos m2
               /\ Z.pos m2 <= 2 ^ 53
               /\ binary_round_aux prec emax false (Z.pos M) ez loc_Exact
                  = if Z.pos m2 <? 2 ^ 53
                    then (if ez + Z.pos k <=? 971
                          then S754_finite false m2 (ez + Z.pos k)
                          else S754_infinity false)
                    else (if ez + Z.pos k + 1 <=? 971
                          then S754_finite false 4503599627370496
                                 (ez + Z.pos k + 1)
                          else S754_infinity false)).
    { unfold binary_round_aux, shr_fexp at 1.
      cbn [Zdigits2 shr_record_of_loc]. fold d. rewrite Hsub.
      cbn [shr].
      set (mrs' := SpecFloat.iter_pos shr_1 k _) in *.
      pose proof (round_nearest_even_bounds (shr_m mrs')
                    (loc_of_shr_record mrs')) as Hrn.
      set (m2 := round_nearest_even _ _) in *.
      rewrite Hm1 in Hrn.
      destruct m2 as [|m2|m2]; [lia| |lia].
      exists m2. split; [lia|]. split; [lia|].
      destruct (Z.ltb_spec (Z.pos m2) (2 ^ 53)) as [Hm2|Hm2].
      - assert (Hd2 : Z.pos (digits2_pos m2) = 53)
          by (apply digits2_pos_unique; [change (53 - 1) with 52|]; lia).
        unfold shr_fexp. cbn [Zdigits2 shr_record_of_loc].
        rewrite Hd2, fexp_eq.
        replace (Z.max (53 + (ez + Z.pos k) - 53) (-1074) - (ez + Z.pos k))
          with 0 by lia.
        cbn [shr shr_m]. reflexivity.
      - assert (m2 = 9007199254740992%positive) by lia. subst m2.
        unfold shr_fexp. cbn [Zdigits2 shr_record_of_loc].
        change (Z.pos (digits2_pos 9007199254740992)) with 54.
        rewrite fexp_eq.
        replace (Z.max (54 + (ez + Z.pos k) - 53) (-1074) - (ez + Z.pos k))
          with 1 by lia.
        cbn [shr shr_m SpecFloat.iter_pos shr_1]. reflexivity. }
    destruct Hr as (m2 & Hm2lo & Hm2hi & ->).
    destruct (Z.ltb_spec (Z.pos m2) (2 ^ 53)) as [Hm2|Hm2].
    + destruct (Z.leb_spec (ez + Z.pos k) 971) as [Hle|Hgt];
        [right|left; reflexivity].
      exists m2, (ez + Z.pos k). split; [reflexivity|]. split.
      * apply bounded_intro; lia.
      * intros my ey Hy Hle'.
        pose proof (truncate_lower M ez k my ey Hez Hlo Hy Hle') as Ht.
        etransitivity; [exact Ht|]. unfold scaled.
        apply Z.mul_le_mono_nonneg_r; [|lia].
        apply Z.lt_le_incl, Z.pow_pos_nonneg; lia.
    + destruct (Z.leb_spec (ez + Z.pos k + 1) 971) as [Hle|Hgt];
        [right|left; reflexivity].
      exists 4503599627370496%positive, (ez + Z.pos k + 1).
      split; [reflexivity|]. split.
      * apply bounded_intro; [lia|reflexivity|right; reflexivity].
      * intros my ey Hy Hle'.
        pose proof (truncate_lower M ez k my ey Hez Hlo Hy Hle') as Ht.
        etransitivity; [exact Ht|]. unfold scaled.
        replace (ez + Z.pos k + 1 + 1074)
          with (1 + (ez + Z.pos k + 1074)) by lia.
        rewrite (Z.pow_add_r 2 1) by lia. rewrite Z.mul_assoc.
        apply Z.mul_le_mono_nonneg_r;
          [apply Z.lt_le_incl, Z.pow_pos_nonneg; lia|].
        change (Z.pos 4503599627370496 * 2 ^ 1) with (2 ^ 53). lia.
  - (* fewer digits than the exponent allows: shift left, exactly *)
    assert (He : fexp prec emax (d + ez) = ez - Z.pos k) by lia.
    pose proof (iter_xO_pow k M) as Hz.
    set (mz := Pos.iter xO M k) in *.
    assert (HK : 0 < 2 ^ Z.pos k) by (apply Z.pow_pos_nonneg; lia).
    assert (Hdz : Z.pos (digits2_pos mz) = d + Z.pos k).
    { apply digits2_pos_unique; [|lia]. rewrite Hz.
      replace (d + Z.pos k - 1) with ((d - 1) + Z.pos k) by lia.
      rewrite !Z.pow_add_r by lia. split.
      - apply Z.mul_le_mono_nonneg_r; lia.
      - apply Z.mul_lt_mono_pos_r; lia. }
    assert (Hc : fexp prec emax (Z.pos (digits2_pos mz)
                                 + fexp prec emax (d + ez))
                 = fexp prec emax (d + ez)).
    { rewrite Hdz. rewrite He at 1.
      replace (d + Z.pos k + (ez - Z.pos k)) with (d + ez) by lia.
      reflexivity. }
    rewrite (binary_round_aux_canonical mz _ Hc).
    destruct (Z.leb_spec (fexp prec emax (d + ez)) 971) as [Hle|Hgt];
      [right|left; reflexivity].
    exists mz, (fexp prec emax (d + ez)). split; [reflexivity|]. split.
    + unfold bounded, canonical_mantissa. rewrite Hc, Z.eqb_refl.
      apply Z.leb_le. change (emax - prec) with 971. assumption.
    + intros my ey _ Hle'. unfold scaled. rewrite Hz, He.
      replace (ez + 1074) with (Z.pos k + (ez - Z.pos k + 1074)) in Hle'
        by lia.
      rewrite Z.pow_add_r in Hle' by lia.
      rewrite <- Z.mul_assoc. exact Hle'.
Qed.

(** Aligning a mantissa to a lower exponent. *)
Lemma shl_align_fst (m : positive) (e e' : Z) :
  e' <= e ->
  Z.pos (fst (shl_align m e e')) = Z.pos m * 2 ^ (e - e').
Proof.
  intros Hle. unfold shl_align.
  destruct (e' - e) as [|k|k] eqn:Hsub; cbn [fst]; try lia.
  - replace (e - e') with 0 by lia. cbn. lia.
  - rewrite iter_xO_pow. f_equal. f_equal. lia.
Qed.

(** The sum of two positive doubles is at least every valid double
    that is at most the exact sum. *)
Lemma SFadd_lower (mx : positive) (ex : Z) (ms : positive) (es : Z)
    (my : positive) (ey : Z) :
  bounded prec emax mx ex = true -> bounded prec emax ms es = true ->
  bounded prec emax my ey = true ->
  scaled my ey <= scaled mx ex + scaled ms es ->
  let r := SFadd prec emax (S754_finite false mx ex)
             (S754_finite false ms es) in
  SFcompare (S754_finite false my ey) r = Some Lt
  \/ SFcompare (S754_finite false my ey) r = Some Eq.
Proof.
  intros Hx Hs Hy Hle r. subst r.
  destruct (bounded_bounds _ _ Hx) as (Hex & _).
  destruct (bounded_bounds _ _ Hs) as (Hes & _).
  cbn [SFadd cond_Zopp].
  set (ez := Z.min ex es).
  pose proof (shl_align_fst mx ex ez ltac:(lia)) as Hax.
  pose proof (shl_align_fst ms es ez ltac:(lia)) as Has.
  set (ax := fst (shl_align mx ex ez)) in *.
  set (as_ := fst (shl_align ms es ez)) in *.
  change (Z.pos ax + Z.pos as_) with (Z.pos (ax + as_)).
  cbn [binary_normalize].
  assert (HV : Z.pos (ax + as_) * 2 ^ (ez + 1074)
               = scaled mx ex + scaled ms es).
  { rewrite Pos2Z.inj_add, Hax, Has. unfold scaled.
    rewrite Z.mul_add_distr_r, <- !Z.mul_assoc, <- !Z.pow_add_r by lia.
    f_equal; f_equal; f_equal; lia. }
  destruct (binary_round_spec (ax + as_) ez ltac:(lia))
    as [->|(m & e & -> & Hb & Hlow)].
  - left. reflexivity.
  - rewrite (SFcompare_scaled _ _ _ _ Hy Hb).
    specialize (Hlow my ey Hy ltac:(rewrite HV; exact Hle)).
    destruct (Z.compare_spec (scaled my ey) (scaled m e)); auto. lia.
Qed.

(** Adding a positive double of at least one unit in the last place
    gives a larger double. *)
Lemma SFadd_increases (mx : positive) (ex : Z) (ms : positive) (es : Z) :
  bounded prec emax mx ex = true -> bounded prec emax ms es = true ->
  ex < 971 -> 2 ^ (ex + 1074) <= scaled ms es ->
  SFcompare (S754_finite false mx ex)
    (SFadd prec emax (S754_finite false mx ex) (S754_finite false ms es))
  = Some Lt.
Proof.
  intros Hx Hs Hex Hulp.
  destruct (bounded_bounds _ _ Hx) as (Hex' & Hmx & Hnx & _).
  assert (HP : 0 < 2 ^ (ex + 1074)) by (apply Z.pow_pos_nonneg; lia).
  assert (Hsucc : exists my ey,
            bounded prec emax my ey = true
            /\ scaled my ey = scaled mx ex + 2 ^ (ex + 1074)).
  { destruct (Z.lt_ge_cases (Z.pos mx + 1) (2 ^ 53)) as [Hlt|Hge].
    - exists (mx + 1)%positive, ex. split.
      + apply bounded_intro; [lia|lia|].
        destruct (Z.eq_dec ex (-1074)); [left; assumption|right].
        specialize (Hnx ltac:(lia)). lia.
      + unfold scaled. lia.
    - exists 4503599627370496%positive, (ex + 1). split.
      + apply bounded_intro; [lia|reflexivity|right; reflexivity].
      + unfold scaled.
        replace (ex + 1 + 1074) with (1 + (ex + 1074)) by lia.
        rewrite (Z.pow_add_r 2 1) by lia. rewrite Z.mul_assoc.
        change (Z.pos 4503599627370496 * 2 ^ 1) with (2 ^ 53).
        assert (Z.pos mx + 1 = 2 ^ 53) by lia. nia. }
  destruct Hsucc as (my & ey & Hy & Hval).
  assert (Hxy : SFcompare (S754_finite false mx ex) (S754_finite false my ey)
                = Some Lt).
  { rewrite (SFcompare_scaled _ _ _ _ Hx Hy). f_equal.
    apply Z.compare_lt_iff. lia. }
  destruct (SFadd_lower mx ex ms es my ey Hx Hs Hy ltac:(lia)) as [H|H].
  - exact (SFcompare_Lt_trans _ _ _ Hxy H).
  - exact (SFcompare_Lt_Eq_trans _ _ _ Hxy H).
Qed.

Lemma SFadd_nondecreasing (mx : positive) (ex : Z) (ms : positive) (es : Z) :
  bounded prec emax mx ex = true -> bounded prec emax ms es = true ->
  let r := SFadd prec emax (S754_finite false mx ex)
             (S754_finite false ms es) in
  SFcompare (S754_finite false mx ex) r = Some Lt
  \/ SFcompare (S754_finite false mx ex) r = Some Eq.
Proof.
  intros Hx Hs. apply SFadd_lower; try assumption.
  assert (0 < scaled ms es); [|lia].
  unfold scaled. destruct (bounded_bounds _ _ Hs) as (Hes & _).
  apply Z.mul_pos_pos; [lia|apply Z.pow_pos_nonneg; lia].
Qed.

Lemma Prim2SF_bounded (x : float) (m : positive) (e : Z) :
  Prim2SF x = S754_finite false m e -> bounded prec emax m e = true.
Proof.
  intros H. pose proof (FloatAxioms.Prim2SF_valid x) as Hv.
  rewrite H in Hv. exact Hv.
Qed.

(** A double of at least 1e-5 is at least [2^-17]. *)
Lemma step_lower_bound (ms : positive) (es : Z) :
  bounded prec emax ms es = true ->
  SFleb (Prim2SF 1.0e-5) (S754_finite false ms es) = true ->
  2 ^ 1057 <= scaled ms es.
Proof.
  intros Hs Hle.
  change (Prim2SF 1.0e-5)
    with (S754_finite false 5902958103587057 (-69)) in Hle.
  unfold SFleb in Hle.
  rewrite (SFcompare_scaled 5902958103587057 (-69) ms es eq_refl Hs) in Hle.
  assert (H : scaled 5902958103587057 (-69) <= scaled ms es).
  { destruct (Z.compare_spec (scaled 5902958103587057 (-69)) (scaled ms es));
      try lia; discriminate. }
  etransitivity; [|exact H]. unfold scaled.
  change (-69 + 1074) with 1005. change 1057 with (52 + 1005).
  rewrite Z.pow_add_r by lia.
  apply Z.mul_le_mono_nonneg_r; [apply Z.lt_le_incl, Z.pow_pos_nonneg; lia|].
  vm_compute. discriminate.
Qed.

(** A positive double below [2^36] has its last place at [2^-17] or
    below. *)
Lemma time_exponent_bound (mx : positive) (ex : Z) :
  bounded prec emax mx ex = true ->
  SFltb (S754_finite false mx ex) (Prim2SF 68719476736) = true ->
  ex <= -17.
Proof.
  intros Hx Hlt.
  change (Prim2SF 68719476736)
    with (S754_finite false 4503599627370496 (-16)) in Hlt.
  unfold SFltb in Hlt. cbn [SFcompare] in Hlt.
  destruct (bounded_bounds _ _ Hx) as (_ & _ & Hnx & _).
  destruct (Z.compare_spec ex (-16)) as [->|Hl|Hg]; [|lia|discriminate].
  specialize (Hnx ltac:(lia)).
  rewrite Pos.compare_cont_spec in Hlt. cbn [Pos.switch_Eq] in Hlt.
  destruct (Pos.compare_spec mx 4503599627370496) as [?|Hc|?];
    try discriminate.
  change (2 ^ 52) with (Z.pos 4503599627370496) in Hnx.
  exfalso. apply Pos2Z.pos_lt_pos in Hc.
  exact (Z.lt_irrefl _ (Z.le_lt_trans _ _ _ Hnx Hc)).
Qed.

(** Binary64 addition of a step of at least 1e-5 to a time [x >= 0]:
    the sum is not below [x], and it is above [x] while [x] is below
    [2^36]. *)
Lemma float_add_step (x s : float) :
  (0 <=? x)%float = true -> (1.0e-5 <=? s)%float = true ->
  (x <=? x + s)%float = true
  /\ ((x <? 68719476736)%float = true -> (x <? x + s)%float = true).
Proof.
  rewrite !FloatAxioms.leb_spec, !FloatAxioms.ltb_spec, FloatAxioms.add_spec.
  unfold SF64add. intros Hx Hs.
  change (Prim2SF 0) with (S754_zero false) in Hx.
  destruct (Prim2SF s) as [ss|[]| |[] ms es] eqn:Es;
    try discriminate Hs.
  - (* the step is plus infinity *)
    destruct (Prim2SF x) as [sx|[]| |[] mx ex] eqn:Ex;
      try discriminate Hx; split; intros; try reflexivity.
    discriminate.
  - pose proof (Prim2SF_bounded s ms es Es) as Hbs.
    pose proof (step_lower_bound ms es Hbs Hs) as Hstep.
    destruct (Prim2SF x) as [sx|[]| |[] mx ex] eqn:Ex;
      try discriminate Hx.
    + split; intros; reflexivity.
    + split; [reflexivity|]. intros H. discriminate H.
    + pose proof (Prim2SF_bounded x mx ex Ex) as Hbx.
      split.
      * unfold SFleb.
        destruct (SFadd_nondecreasing mx ex ms es Hbx Hbs) as [-> | ->];
          reflexivity.
      * intros Hlt. pose proof (time_exponent_bound mx ex Hbx Hlt) as Hex.
        unfold SFltb.
        rewrite (SFadd_increases mx ex ms es Hbx Hbs); [reflexivity|lia|].
        etransitivity; [|exact Hstep].
        apply Z.pow_le_mono_r; lia.
Qed.

(** ** The resampled knot times (lines 372-388) *)

Lemma SFcompare_Eq_trans a b c :
  SFcompare a b = Some Eq -> SFcompare b c = Some Eq ->
  SFcompare a c = Some Eq.
Proof.
  destruct a as [[]|[]| |[] ma ea], b as [[]|[]| |[] mb eb],
    c as [[]|[]| |[] mc ec];
    simpl; try congruence; intros H1 H2; f_equal; float_cmp_cases;
    try congruence; try lia.
Qed.

Lemma float_leb_trans (x y z : float) :
  (x <=? y)%float = true -> (y <=? z)%float = true ->
  (x <=? z)%float = true.
Proof.
  float_spec. intros H1 H2.
  destruct (SFcompare (Prim2SF x) (Prim2SF y)) as [[]|] eqn:E1;
    try discriminate;
    destruct (SFcompare (Prim2SF y) (Prim2SF z)) as [[]|] eqn:E2;
    try discriminate.
  - rewrite (SFcompare_Eq_trans _ _ _ E1 E2). reflexivity.
  - rewrite (SFcompare_Eq_Lt_trans _ _ _ E1 E2). reflexivity.
  - rewrite (SFcompare_Lt_Eq_trans _ _ _ E1 E2). reflexivity.
  - rewrite (SFcompare_Lt_trans _ _ _ E1 E2). reflexivity.
Qed.

(** The accumulated knot times from a time [t0 >= 0] with a step of at
    least 1e-5 never decrease, and increase strictly up to a knot below
    [2^36]. *)
Lemma knot_time_monotone (t0 s : float) :
  (0 <=? t0)%float = true -> (1.0e-5 <=? s)%float = true ->
  (forall j, (0 <=? knot_time t0 s j)%float = true)
  /\ (forall i j, (i <= j)%nat ->
        (knot_time t0 s i <=? knot_time t0 s j)%float = true)
  /\ (forall i j, (i < j)%nat ->
        (knot_time t0 s i <? 68719476736)%float = true ->
        (knot_time t0 s i <? knot_time t0 s j)%float = true).
Proof.
  intros H0 Hs.
  assert (Hpos : forall j, (0 <=? knot_time t0 s j)%float = true).
  { induction j as [|j IH]; [exact H0|].
    rewrite knot_time_succ.
    apply float_leb_trans with (knot_time t0 s j); [assumption|].
    apply float_add_step; assumption. }
  assert (Hstep : forall j,
            (knot_time t0 s j <=? knot_time t0 s (S j))%float = true).
  { intros j. rewrite knot_time_succ. apply float_add_step; auto. }
  assert (Hmono : forall i j, (i <= j)%nat ->
            (knot_time t0 s i <=? knot_time t0 s j)%float = true).
  { intros i j Hij. induction Hij as [|j Hij IH].
    - apply float_leb_refl.
      destruct (float_leb_not_nan _ _ (Hpos i)) as [_ Hn]. exact Hn.
    - apply float_leb_trans with (knot_time t0 s j); auto. }
  split; [assumption|]. split; [assumption|].
  intros i j Hij Hb.
  apply float_ltb_leb_trans with (knot_time t0 s (S i)).
  - rewrite knot_time_succ. apply float_add_step; auto.
  - apply Hmono. lia.
Qed.

Section ResampledTimes.
Context (E : Collaborators).

(** The knot times of the working policy after [ResamplePolicy]:
    [PowerSequence] run on the times the loop accumulated. *)
Lemma ResamplePolicy_times h p :
  let cp := get p.(candidate_policy) 0 in
  let K := cp.(num_spline_points) in
  let shift := time_shift E h K in
  (0 < length p.(candidate_policy))%nat ->
  K <= Z.of_nat (length p.(times_scratch)) ->
  exists ts,
    (get (ResamplePolicy E h p).(candidate_policy) 0).(times)
    = E.(PowerSequence) ts shift (get ts 0) (get ts (K - 1))
        p.(timestep_power) K
    /\ K <= Z.of_nat (length ts)
    /\ forall j : nat, Z.of_nat j < K ->
         get ts (Z.of_nat j) = knot_time p.(time) shift j.
Proof.
  intros cp K shift Hc HK. unfold ResamplePolicy. fold cp. fold K.
  fold shift.
  pose proof (fun j => resample_points_times E (Z.to_nat K) 0 cp p.(time)
                shift p.(parameters_scratch) p.(times_scratch) j) as Hts.
  pose proof (resample_points_length E (Z.to_nat K) 0 cp p.(time)
                shift p.(parameters_scratch) p.(times_scratch)) as Hlen.
  destruct (resample_points E (Z.to_nat K) 0 cp p.(time) shift
              p.(parameters_scratch) p.(times_scratch)) as [ps ts].
  cbn [snd] in Hts, Hlen.
  cbn [candidate_policy set_candidate_policy set_scratch].
  rewrite get_put_eq by lia.
  cbn [times set_times set_parameters].
  eexists. split; [reflexivity|].
  assert (Hl : K <= Z.of_nat (length (mju_copy cp.(times) ts K))).
  { unfold mju_copy. rewrite length_app, length_take. lia. }
  split; [exact Hl|].
  intros j Hj. rewrite get_nat. apply list_lookup_total_correct.
  unfold mju_copy. rewrite lookup_app_l by (rewrite length_take; lia).
  rewrite lookup_take_lt by lia. rewrite Hts by lia.
  destruct (decide _); [|lia]. rewrite Nat.sub_0_r. reflexivity.
Qed.

(** The times the loop of [ResamplePolicy] accumulates in
    [times_scratch]. *)
Lemma ResamplePolicy_accumulated h p (j : nat) :
  let cp := get p.(candidate_policy) 0 in
  let K := cp.(num_spline_points) in
  K <= Z.of_nat (length p.(times_scratch)) ->
  Z.of_nat j < K ->
  get (ResamplePolicy E h p).(times_scratch) (Z.of_nat j)
  = knot_time p.(time) (time_shift E h K) j.
Proof.
  intros cp K HK Hj. unfold ResamplePolicy. fold cp. fold K.
  pose proof (resample_points_times E (Z.to_nat K) 0 cp p.(time)
                (time_shift E h K) p.(parameters_scratch)
                p.(times_scratch) j) as Hts.
  destruct (resample_points E (Z.to_nat K) 0 cp p.(time) (time_shift E h K)
              p.(parameters_scratch) p.(times_scratch)) as [ps ts].
  cbn [snd] in Hts.
  cbn [times_scratch set_candidate_policy set_scratch].
  rewrite get_nat. apply list_lookup_total_correct.
  rewrite Hts by lia.
  destruct (decide _); [|lia]. rewrite Nat.sub_0_r. reflexivity.
Qed.


(** C6, as amended: [ResamplePolicy] with horizon [h] and [K >= 2] knots
    uses the time shift [max((h - 1) * dt / (K - 1), 1e-5)], computed in
    [double]; the shift is a number not below 1e-5. The knot times the
    loop accumulates (lines 372-377) start at the planner's current
    time, and each further one is the previous one plus the shift,
    rounded to [double]; for a planner time [>= 0] they never decrease,
    and a knot time below [2^36] seconds is strictly below the next.
    With the default exponent 1.0 of the power law, a planner time
    [>= 0] and a last accumulated knot time below [2^36], the knot
    times of the policy are the accumulated ones: the first is the
    planner's current time, each further one is the previous one plus
    the shift, and the sequence is strictly increasing. For [h = 2],
    [K = 2], [dt = 0.1] the shift is 0.1. *)
Theorem ResamplePolicy_spacing h p :
  let cp := get p.(candidate_policy) 0 in
  let K := cp.(num_spline_points) in
  let shift := time_shift E h K in
  let accumulated := (ResamplePolicy E h p).(times_scratch) in
  let knots := (get (ResamplePolicy E h p).(candidate_policy) 0).(times) in
  2 <= K ->
  (0 < length p.(candidate_policy))%nat ->
  K <= Z.of_nat (length p.(times_scratch)) ->
  p.(timestep_power) = 1%float ->
  PowerSequence_linear E ->
  shift = mju_max (of_int (h - 1) * E.(timestep) / of_int (K - 1))%float
            1.0e-5%float
  /\ (1.0e-5 <=? shift)%float = true
  /\ get accumulated 0 = p.(time)
  /\ (forall j, 0 <= j -> j + 1 < K ->
        get accumulated (j + 1) = (get accumulated j + shift)%float
        /\ ((0 <=? p.(time))%float = true ->
            (get accumulated j <=? get accumulated (j + 1))%float = true
            /\ ((get accumulated j <? 68719476736)%float = true ->
                (get accumulated j <? get accumulated (j + 1))%float
                = true)))
  /\ ((0 <=? p.(time))%float = true ->
      (get accumulated (K - 1) <? 68719476736)%float = true ->
      get knots 0 = p.(time)
      /\ forall j, 0 <= j -> j + 1 < K ->
           get knots (j + 1) = (get knots j + shift)%float
           /\ (get knots j <? get knots (j + 1))%float = true)
  /\ (E.(timestep) = 0.1%float -> time_shift E 2 2 = 0.1%float).
Proof.
  intros cp K shift accumulated knots HK Hc Hts Hp Hpow.
  assert (Hshift : (1.0e-5 <=? shift)%float = true)
    by (apply mju_max_lower_bound; reflexivity).
  assert (Hacc : forall j : nat, Z.of_nat j < K ->
            get accumulated (Z.of_nat j) = knot_time p.(time) shift j).
  { intros j Hj. apply ResamplePolicy_accumulated; assumption. }
  assert (Hacc' : forall j, 0 <= j < K ->
            get accumulated j = knot_time p.(time) shift (Z.to_nat j)).
  { intros j Hj. rewrite <- (Z2Nat.id j) at 1 by lia. apply Hacc. lia. }
  split; [reflexivity|]. split; [assumption|].
  split; [apply (Hacc 0%nat); lia|].
  split.
  { intros j Hj0 Hj. rewrite !Hacc' by lia.
    replace (Z.to_nat (j + 1)) with (S (Z.to_nat j)) by lia.
    split; [apply knot_time_succ|].
    intros H0.
    destruct (knot_time_monotone p.(time) shift H0 Hshift)
      as (_ & Hmono & Hincr).
    split; [apply Hmono; lia|]. intros Hb. apply Hincr; [lia|assumption]. }
  split; [|intros Hdt; unfold time_shift; rewrite Hdt; vm_compute;
           reflexivity].
  intros H0 Hlast. rewrite Hacc' in Hlast by lia.
  destruct (knot_time_monotone p.(time) shift H0 Hshift)
    as (Hpos & Hmono & Hincr).
  assert (Hbound : forall j : nat, Z.of_nat j < K ->
            (knot_time p.(time) shift j <? 68719476736)%float = true).
  { intros j Hj.
    apply float_leb_ltb_trans with (knot_time p.(time) shift (Z.to_nat (K - 1)));
      [apply Hmono; lia|assumption]. }
  assert (Hk : forall j : nat, Z.of_nat j < K ->
            get knots (Z.of_nat j) = knot_time p.(time) shift j).
  { destruct (ResamplePolicy_times h p Hc Hts) as (ts & Heq & Hl & Hget).
    fold cp K shift in Heq, Hl, Hget. fold knots in Heq.
    intros j Hj. rewrite Heq, Hp.
    pose proof (Hget 0%nat ltac:(lia)) as G0.
    change (Z.of_nat 0) with 0 in G0. cbn [knot_time] in G0.
    pose proof (Hget (Z.to_nat (K - 1)) ltac:(lia)) as G1.
    rewrite Z2Nat.id in G1 by lia.
    rewrite Hpow; [rewrite G0; reflexivity|rewrite G0; assumption| | |lia|lia].
    - rewrite G0, G1.
      apply (Hincr 0%nat (Z.to_nat (K - 1))); [lia|].
      apply (Hbound 0%nat). lia.
    - rewrite G1. assumption. }
  split; [apply (Hk 0%nat); lia|].
  intros j Hj0 Hj.
  pose proof (Hk (S (Z.to_nat j))) as H1.
  pose proof (Hk (Z.to_nat j)) as H2.
  rewrite Nat2Z.inj_succ, Z2Nat.id in H1 by lia.
  rewrite Z2Nat.id in H2 by lia.
  unfold Z.succ in H1. rewrite H1, H2 by lia.
  split; [apply knot_time_succ|].
  apply Hincr; [lia|]. apply Hbound. lia.
Qed.

End ResampledTimes.

(** The toy [PowerSequence] is linear. *)
Lemma Toy_PowerSequence_linear : PowerSequence_linear Toy.E_linear.
Proof.
  intros ts s t1 t2 n j _ _ _ Hj _.
  cbn [Toy.E_linear PowerSequence]. unfold Toy.linear_sequence.
  rewrite get_nat. apply list_lookup_total_correct.
  rewrite lookup_app_l by (rewrite length_map, length_seq; lia).
  rewrite list_lookup_fmap, lookup_seq_lt by lia. reflexivity.
Qed.

(** C6 at a concrete call: four knots from time 5 over a horizon of 10
    steps of 0.1, with a [PowerSequence] that regenerates the sequence
    from its first point and the step. *)
Lemma ResamplePolicy_spacing_witness :
  let p0 := Toy.planner 0 5 4 2 1 in
  let p := set_candidate_policy (put p0.(candidate_policy) 0 p0.(policy)) p0 in
  let knots :=
    (get (ResamplePolicy Toy.E_linear 10 p).(candidate_policy) 0).(times) in
  let shift := time_shift Toy.E_linear 10 4 in
  time_shift Toy.E_linear 2 2 = 0.1%float
  /\ get knots 0 = 5%float
  /\ get knots 1 = (5 + shift)%float
  /\ get knots 2 = (5 + shift + shift)%float
  /\ get knots 3 = (5 + shift + shift + shift)%float
  /\ (get knots 0 <? get knots 1)%float = true
  /\ (get knots 1 <? get knots 2)%float = true
  /\ (get knots 2 <? get knots 3)%float = true.
Proof.
  intros p0 p knots shift.
  assert (HK : 2 <= (get p.(candidate_policy) 0).(num_spline_points))
    by (vm_compute; discriminate).
  assert (Hc : (0 < length p.(candidate_policy))%nat) by (vm_compute; lia).
  assert (Hts : (get p.(candidate_policy) 0).(num_spline_points)
                <= Z.of_nat (length p.(times_scratch)))
    by (vm_compute; discriminate).
  assert (Hp : p.(timestep_power) = 1%float) by reflexivity.
  destruct (ResamplePolicy_spacing Toy.E_linear 10 p HK Hc Hts Hp
              Toy_PowerSequence_linear) as (_ & _ & _ & _ & Hknots & Hex).
  destruct Hknots as (H0 & Hstep);
    [vm_compute; reflexivity|vm_compute; reflexivity|].
  change (get p.(candidate_policy) 0).(num_spline_points) with 4 in Hstep.
  fold knots in H0, Hstep.
  change (time_shift Toy.E_linear 10 4) with shift in Hstep.
  destruct (Hstep 0 ltac:(lia) ltac:(lia)) as (S1 & L1).
  destruct (Hstep 1 ltac:(lia) ltac:(lia)) as (S2 & L2).
  destruct (Hstep 2 ltac:(lia) ltac:(lia)) as (S3 & L3).
  change (0 + 1) with 1 in *. change (1 + 1) with 2 in *.
  change (2 + 1) with 3 in *.
  change p.(time) with 5%float in H0.
  split; [apply Hex; reflexivity|].
  split; [exact H0|].
  split; [rewrite S1, H0; reflexivity|].
  split; [rewrite S2, S1, H0; reflexivity|].
  split; [rewrite S3, S2, S1, H0; reflexivity|].
  split; [exact L1|]. split; [exact L2|exact L3].
Defined.

(** C6, as stated, fails: at a planner time of 1e17 the shift 0.1 is
    below half the spacing of [double]s (16 at that magnitude), the sum
    rounds back to 1e17, and the two knot times the loop accumulates
    (lines 372-377) are equal. The knot times of the policy are equal,
    whether [PowerSequence] keeps the accumulated times or regenerates
    them from the first one and the shift. *)
Lemma ResamplePolicy_knots_not_strictly_increasing :
  let p0 := Toy.planner 0 1.0e17 2 2 1 in
  let p := set_candidate_policy (put p0.(candidate_policy) 0 p0.(policy)) p0 in
  let accumulated := (ResamplePolicy Toy.E 2 p).(times_scratch) in
  let knots := (get (ResamplePolicy Toy.E 2 p).(candidate_policy) 0).(times) in
  let knots' :=
    (get (ResamplePolicy Toy.E_linear 2 p).(candidate_policy) 0).(times) in
  time_shift Toy.E 2 (get p.(candidate_policy) 0).(num_spline_points)
  = 0.1%float
  /\ get accumulated 0 = 1.0e17%float
  /\ get accumulated 1 = 1.0e17%float
  /\ get knots 0 = 1.0e17%float
  /\ get knots 1 = 1.0e17%float
  /\ (get knots 0 <? get knots 1)%float = false
  /\ get knots' 0 = 1.0e17%float
  /\ get knots' 1 = 1.0e17%float
  /\ (get knots' 0 <? get knots' 1)%float = false.
Proof. vm_compute. repeat split; reflexivity. Qed.
